(** * container.js: a shallow embedding of the IoC container

    The development follows [src/Container/Container.ts] (the container
    with its registries, the recursive [make]/[build] engine and the
    lifecycle callbacks), [src/Container/Aliaser.ts] (the stand-alone
    alias registry), the [ReflectionParameter] class and
    [src/Support/NestedMap/ES5NestedMap.ts] (the map under sequences of
    keys).

    JavaScript values are a small inductive type; a JS [Map] is an
    insertion-ordered association list; the container is a record with
    one field per class member; methods are functions in a state and
    exception monad that keeps the state reached when an exception is
    thrown, as JavaScript does.  Recursion depth of [make]/[build] and of
    [getAlias] is bounded by a fuel argument.

    [new C(...dependencies)] allocates an object on a heap and returns a
    reference to it; constructors do not throw.  Calls of user functions
    are appended to a log, so that what was called, with what and in
    which order can be stated.  A user function is handed the container:
    in general it is a computation on the state ([Program]); the
    functions that complete without touching the container ([Host]) are
    the special case most statements are about. *)

From Stdlib Require Import List String ZArith Bool Arith Lia.
From Stdlib Require Import Relations.Relation_Operators.
Import ListNotations.
Local Open Scope string_scope.
Local Open Scope list_scope.

Set Implicit Arguments.

(* ================================================================== *)
(** ** JavaScript values and identifiers *)
(* ================================================================== *)

(** User functions (factories, extenders, callbacks) are named. *)
Definition Fn := string.

(** An [Identifier] of the container is a string, a symbol (interface
    key) or a class; all of them are values, next to the primitives, plain
    functions, the closures produced by [_getClosure], objects created
    by [new] and the native Maps that the store of contextual bindings
    creates and, looked up under a partial key, hands out. *)
Inductive Value : Type :=
| VUndefined
| VNull
| VBool (b : bool)
| VNum (n : Z)
| VStr (s : string)
| VSym (description : string)
| VClass (name : string)
| VFn (f : Fn)
| VClosure (abstract concrete : Value)
| VObj (ref : nat) (constructor : Value)
| VMap (ref : nat).

(** Keys of a JS [Map] are compared with SameValueZero; on [Value] that
    is decidable equality. *)
Class JsKey (K : Type) := key_eq_dec : forall a b : K, {a = b} + {a <> b}.

Definition Value_eq_dec : forall a b : Value, {a = b} + {a <> b}.
Proof.
  decide equality;
    solve [ apply string_dec | apply Z.eq_dec | apply Nat.eq_dec
          | apply bool_dec ].
Defined.

#[export] Instance JsKey_Value : JsKey Value := Value_eq_dec.
#[export] Instance JsKey_string : JsKey string := string_dec.
#[export] Instance JsKey_pair (A B : Type) `{JsKey A} `{JsKey B}
  : JsKey (A * B).
Proof.
  intros [a1 b1] [a2 b2].
  destruct (key_eq_dec a1 a2) as [Ha | Ha];
    [ destruct (key_eq_dec b1 b2) as [Hb | Hb] | ].
  - left. congruence.
  - right. congruence.
  - right. congruence.
Defined.

(** Modelled from the spec: the functions of [Support/helpers] that the
    container imports are not among the sources; they are given here by
    what their callers rely on.  [equals] is identity of identifiers. *)
Definition equals (a b : Value) : bool :=
  if Value_eq_dec a b then true else false.

(** Modelled from the spec: [isUndefined] of [Support/helpers]. *)
Definition isUndefined (v : Value) : bool :=
  match v with VUndefined => true | _ => false end.

(** Modelled from the spec: [isNullOrUndefined] of [Support/helpers]. *)
Definition isNullOrUndefined (v : Value) : bool :=
  match v with VUndefined | VNull => true | _ => false end.

(** Modelled from the spec: [isInstantiable] of [Support/helpers]; an
    identifier is constructible when it is a class. *)
Definition isInstantiable (v : Value) : bool :=
  match v with VClass _ => true | _ => false end.

(** Modelled from the spec: [isClass] of [Support/helpers]. *)
Definition isClass (v : Value) : bool :=
  match v with VClass _ => true | _ => false end.

(** [v instanceof Function]. *)
Definition instanceofFunction (v : Value) : bool :=
  match v with VClass _ | VFn _ | VClosure _ _ => true | _ => false end.

(** What is an Object to JavaScript: everything but the primitives. *)
Definition isObject (v : Value) : bool :=
  match v with
  | VClass _ | VFn _ | VClosure _ _ | VObj _ _ | VMap _ => true
  | _ => false
  end.

(** JavaScript truthiness, as used by [if (concrete)] and [!!x]. *)
Definition truthy (v : Value) : bool :=
  match v with
  | VUndefined | VNull => false
  | VBool b => b
  | VNum n => negb (Z.eqb n 0)
  | VStr s => negb (String.eqb s "")
  | _ => true
  end.

(* ================================================================== *)
(** ** JS [Map]: insertion-ordered association lists *)
(* ================================================================== *)

Definition JsMap (K V : Type) := list (K * V).

Module JsMap.
Section Ops.
Context {K V : Type} `{JsKey K}.

Fixpoint get (m : JsMap K V) (k : K) : option V :=
  match m with
  | [] => None
  | (k', v) :: rest => if key_eq_dec k' k then Some v else get rest k
  end.

Definition has (m : JsMap K V) (k : K) : bool :=
  match get m k with Some _ => true | None => false end.

(** [Map.prototype.set]: an existing key keeps its place. *)
Fixpoint set (m : JsMap K V) (k : K) (v : V) : JsMap K V :=
  match m with
  | [] => [(k, v)]
  | (k', v') :: rest =>
      if key_eq_dec k' k then (k', v) :: rest
      else (k', v') :: set rest k v
  end.

Fixpoint delete (m : JsMap K V) (k : K) : JsMap K V :=
  match m with
  | [] => []
  | (k', v') :: rest =>
      if key_eq_dec k' k then delete rest k
      else (k', v') :: delete rest k
  end.
End Ops.
End JsMap.

(* ================================================================== *)
(** ** Parameter overrides, reflection data, faults *)
(* ================================================================== *)

(** The [parameters] argument of [make]: an array or a plain object. *)
Inductive Params : Type :=
| PArr (items : list Value)
| PObj (props : list (string * Value)).

(** [Arr.empty]. *)
Definition Arr_empty (p : Params) : bool :=
  match p with
  | PArr items => Nat.eqb (List.length items) 0
  | PObj props => Nat.eqb (List.length props) 0
  end.

(** [Arr.last] without callback: the last element, else [undefined]. *)
Definition Arr_last (items : list Value) : Value := last items VUndefined.

Fixpoint hasOwnProperty (props : list (string * Value)) (name : string)
  : bool :=
  match props with
  | [] => false
  | (k, _) :: rest =>
      if string_dec k name then true else hasOwnProperty rest name
  end.

Fixpoint getProperty (props : list (string * Value)) (name : string)
  : Value :=
  match props with
  | [] => VUndefined
  | (k, v) :: rest => if string_dec k name then v else getProperty rest name
  end.

(** The declared type of a parameter, as [ReflectionParameter] looks at
    it: builtin, a class, or an [Interface] carrying its key. *)
Inductive ParameterType : Type :=
| TBuiltin
| TClass (target : Value)
| TInterface (key : Value).

Record ParameterDescriptor : Type := mkDescriptor {
  name : string;
  type : ParameterType;
  value : Value;
  position : nat
}.

Record ReflectionParameter : Type := mkParameter {
  _target : Value;
  _descriptor : ParameterDescriptor
}.

(** What [build] asks of a [ReflectionClass]: whether the class can be
    instantiated and the parameters of its constructor.  The class
    itself is outside the sources shown; the [Host] supplies it. *)
Record ReflectionClass : Type := mkReflectionClass {
  rc_isInstantiable : bool;
  rc_parameters : list ReflectionParameter
}.

(** The class handed back by [ReflectionParameter.getClass]. *)
Record ParameterClass : Type := mkParameterClass {
  pc_isInterface : bool;
  pc_target : Value;
  pc_key : Value
}.

Definition getName (p : ReflectionParameter) : string :=
  name (_descriptor p).

Definition isBuiltin (p : ReflectionParameter) : bool :=
  match type (_descriptor p) with TBuiltin => true | _ => false end.

Definition getDeclaringClass (p : ReflectionParameter) : option Value :=
  if isClass (_target p) then Some (_target p) else None.

Definition getClass (p : ReflectionParameter) : option ParameterClass :=
  match type (_descriptor p) with
  | TBuiltin => None
  | TInterface key => Some (mkParameterClass true key key)
  | TClass target => Some (mkParameterClass false target target)
  end.

Definition isDefaultValueAvailable (p : ReflectionParameter) : bool :=
  negb (isNullOrUndefined (value (_descriptor p))).

Definition getDefaultValue (p : ReflectionParameter) : Value :=
  value (_descriptor p).

(** The three messages of [BindingResolutionError]. *)
Inductive Message : Type :=
| NotInstantiable (concrete : Value) (buildStack : list Value)
| UnresolvableDependency (parameter : string) (declaringClass : Value)
| CannotGetParameterType.

Inductive Fault : Type :=
| BindingResolutionError (message : Message)
| LogicError (abstract : Value)
| BindingError
| EntryNotFoundError
| TypeError
| UserError (label : string).

Definition isBindingResolutionError (e : Fault) : bool :=
  match e with BindingResolutionError _ => true | _ => false end.

(** A call of a user function, with the arguments it receives (the
    container argument is left out). *)
Inductive Call : Type :=
| CallFactory (f : Fn) (parameters : Params)
| CallPrimitive (f : Fn)
| CallExtender (f : Fn) (object : Value)
| CallResolving (f : Fn) (object : Value)
| CallRebound (f : Fn) (instance : Value).

Inductive Completion : Type :=
| Returns (v : Value)
| Throws (e : Fault).

(** The collaborators outside the container: the reflection subsystem,
    the user's functions and the user's class hierarchy
    ([host_instanceOf v c]: [c.prototype] is on the prototype chain of
    [v]; [host_arrow f]: [f] is an arrow function or a method and has
    no [prototype]).  A user function of a [Host] is called with the
    arguments recorded in its [Call] and either returns a value or
    throws; it does not act on the container it is handed. *)
Record Host : Type := mkHost {
  host_reflection : Value -> ReflectionClass;
  run : Call -> Completion;
  host_instanceOf : Value -> Value -> bool;
  host_arrow : Fn -> bool
}.

(* ================================================================== *)
(** ** Outcomes *)
(* ================================================================== *)

(** How a call ends: with a value, with a fault, or, in the model only,
    with the fuel used up. *)
Inductive Outcome (A : Type) : Type :=
| Ok (a : A)
| Throw (e : Fault)
| OutOfFuel.

Arguments Ok {A} a.
Arguments Throw {A} e.
Arguments OutOfFuel {A}.

(* ================================================================== *)
(** ** [ES5NestedMap]: a map under sequences of keys

    The class keeps a native [Map], [_map]; [set] with several keys
    creates further native Maps and stores them in one another.  These
    Maps are mutated in place through the variable [target] of the
    loops, so they live in a store and are named by reference.  A
    stored value that is not one of these Maps has no [has], [get],
    [set] or [delete] method: calling one is a [TypeError]. *)
(* ================================================================== *)

Module ES5NestedMap.

(** What a native Map holds under a key: a value, or one of the Maps
    that [set] created. *)
Inductive Cell : Type :=
| CVal (v : Value)
| CMap (r : nat).

Definition NativeMap := JsMap Value Cell.

Record Store : Type := mkStore {
  _map : NativeMap;
  created : list NativeMap
}.

Definition empty : Store := mkStore [] [].

Definition N (A : Type) : Type := Store -> Store * Outcome A.

Definition nret {A : Type} (a : A) : N A := fun s => (s, Ok a).

Definition nthrow {A : Type} (e : Fault) : N A := fun s => (s, Throw e).

Definition nbind {A B : Type} (m : N A) (k : A -> N B) : N B :=
  fun s =>
    match m s with
    | (s', Ok a) => k a s'
    | (s', Throw e) => (s', Throw e)
    | (s', OutOfFuel) => (s', OutOfFuel)
    end.

Notation "x <~ m ;; k" := (nbind m (fun x => k))
  (at level 61, m at next level, right associativity).

(** The [keys] argument: an array of keys, or any other value. *)
Inductive Keys : Type :=
| KeyList (keys : list Value)
| KeyOne (key : Value).

(** The character ['.']. *)
Definition dot : Ascii.ascii := Ascii.ascii_of_nat 46.

(** [s.split('.')]. *)
Fixpoint split (s : string) : list string :=
  match s with
  | EmptyString => [EmptyString]
  | String c rest =>
      if Ascii.eqb c dot then EmptyString :: split rest
      else
        match split rest with
        | part :: parts => String c part :: parts
        | [] => [String c EmptyString]
        end
  end.

(** [isString(keys) ? keys.split('.') : Arr.wrap(keys)]; [Arr.wrap]
    of [null] or [undefined] is the empty array. *)
Definition normalise (keys : Keys) : list Value :=
  match keys with
  | KeyList keys' => keys'
  | KeyOne (VStr s) => map VStr (split s)
  | KeyOne VNull => []
  | KeyOne VUndefined => []
  | KeyOne key => [key]
  end.

(** The variable [target]: the nested map itself, a Map that [set]
    created, or any other value. *)
Inductive Target : Type :=
| This
| Native (r : nat)
| Other.

Definition targetOf (c : option Cell) : Target :=
  match c with
  | Some (CMap r) => Native r
  | _ => Other
  end.

Definition native (s : Store) (r : nat) : NativeMap := nth r (created s) [].

Fixpoint replaceAt (r : nat) (m : NativeMap) (maps : list NativeMap)
  : list NativeMap :=
  match maps, r with
  | [], _ => []
  | _ :: rest, 0 => m :: rest
  | m0 :: rest, S r' => m0 :: replaceAt r' m rest
  end.

(** [new Map]. *)
Definition newMap : N nat :=
  fun s => (mkStore (_map s) (created s ++ [[]]), Ok (List.length (created s))).

(** The methods of [_map]. *)
Definition map_has (key : Value) : N bool :=
  fun s => (s, Ok (JsMap.has (_map s) key)).

Definition map_get (key : Value) : N (option Cell) :=
  fun s => (s, Ok (JsMap.get (_map s) key)).

Definition map_set (key : Value) (value : Cell) : N unit :=
  fun s => (mkStore (JsMap.set (_map s) key value) (created s), Ok tt).

Definition map_delete (key : Value) : N bool :=
  fun s =>
    (mkStore (JsMap.delete (_map s) key) (created s),
     Ok (JsMap.has (_map s) key)).

Section Loops.
(** What [this.has(key)], [this.get(key)], [this.set(key, value)] and
    [this.delete(key)] do inside a loop. *)
Variable this_has : Value -> N bool.
Variable this_get : Value -> N (option Cell).
Variable this_set : Value -> Cell -> N unit.
Variable this_delete : Value -> N bool.

Definition target_has (t : Target) (key : Value) : N bool :=
  match t with
  | This => this_has key
  | Native r => fun s => (s, Ok (JsMap.has (native s r) key))
  | Other => nthrow TypeError
  end.

Definition target_get (t : Target) (key : Value) : N (option Cell) :=
  match t with
  | This => this_get key
  | Native r => fun s => (s, Ok (JsMap.get (native s r) key))
  | Other => nthrow TypeError
  end.

Definition target_set (t : Target) (key : Value) (value : Cell) : N unit :=
  match t with
  | This => this_set key value
  | Native r =>
      fun s =>
        (mkStore (_map s)
           (replaceAt r (JsMap.set (native s r) key value) (created s)),
         Ok tt)
  | Other => nthrow TypeError
  end.

Definition target_delete (t : Target) (key : Value) : N bool :=
  match t with
  | This => this_delete key
  | Native r =>
      fun s =>
        (mkStore (_map s)
           (replaceAt r (JsMap.delete (native s r) key) (created s)),
         Ok (JsMap.has (native s r) key))
  | Other => nthrow TypeError
  end.

(** The loop of [set]. *)
Fixpoint set_loop (t : Target) (keys : list Value) (lastKey : Value)
    (value : Cell) : N unit :=
  match keys with
  | [] => nret tt
  | key :: rest =>
      if equals key lastKey then
        _ <~ target_set t key value ;;
        set_loop t rest lastKey value
      else
        known <~ target_has t key ;;
        _ <~ (if known : bool then nret tt
              else r <~ newMap ;; target_set t key (CMap r)) ;;
        next <~ target_get t key ;;
        set_loop (targetOf next) rest lastKey value
  end.

(** The loop of [get]; [None] is [undefined]. *)
Fixpoint get_loop (t : Target) (keys : list Value) (lastKey : Value)
  : N (option Cell) :=
  match keys with
  | [] => nret None
  | key :: rest =>
      known <~ target_has t key ;;
      if negb known then nret None
      else if equals key lastKey then target_get t key
      else
        next <~ target_get t key ;;
        get_loop (targetOf next) rest lastKey
  end.

(** The loop of [has]. *)
Fixpoint has_loop (t : Target) (keys : list Value) (lastKey : Value)
  : N bool :=
  match keys with
  | [] => nret false
  | key :: rest =>
      known <~ target_has t key ;;
      if negb known then nret false
      else if equals key lastKey then nret true
      else
        next <~ target_get t key ;;
        has_loop (targetOf next) rest lastKey
  end.

(** The loop of [delete]. *)
Fixpoint delete_loop (t : Target) (keys : list Value) (lastKey : Value)
  : N bool :=
  match keys with
  | [] => nret false
  | key :: rest =>
      known <~ target_has t key ;;
      if negb known then nret false
      else if equals key lastKey then target_delete t key
      else
        next <~ target_get t key ;;
        delete_loop (targetOf next) rest lastKey
  end.
End Loops.

(** The methods called on [this] with one key from inside a loop.  A
    key that is a string is split again; its parts hold no dot, so the
    calls on [this] of the inner loop go to [_map]. *)
Definition has1 (key : Value) : N bool :=
  let keys := normalise (KeyOne key) in
  if Nat.eqb (List.length keys) 1 then map_has (hd VUndefined keys)
  else has_loop map_has map_get This keys (Arr_last keys).

Definition get1 (key : Value) : N (option Cell) :=
  let keys := normalise (KeyOne key) in
  if Nat.eqb (List.length keys) 1 then map_get (hd VUndefined keys)
  else get_loop map_has map_get This keys (Arr_last keys).

Definition set1 (key : Value) (value : Cell) : N unit :=
  let keys := normalise (KeyOne key) in
  if Nat.eqb (List.length keys) 1 then map_set (hd VUndefined keys) value
  else set_loop map_has map_get map_set This keys (Arr_last keys) value.

Definition delete1 (key : Value) : N bool :=
  let keys := normalise (KeyOne key) in
  if Nat.eqb (List.length keys) 1 then map_delete (hd VUndefined keys)
  else delete_loop map_has map_get map_delete This keys (Arr_last keys).

(** The four methods. *)
Definition has (keys : Keys) : N bool :=
  let keys' := normalise keys in
  if Nat.eqb (List.length keys') 1 then map_has (hd VUndefined keys')
  else has_loop has1 get1 This keys' (Arr_last keys').

Definition get (keys : Keys) : N (option Cell) :=
  let keys' := normalise keys in
  if Nat.eqb (List.length keys') 1 then map_get (hd VUndefined keys')
  else get_loop has1 get1 This keys' (Arr_last keys').

Definition set (keys : Keys) (value : Value) : N unit :=
  let keys' := normalise keys in
  if Nat.eqb (List.length keys') 1
  then map_set (hd VUndefined keys') (CVal value)
  else set_loop has1 get1 set1 This keys' (Arr_last keys') (CVal value).

Definition delete (keys : Keys) : N bool :=
  let keys' := normalise keys in
  if Nat.eqb (List.length keys') 1 then map_delete (hd VUndefined keys')
  else delete_loop has1 get1 delete1 This keys' (Arr_last keys').

(** A key that [this.has(key)] takes as it is: neither [null] nor
    [undefined], and without a dot if it is a string. *)
Definition simpleKey (key : Value) : Prop := normalise (KeyOne key) = [key].

(** The entry under the keys [[a, b]]: what the Map stored under [a]
    holds under [b]. *)
Definition lookup (s : Store) (a b : Value) : option Cell :=
  match JsMap.get (_map s) a with
  | Some (CMap r) => JsMap.get (native s r) b
  | _ => None
  end.

(** Every Map stored in [_map] exists, and no two keys of [_map] hold
    the same Map. *)
Definition wellFormed (s : Store) : Prop :=
  (forall k r,
      JsMap.get (_map s) k = Some (CMap r) -> r < List.length (created s))
  /\ (forall k k' r,
         JsMap.get (_map s) k = Some (CMap r) ->
         JsMap.get (_map s) k' = Some (CMap r) -> k = k').

(** The key [a] of [_map] does not hold a plain value. *)
Definition branching (s : Store) (a : Value) : Prop :=
  forall x, JsMap.get (_map s) a <> Some (CVal x).

(** The store after [set([a, b], value)]. *)
Definition setPair (s : Store) (a b : Value) (value : Cell) : Store :=
  match JsMap.get (_map s) a with
  | Some (CMap r) =>
      mkStore (_map s)
        (replaceAt r (JsMap.set (native s r) b value) (created s))
  | _ =>
      mkStore (JsMap.set (_map s) a (CMap (List.length (created s))))
        (created s ++ [[(b, value)]])
  end.

(** The store after [delete([a, b])]. *)
Definition deletePair (s : Store) (a b : Value) : Store :=
  match JsMap.get (_map s) a with
  | Some (CMap r) =>
      if JsMap.has (native s r) b
      then mkStore (_map s)
             (replaceAt r (JsMap.delete (native s r) b) (created s))
      else s
  | _ => s
  end.

End ES5NestedMap.

(* ================================================================== *)
(** ** The container *)
(* ================================================================== *)

Record Binding : Type := mkBinding {
  concrete : Value;
  shared : bool
}.

(** [_contextual] is a [NestedMap], imported from [Support/NestedMap/.];
    the class of that directory is [ES5NestedMap]. *)
Record Container : Type := mkContainer {
  _contextual : ES5NestedMap.Store;
  _resolved : JsMap Value bool;
  _bindings : JsMap Value Binding;
  _methodBindings : JsMap string Fn;
  _instances : JsMap Value Value;
  _aliases : JsMap Value Value;
  _abstractAliases : JsMap Value (list Value);
  _extenders : JsMap Value (list Fn);
  _tags : JsMap string (list Value);
  _buildStack : list Value;
  _with : list Params;
  _reboundCallbacks : JsMap Value (list Fn);
  _globalResolvingCallbacks : list Fn;
  _globalAfterResolvingCallbacks : list Fn;
  _resolvingCallbacks : JsMap Value (list Fn);
  _afterResolvingCallbacks : JsMap Value (list Fn)
}.

Definition emptyContainer : Container :=
  mkContainer ES5NestedMap.empty [] [] [] [] [] [] [] [] [] [] [] [] [] [] [].

Definition set_contextual (x : ES5NestedMap.Store) (c : Container)
  : Container :=
  mkContainer x (_resolved c) (_bindings c) (_methodBindings c)
    (_instances c) (_aliases c) (_abstractAliases c) (_extenders c)
    (_tags c) (_buildStack c) (_with c) (_reboundCallbacks c)
    (_globalResolvingCallbacks c) (_globalAfterResolvingCallbacks c)
    (_resolvingCallbacks c) (_afterResolvingCallbacks c).

Definition set_resolved (x : JsMap Value bool) (c : Container) : Container :=
  mkContainer (_contextual c) x (_bindings c) (_methodBindings c)
    (_instances c) (_aliases c) (_abstractAliases c) (_extenders c)
    (_tags c) (_buildStack c) (_with c) (_reboundCallbacks c)
    (_globalResolvingCallbacks c) (_globalAfterResolvingCallbacks c)
    (_resolvingCallbacks c) (_afterResolvingCallbacks c).

Definition set_bindings (x : JsMap Value Binding) (c : Container) : Container :=
  mkContainer (_contextual c) (_resolved c) x (_methodBindings c)
    (_instances c) (_aliases c) (_abstractAliases c) (_extenders c)
    (_tags c) (_buildStack c) (_with c) (_reboundCallbacks c)
    (_globalResolvingCallbacks c) (_globalAfterResolvingCallbacks c)
    (_resolvingCallbacks c) (_afterResolvingCallbacks c).

Definition set_instances (x : JsMap Value Value) (c : Container) : Container :=
  mkContainer (_contextual c) (_resolved c) (_bindings c)
    (_methodBindings c) x (_aliases c) (_abstractAliases c) (_extenders c)
    (_tags c) (_buildStack c) (_with c) (_reboundCallbacks c)
    (_globalResolvingCallbacks c) (_globalAfterResolvingCallbacks c)
    (_resolvingCallbacks c) (_afterResolvingCallbacks c).

Definition set_aliases (x : JsMap Value Value) (c : Container) : Container :=
  mkContainer (_contextual c) (_resolved c) (_bindings c)
    (_methodBindings c) (_instances c) x (_abstractAliases c) (_extenders c)
    (_tags c) (_buildStack c) (_with c) (_reboundCallbacks c)
    (_globalResolvingCallbacks c) (_globalAfterResolvingCallbacks c)
    (_resolvingCallbacks c) (_afterResolvingCallbacks c).

Definition set_abstractAliases (x : JsMap Value (list Value)) (c : Container) : Container :=
  mkContainer (_contextual c) (_resolved c) (_bindings c)
    (_methodBindings c) (_instances c) (_aliases c) x (_extenders c)
    (_tags c) (_buildStack c) (_with c) (_reboundCallbacks c)
    (_globalResolvingCallbacks c) (_globalAfterResolvingCallbacks c)
    (_resolvingCallbacks c) (_afterResolvingCallbacks c).

Definition set_extenders (x : JsMap Value (list Fn)) (c : Container) : Container :=
  mkContainer (_contextual c) (_resolved c) (_bindings c)
    (_methodBindings c) (_instances c) (_aliases c) (_abstractAliases c) x
    (_tags c) (_buildStack c) (_with c) (_reboundCallbacks c)
    (_globalResolvingCallbacks c) (_globalAfterResolvingCallbacks c)
    (_resolvingCallbacks c) (_afterResolvingCallbacks c).

Definition set_tags (x : JsMap string (list Value)) (c : Container) : Container :=
  mkContainer (_contextual c) (_resolved c) (_bindings c)
    (_methodBindings c) (_instances c) (_aliases c) (_abstractAliases c)
    (_extenders c) x (_buildStack c) (_with c) (_reboundCallbacks c)
    (_globalResolvingCallbacks c) (_globalAfterResolvingCallbacks c)
    (_resolvingCallbacks c) (_afterResolvingCallbacks c).

Definition set_buildStack (x : list Value) (c : Container) : Container :=
  mkContainer (_contextual c) (_resolved c) (_bindings c)
    (_methodBindings c) (_instances c) (_aliases c) (_abstractAliases c)
    (_extenders c) (_tags c) x (_with c) (_reboundCallbacks c)
    (_globalResolvingCallbacks c) (_globalAfterResolvingCallbacks c)
    (_resolvingCallbacks c) (_afterResolvingCallbacks c).

Definition set_with (x : list Params) (c : Container) : Container :=
  mkContainer (_contextual c) (_resolved c) (_bindings c)
    (_methodBindings c) (_instances c) (_aliases c) (_abstractAliases c)
    (_extenders c) (_tags c) (_buildStack c) x (_reboundCallbacks c)
    (_globalResolvingCallbacks c) (_globalAfterResolvingCallbacks c)
    (_resolvingCallbacks c) (_afterResolvingCallbacks c).

Definition set_reboundCallbacks (x : JsMap Value (list Fn)) (c : Container) : Container :=
  mkContainer (_contextual c) (_resolved c) (_bindings c)
    (_methodBindings c) (_instances c) (_aliases c) (_abstractAliases c)
    (_extenders c) (_tags c) (_buildStack c) (_with c) x
    (_globalResolvingCallbacks c) (_globalAfterResolvingCallbacks c)
    (_resolvingCallbacks c) (_afterResolvingCallbacks c).
(* ================================================================== *)
(** ** The world: container, object heap and the log of user calls *)
(* ================================================================== *)

(** An object created by [new]: its constructor and the arguments. *)
Record Obj : Type := mkObj {
  obj_constructor : Value;
  obj_args : list Value
}.

(** The state the methods run in.  [heap] records every [new] of the
    container (the reference of an object is its index); [calls] records
    every call of a user function, oldest first. *)
Record World : Type := mkWorld {
  container : Container;
  heap : list Obj;
  calls : list Call
}.

Definition emptyWorld : World := mkWorld emptyContainer [] [].

(** State and exceptions; a thrown fault keeps the state reached. *)
Definition M (A : Type) : Type := World -> World * Outcome A.

Definition ret {A : Type} (a : A) : M A := fun w => (w, Ok a).

Definition throw {A : Type} (e : Fault) : M A := fun w => (w, Throw e).

Definition outOfFuel {A : Type} : M A := fun w => (w, OutOfFuel).

Definition mbind {A B : Type} (m : M A) (k : A -> M B) : M B :=
  fun w =>
    match m w with
    | (w', Ok a) => k a w'
    | (w', Throw e) => (w', Throw e)
    | (w', OutOfFuel) => (w', OutOfFuel)
    end.

(** [try { m } catch (e) { handler e }]. *)
Definition tryCatch {A : Type} (m : M A) (handler : Fault -> M A) : M A :=
  fun w =>
    match m w with
    | (w', Throw e) => handler e w'
    | r => r
    end.

Definition gets {A : Type} (f : Container -> A) : M A :=
  fun w => (w, Ok (f (container w))).

Definition modify (f : Container -> Container) : M unit :=
  fun w => (mkWorld (f (container w)) (heap w) (calls w), Ok tt).

Notation "x <- m ;; k" := (mbind m (fun x => k))
  (at level 61, m at next level, right associativity).
Notation "m ;; k" := (mbind m (fun _ => k))
  (at level 61, right associativity).

(** User code in general.  A function that is called is handed the
    container and may act on it -- resolve from it, register with it,
    catch what it throws -- before it returns or throws itself: it is a
    computation on the state.  [reflectionClass], [instanceOf] and
    [arrow] are as for a [Host]. *)
Record Program : Type := mkProgram {
  reflectionClass : Value -> ReflectionClass;
  perform : Call -> M Value;
  instanceOf : Value -> Value -> bool;
  arrow : Fn -> bool
}.

Definition completion (c : Completion) : M Value :=
  match c with
  | Returns v => ret v
  | Throws e => throw e
  end.

(** The user code of a [Host]: every function completes as [run] says
    and leaves the state as it is. *)
Definition hosted (H : Host) : Program :=
  mkProgram (host_reflection H) (fun c => completion (run H c))
    (host_instanceOf H) (host_arrow H).

Coercion hosted : Host >-> Program.

(** Calling a user function: the call is logged, then the function
    runs. *)
Definition invoke (H : Program) (c : Call) : M Value :=
  fun w => perform H c (mkWorld (container w) (heap w) (calls w ++ [c])).

(** [new constructor(...args)]. *)
Definition new (constructor : Value) (args : list Value) : M Value :=
  fun w =>
    (mkWorld (container w) (heap w ++ [mkObj constructor args]) (calls w),
     Ok (VObj (List.length (heap w)) constructor)).

(** [for (const x of items) body x]. *)
Fixpoint forEach {A : Type} (items : list A) (body : A -> M unit)
  : M unit :=
  match items with
  | [] => ret tt
  | x :: rest => body x ;; forEach rest body
  end.

(** [object instanceof type], [None] standing for the [TypeError]: a
    right-hand side that is not callable throws; for a callable one, a
    primitive on the left is no instance, and otherwise the [prototype]
    of the right-hand side is looked for on the prototype chain of the
    object, which throws when there is no such [prototype] -- as for an
    arrow function, and so for the closures of [_getClosure]. *)
Definition instanceof (H : Program) (object type : Value) : option bool :=
  match type with
  | VClass _ => Some (isObject object && instanceOf H object type)
  | VFn f =>
      if negb (isObject object) then Some false
      else if arrow H f then None
      else Some (instanceOf H object type)
  | VClosure _ _ => if isObject object then None else Some false
  | _ => None
  end.

Definition js_instanceof (H : Program) (object type : Value) : M bool :=
  match instanceof H object type with
  | Some b => ret b
  | None => throw TypeError
  end.

(* ================================================================== *)
(** ** Queries on the registries *)
(* ================================================================== *)

Definition isAlias (c : Container) (name : Value) : bool :=
  JsMap.has (_aliases c) name.

Definition bound (c : Container) (abstract : Value) : bool :=
  JsMap.has (_bindings c) abstract || JsMap.has (_instances c) abstract
  || isAlias c abstract.

Definition has (c : Container) (id : Value) : bool := bound c id.

Definition isShared (c : Container) (abstract : Value) : bool :=
  JsMap.has (_instances c) abstract
  || match JsMap.get (_bindings c) abstract with
     | Some b => shared b
     | None => false
     end.

(** [getAlias]: follow the alias chain; an identifier aliased to itself
    is a [LogicError]. *)
Fixpoint getAlias (fuel : nat) (c : Container) (abstract : Value)
  : Outcome Value :=
  match fuel with
  | 0 => OutOfFuel
  | S n =>
      match JsMap.get (_aliases c) abstract with
      | None => Ok abstract
      | Some target =>
          if equals target abstract then Throw (LogicError abstract)
          else getAlias n c target
      end
  end.

Definition getAliasM (fuel : nat) (abstract : Value) : M Value :=
  fun w => (w, getAlias fuel (container w) abstract).

Definition resolved (fuel : nat) (abstract : Value) : M bool :=
  alias <- gets (fun c => isAlias c abstract) ;;
  abstract' <- (if alias : bool then getAliasM fuel abstract
                else ret abstract) ;;
  gets (fun c => JsMap.has (_resolved c) abstract'
                 || JsMap.has (_instances c) abstract').

Definition obind {A B : Type} (o : Outcome A) (k : A -> Outcome B)
  : Outcome B :=
  match o with
  | Ok a => k a
  | Throw e => Throw e
  | OutOfFuel => OutOfFuel
  end.

(** A query of the container that may throw, run in the state. *)
Definition reading {A : Type} (query : Container -> Outcome A) : M A :=
  fun w => (w, query (container w)).

(** A method of the nested map, run on [_contextual]. *)
Definition contextually {A : Type} (method : ES5NestedMap.N A) : M A :=
  fun w =>
    (mkWorld
       (set_contextual (fst (method (_contextual (container w))))
          (container w))
       (heap w) (calls w),
     snd (method (_contextual (container w)))).

(** What [has] and [get] of the nested map answer; they only read the
    store. *)
Definition reads {A : Type} (method : ES5NestedMap.N A)
    (s : ES5NestedMap.Store) : Outcome A :=
  snd (method s).

(** The value a lookup hands out: what is stored under the keys, the
    Map itself where the keys end at one, [undefined] where there is
    nothing. *)
Definition cellValue (cell : option ES5NestedMap.Cell) : Value :=
  match cell with
  | Some (ES5NestedMap.CVal v) => v
  | Some (ES5NestedMap.CMap r) => VMap r
  | None => VUndefined
  end.

(** The keys of a lookup: what is being built, then the abstract. *)
Definition contextualKeys (c : Container) (abstract : Value)
  : ES5NestedMap.Keys :=
  ES5NestedMap.KeyList [Arr_last (_buildStack c); abstract].

Definition _findInContextualBindings (c : Container) (abstract : Value)
  : Outcome Value :=
  obind (reads (ES5NestedMap.has (contextualKeys c abstract))
           (_contextual c))
    (fun found =>
       if found : bool
       then obind (reads (ES5NestedMap.get (contextualKeys c abstract))
                     (_contextual c))
              (fun cell => Ok (cellValue cell))
       else Ok VUndefined).

(** The [for] loop of [_getContextualConcrete]: the first alias with a
    contextual binding wins. *)
Fixpoint firstContextual (c : Container) (aliases : list Value)
  : Outcome Value :=
  match aliases with
  | [] => Ok VUndefined
  | alias :: rest =>
      obind (_findInContextualBindings c alias)
        (fun binding =>
           if negb (isUndefined binding) then Ok binding
           else firstContextual c rest)
  end.

Definition _getContextualConcrete (c : Container) (abstract : Value)
  : Outcome Value :=
  obind (_findInContextualBindings c abstract)
    (fun binding =>
       if negb (isUndefined binding) then Ok binding
       else
         match JsMap.get (_abstractAliases c) abstract with
         | None => Ok VUndefined
         | Some aliases => firstContextual c aliases
         end).

Definition _getConcrete (c : Container) (abstract : Value)
  : Outcome Value :=
  obind (_getContextualConcrete c abstract)
    (fun concrete' =>
       Ok (if negb (isUndefined concrete') then concrete'
           else
             match JsMap.get (_bindings c) abstract with
             | Some b => concrete b
             | None => abstract
             end)).

Definition _isBuildable (concrete' abstract : Value) : bool :=
  equals concrete' abstract
  || (negb (isInstantiable concrete') && instanceofFunction concrete').

Definition _getLastParameterOverride (c : Container) : Params :=
  last (_with c) (PArr []).

Definition _hasParameterOverride (c : Container)
    (dependency : ReflectionParameter) : bool :=
  match _getLastParameterOverride c with
  | PArr _ => false
  | PObj props => hasOwnProperty props (getName dependency)
  end.

Definition _getParameterOverride (c : Container)
    (dependency : ReflectionParameter) : Value :=
  match _getLastParameterOverride c with
  | PArr _ => VUndefined
  | PObj props => getProperty props (getName dependency)
  end.

Definition _getReboundCallbacks (c : Container) (abstract : Value)
  : list Fn :=
  match JsMap.get (_reboundCallbacks c) abstract with
  | Some callbacks => callbacks
  | None => []
  end.

Definition _getExtenders (fuel : nat) (abstract : Value) : M (list Fn) :=
  abstract' <- getAliasM fuel abstract ;;
  gets (fun c => match JsMap.get (_extenders c) abstract' with
                 | Some extenders => extenders
                 | None => []
                 end).

Definition _getClosure (abstract concrete' : Value) : Value :=
  VClosure abstract concrete'.

Definition _dropStaleInstances (abstract : Value) (c : Container)
  : Container :=
  set_aliases (JsMap.delete (_aliases c) abstract)
    (set_instances (JsMap.delete (_instances c) abstract) c).

(* ================================================================== *)
(** ** Faults raised by the engine *)
(* ================================================================== *)

Definition _notInstantiable {A : Type} (concrete' : Value) : M A :=
  trail <- gets _buildStack ;;
  throw (BindingResolutionError (NotInstantiable concrete' trail)).

(** The message reads the name of the declaring class; without one the
    property access fails. *)
Definition _unresolvablePrimitive {A : Type}
    (parameter : ReflectionParameter) : M A :=
  match getDeclaringClass parameter with
  | Some declaring =>
      throw (BindingResolutionError
               (UnresolvableDependency (getName parameter) declaring))
  | None => throw TypeError
  end.

(* ================================================================== *)
(** ** Lifecycle callbacks *)
(* ================================================================== *)

Definition _fireCallbackArray (H : Program) (object : Value)
    (callbacks : list Fn) : M unit :=
  forEach callbacks (fun callback =>
    invoke H (CallResolving callback object) ;; ret tt).

(** One round of [Map.forEach] over a map of per-type callbacks. *)
Definition fireForType (H : Program) (abstract object : Value)
    (registry : JsMap Value (list Fn)) : M unit :=
  forEach registry (fun entry =>
    matches <- (if equals (fst entry) abstract then ret true
                else js_instanceof H object (fst entry)) ;;
    if matches : bool then _fireCallbackArray H object (snd entry)
    else ret tt).

Definition _fireAfterResolvingCallbacks (H : Program) (abstract object : Value)
  : M unit :=
  globals <- gets _globalAfterResolvingCallbacks ;;
  (if Nat.eqb (List.length globals) 0 then ret tt
   else _fireCallbackArray H object globals) ;;
  registry <- gets _afterResolvingCallbacks ;;
  fireForType H abstract object registry.

Definition _fireResolvingCallbacks (H : Program) (abstract object : Value)
  : M unit :=
  globals <- gets _globalResolvingCallbacks ;;
  (if Nat.eqb (List.length globals) 0 then ret tt
   else _fireCallbackArray H object globals) ;;
  registry <- gets _resolvingCallbacks ;;
  fireForType H abstract object registry ;;
  _fireAfterResolvingCallbacks H abstract object.

(* ================================================================== *)
(** ** The resolution engine

    The bodies of the methods are written over the two entry points they
    call back into, [make] and [build]; the knot is tied by fuel. *)
(* ================================================================== *)

(** Calling a function value [f] found in a registry: a user function is
    invoked; the closure of [_getClosure] builds its concrete when it is
    bound to itself and makes it otherwise; a class cannot be called. *)
Definition callFunction (H : Program)
    (make : Value -> Params -> M Value) (build : Value -> M Value)
    (f : Value) (call : Fn -> Call) (parameters : Params) : M Value :=
  match f with
  | VFn g => invoke H (call g)
  | VClosure abstract concrete' =>
      if equals abstract concrete' then build concrete'
      else make concrete' parameters
  | _ => throw TypeError
  end.

Definition _resolvePrimitive (H : Program)
    (make : Value -> Params -> M Value) (build : Value -> M Value)
    (parameter : ReflectionParameter) : M Value :=
  concrete' <- reading (fun c =>
                 _getContextualConcrete c (VStr (getName parameter))) ;;
  if truthy concrete' then
    if instanceofFunction concrete'
    then callFunction H make build concrete' CallPrimitive (PObj [])
    else ret concrete'
  else if isDefaultValueAvailable parameter
  then ret (getDefaultValue parameter)
  else _unresolvablePrimitive parameter.

Definition _resolveClass (make : Value -> Params -> M Value)
    (parameter : ReflectionParameter) : M Value :=
  match getClass parameter with
  | None => throw (BindingResolutionError CannotGetParameterType)
  | Some reflector =>
      tryCatch
        (make (if pc_isInterface reflector then pc_key reflector
               else pc_target reflector) (PArr []))
        (fun e =>
           if isBindingResolutionError e
              && isDefaultValueAvailable parameter
           then ret (getDefaultValue parameter)
           else throw e)
  end.

Fixpoint _resolveDependencies (H : Program)
    (make : Value -> Params -> M Value) (build : Value -> M Value)
    (dependencies : list ReflectionParameter) : M (list Value) :=
  match dependencies with
  | [] => ret []
  | dependency :: rest =>
      override <- gets (fun c => _hasParameterOverride c dependency) ;;
      result <- (if override : bool
                 then gets (fun c => _getParameterOverride c dependency)
                 else if isBuiltin dependency
                 then _resolvePrimitive H make build dependency
                 else _resolveClass make dependency) ;;
      results <- _resolveDependencies H make build rest ;;
      ret (result :: results)
  end.

Definition build_step (H : Program)
    (make : Value -> Params -> M Value) (build : Value -> M Value)
    (concrete' : Value) : M Value :=
  if negb (isInstantiable concrete') && instanceofFunction concrete' then
    parameters <- gets _getLastParameterOverride ;;
    callFunction H make build concrete'
      (fun g => CallFactory g parameters) parameters
  else
    let reflector := reflectionClass H concrete' in
    (if negb (rc_isInstantiable reflector)
     then _notInstantiable concrete' else ret tt) ;;
    modify (fun c => set_buildStack (_buildStack c ++ [concrete']) c) ;;
    let dependencies := rc_parameters reflector in
    if Nat.eqb (List.length dependencies) 0 then
      modify (fun c => set_buildStack (removelast (_buildStack c)) c) ;;
      new concrete' []
    else
      instances <- _resolveDependencies H make build dependencies ;;
      modify (fun c => set_buildStack (removelast (_buildStack c)) c) ;;
      new concrete' instances.

(** The loop over the extenders threads the object through them. *)
Fixpoint applyExtenders (H : Program) (extenders : list Fn) (object : Value)
  : M Value :=
  match extenders with
  | [] => ret object
  | extender :: rest =>
      object' <- invoke H (CallExtender extender object) ;;
      applyExtenders H rest object'
  end.

(** What [_resolve] does once the singleton fast path is not taken. *)
Definition resolveFresh (H : Program) (fuel : nat)
    (make : Value -> Params -> M Value) (build : Value -> M Value)
    (abstract : Value) (parameters : Params) (needsContextualBuild : bool)
  : M Value :=
  modify (fun c => set_with (_with c ++ [parameters]) c) ;;
  concrete' <- reading (fun c => _getConcrete c abstract) ;;
  object <- (if _isBuildable concrete' abstract
             then build concrete'
             else make concrete' (PArr [])) ;;
  extenders <- _getExtenders fuel abstract ;;
  object <- applyExtenders H extenders object ;;
  isShared' <- gets (fun c => isShared c abstract) ;;
  (if isShared' && negb needsContextualBuild
   then modify (fun c =>
          set_instances (JsMap.set (_instances c) abstract object) c)
   else ret tt) ;;
  _fireResolvingCallbacks H abstract object ;;
  modify (fun c =>
    set_resolved (JsMap.set (_resolved c) abstract true) c) ;;
  modify (fun c => set_with (removelast (_with c)) c) ;;
  ret object.

Definition _resolve_step (H : Program) (fuel : nat)
    (make : Value -> Params -> M Value) (build : Value -> M Value)
    (abstract0 : Value) (parameters : Params) : M Value :=
  abstract <- getAliasM fuel abstract0 ;;
  contextual <- reading (fun c => _getContextualConcrete c abstract) ;;
  let needsContextualBuild :=
    negb (Arr_empty parameters) || truthy contextual in
  cached <- gets (fun c => JsMap.get (_instances c) abstract) ;;
  match cached with
  | Some instance =>
      if negb needsContextualBuild then ret instance
      else resolveFresh H fuel make build abstract parameters
             needsContextualBuild
  | None =>
      resolveFresh H fuel make build abstract parameters
        needsContextualBuild
  end.

(** [_resolve] and [build]; one unit of fuel per nested call. *)
Fixpoint _resolve (H : Program) (fuel : nat) (abstract : Value)
    (parameters : Params) {struct fuel} : M Value :=
  match fuel with
  | 0 => outOfFuel
  | S n =>
      _resolve_step H (S n) (_resolve H n) (build H n) abstract parameters
  end
with build (H : Program) (fuel : nat) (concrete' : Value) {struct fuel}
  : M Value :=
  match fuel with
  | 0 => outOfFuel
  | S n => build_step H (_resolve H n) (build H n) concrete'
  end.

Definition make (H : Program) (fuel : nat) (abstract : Value)
    (parameters : Params) : M Value :=
  _resolve H fuel abstract parameters.

(* ================================================================== *)
(** ** Registration API *)
(* ================================================================== *)

Definition _rebound (H : Program) (fuel : nat) (abstract : Value) : M unit :=
  instance <- make H fuel abstract (PArr []) ;;
  callbacks <- gets (fun c => _getReboundCallbacks c abstract) ;;
  forEach callbacks (fun callback =>
    invoke H (CallRebound callback instance) ;; ret tt).

(** The record [bind] stores: a class is wrapped in its closure. *)
Definition bindingFor (abstract concrete' : Value) (shared' : bool)
  : Binding :=
  mkBinding
    (if isInstantiable concrete' then _getClosure abstract concrete'
     else concrete')
    shared'.

(** [bind(abstract, concrete, shared)]; an omitted [concrete] is
    [undefined]. *)
Definition bind (H : Program) (fuel : nat) (abstract concrete' : Value)
    (shared' : bool) : M unit :=
  modify (_dropStaleInstances abstract) ;;
  concrete1 <- (if isNullOrUndefined concrete' && isInstantiable abstract
                then ret abstract
                else if isNullOrUndefined concrete'
                then throw BindingError
                else ret concrete') ;;
  modify (fun c =>
    set_bindings
      (JsMap.set (_bindings c) abstract
         (bindingFor abstract concrete1 shared')) c) ;;
  wasResolved <- resolved fuel abstract ;;
  if wasResolved : bool then _rebound H fuel abstract else ret tt.

Definition unbind (abstract : Value) : M unit :=
  modify (fun c => set_bindings (JsMap.delete (_bindings c) abstract) c) ;;
  modify (fun c => set_instances (JsMap.delete (_instances c) abstract) c) ;;
  modify (fun c => set_resolved (JsMap.delete (_resolved c) abstract) c).

Definition bindIf (H : Program) (fuel : nat) (abstract concrete' : Value)
    (shared' : bool) : M unit :=
  isBound <- gets (fun c => bound c abstract) ;;
  if isBound : bool then ret tt else bind H fuel abstract concrete' shared'.

Definition singleton (H : Program) (fuel : nat) (abstract concrete' : Value)
  : M unit :=
  bind H fuel abstract concrete' true.

Definition addContextualBinding (fuel : nat)
    (concrete' abstract implementation : Value) : M unit :=
  abstract' <- getAliasM fuel abstract ;;
  contextually
    (ES5NestedMap.set (ES5NestedMap.KeyList [concrete'; abstract'])
       implementation).

(** [alias(abstract, alias)] of the container. *)
Definition alias (abstract alias' : Value) : M unit :=
  modify (fun c => set_aliases (JsMap.set (_aliases c) alias' abstract) c) ;;
  modify (fun c =>
    set_abstractAliases
      (JsMap.set (_abstractAliases c) abstract
         match JsMap.get (_abstractAliases c) abstract with
         | Some arr => arr ++ [alias']
         | None => [alias']
         end) c).

Definition _removeAbstractAlias (searched : Value) (c : Container)
  : Container :=
  if negb (JsMap.has (_aliases c) searched) then c
  else
    set_abstractAliases
      (map (fun entry =>
              (fst entry,
               filter (fun alias' => negb (equals alias' searched))
                      (snd entry)))
           (_abstractAliases c)) c.

Definition instance (H : Program) (fuel : nat) (abstract instance' : Value)
  : M Value :=
  modify (_removeAbstractAlias abstract) ;;
  isBound <- gets (fun c => bound c abstract) ;;
  modify (fun c => set_aliases (JsMap.delete (_aliases c) abstract) c) ;;
  modify (fun c =>
    set_instances (JsMap.set (_instances c) abstract instance') c) ;;
  (if isBound : bool then _rebound H fuel abstract else ret tt) ;;
  ret instance'.

Definition extend (H : Program) (fuel : nat) (abstract : Value) (closure : Fn)
  : M unit :=
  abstract' <- getAliasM fuel abstract ;;
  cached <- gets (fun c => JsMap.get (_instances c) abstract') ;;
  match cached with
  | Some instance' =>
      extended <- invoke H (CallExtender closure instance') ;;
      modify (fun c =>
        set_instances (JsMap.set (_instances c) abstract' extended) c) ;;
      _rebound H fuel abstract'
  | None =>
      modify (fun c =>
        set_extenders
          (JsMap.set (_extenders c) abstract'
             match JsMap.get (_extenders c) abstract' with
             | Some extenders => extenders ++ [closure]
             | None => [closure]
             end) c) ;;
      wasResolved <- resolved fuel abstract' ;;
      if wasResolved : bool then _rebound H fuel abstract' else ret tt
  end.

Definition rebinding (H : Program) (fuel : nat) (abstract : Value)
    (callback : Fn) : M Value :=
  abstract' <- getAliasM fuel abstract ;;
  modify (fun c =>
    set_reboundCallbacks
      (JsMap.set (_reboundCallbacks c) abstract'
         match JsMap.get (_reboundCallbacks c) abstract' with
         | Some callbacks => callbacks ++ [callback]
         | None => [callback]
         end) c) ;;
  isBound <- gets (fun c => bound c abstract') ;;
  if isBound : bool then make H fuel abstract' (PArr [])
  else ret VUndefined.

(** The members registered under a tag. *)
Definition membersOf (c : Container) (tag' : string) : list Value :=
  match JsMap.get (_tags c) tag' with
  | Some members => members
  | None => []
  end.

(** [tag(abstracts, tags)], [abstracts] already wrapped in an array: the
    body of the loop over [tags]. *)
Definition tagOne (abstracts : list Value) (c : Container) (tag' : string)
  : Container :=
  let c1 := if JsMap.has (_tags c) tag' then c
            else set_tags (JsMap.set (_tags c) tag' []) c in
  fold_left
    (fun c' abstract =>
       set_tags
         (JsMap.set (_tags c') tag' (membersOf c' tag' ++ [abstract])) c')
    abstracts c1.

Definition tag (abstracts : list Value) (tags : list string) : M unit :=
  modify (fun c => fold_left (tagOne abstracts) tags c).

(** The loop of [tagged]: [results.push(this.make(abstract))]. *)
Fixpoint makeAll (H : Program) (fuel : nat) (abstracts : list Value)
  : M (list Value) :=
  match abstracts with
  | [] => ret []
  | abstract :: rest =>
      result <- make H fuel abstract (PArr []) ;;
      results <- makeAll H fuel rest ;;
      ret (result :: results)
  end.

Definition tagged (H : Program) (fuel : nat) (tag' : string)
  : M (list Value) :=
  members <- gets (fun c => JsMap.get (_tags c) tag') ;;
  match members with
  | Some abstracts => makeAll H fuel abstracts
  | None => ret []
  end.

(** [get(id)] of the PSR interface. *)
Definition get (H : Program) (fuel : nat) (id : Value) : M Value :=
  tryCatch (_resolve H fuel id (PArr []))
    (fun e =>
       known <- gets (fun c => has c id) ;;
       if known : bool then throw e else throw EntryNotFoundError).

Definition forgetInstance (abstract : Value) : M unit :=
  modify (fun c => set_instances (JsMap.delete (_instances c) abstract) c).

Definition forgetInstances : M unit :=
  modify (set_instances []).

Definition flush : M unit :=
  modify (fun c =>
    set_abstractAliases []
      (set_instances [] (set_bindings [] (set_resolved []
         (set_aliases [] c))))).

(* ================================================================== *)
(** ** The stand-alone alias registry ([Aliaser.ts]) *)
(* ================================================================== *)

Module Aliaser.

Record Aliaser : Type := mkAliaser {
  _aliases : JsMap Value Value;
  _abstractAliases : JsMap Value (list Value)
}.

Definition isAlias (a : Aliaser) (name : Value) : bool :=
  JsMap.has (_aliases a) name.

(** [alias(abstract, alias)]: the state, and the fault if any. *)
Definition alias (abstract alias' : Value) (a : Aliaser)
  : Aliaser * Outcome unit :=
  if equals alias' abstract then (a, Throw (LogicError abstract))
  else
    (mkAliaser
       (JsMap.set (_aliases a) alias' abstract)
       (JsMap.set (_abstractAliases a) abstract
          match JsMap.get (_abstractAliases a) abstract with
          | Some arr => arr ++ [alias']
          | None => [alias']
          end),
     Ok tt).

Fixpoint getAlias (fuel : nat) (a : Aliaser) (abstract : Value)
  : Outcome Value :=
  match fuel with
  | 0 => OutOfFuel
  | S n =>
      match JsMap.get (_aliases a) abstract with
      | None => Ok abstract
      | Some target => getAlias n a target
      end
  end.

Definition forgetAlias (abstract : Value) (a : Aliaser) : Aliaser :=
  mkAliaser (JsMap.delete (_aliases a) abstract) (_abstractAliases a).

Definition forgetAliases (a : Aliaser) : Aliaser :=
  mkAliaser [] (_abstractAliases a).

Definition forgetAbstractAliases (a : Aliaser) : Aliaser :=
  mkAliaser (_aliases a) [].

Definition removeAbstractAlias (searched : Value) (a : Aliaser)
  : Aliaser :=
  if negb (JsMap.has (_aliases a) searched) then a
  else
    mkAliaser (_aliases a)
      (map (fun entry =>
              (fst entry,
               filter (fun alias' => negb (equals alias' searched))
                      (snd entry)))
           (_abstractAliases a)).

Definition hasAbstractAlias (a : Aliaser) (abstract : Value) : bool :=
  JsMap.has (_abstractAliases a) abstract.

Definition getAbstractAlias (a : Aliaser) (abstract : Value)
  : option (list Value) :=
  JsMap.get (_abstractAliases a) abstract.

Definition empty : Aliaser := mkAliaser [] [].

End Aliaser.

(* ================================================================== *)
(** ** Vocabulary of the specifications *)
(* ================================================================== *)

(** The state updates of the engine, named. *)
Definition pushWith (parameters : Params) (w : World) : World :=
  mkWorld (set_with (_with (container w) ++ [parameters]) (container w))
    (heap w) (calls w).

Definition popWith (w : World) : World :=
  mkWorld (set_with (removelast (_with (container w))) (container w))
    (heap w) (calls w).

Definition pushBuild (concrete' : Value) (w : World) : World :=
  mkWorld
    (set_buildStack (_buildStack (container w) ++ [concrete']) (container w))
    (heap w) (calls w).

Definition popBuild (w : World) : World :=
  mkWorld
    (set_buildStack (removelast (_buildStack (container w))) (container w))
    (heap w) (calls w).

Definition setInstance (abstract object : Value) (w : World) : World :=
  mkWorld
    (set_instances (JsMap.set (_instances (container w)) abstract object)
       (container w))
    (heap w) (calls w).

Definition markResolved (abstract : Value) (w : World) : World :=
  mkWorld
    (set_resolved (JsMap.set (_resolved (container w)) abstract true)
       (container w))
    (heap w) (calls w).

Definition logCall (c : Call) (w : World) : World :=
  mkWorld (container w) (heap w) (calls w ++ [c]).

Definition allocate (o : Obj) (w : World) : World :=
  mkWorld (container w) (heap w ++ [o]) (calls w).

(** [hoare P m Q X]: from a state in [P], [m] ends in [Q] when it
    returns and in [X] when it throws or runs out of fuel. *)
Definition hoare (A : Type) (P : World -> Prop) (m : M A)
    (Q : A -> World -> Prop) (X : World -> Prop) : Prop :=
  forall w, P w ->
    match m w with
    | (w', Ok a) => Q a w'
    | (w', _) => X w'
    end.

(** [obeys R E m]: [m] relates the state it starts in to the state it
    ends in by [R] when it returns, by [E] otherwise. *)
Definition obeys (A : Type) (R E : World -> World -> Prop) (m : M A)
  : Prop :=
  forall w,
    match m w with
    | (w', Ok _) => R w w'
    | (w', _) => E w w'
    end.

(** The registries that resolution never writes. *)
Definition sameRegistries (c c' : Container) : Prop :=
  _contextual c' = _contextual c
  /\ _bindings c' = _bindings c
  /\ _methodBindings c' = _methodBindings c
  /\ _aliases c' = _aliases c
  /\ _abstractAliases c' = _abstractAliases c
  /\ _extenders c' = _extenders c
  /\ _tags c' = _tags c
  /\ _reboundCallbacks c' = _reboundCallbacks c
  /\ _globalResolvingCallbacks c' = _globalResolvingCallbacks c
  /\ _globalAfterResolvingCallbacks c' = _globalAfterResolvingCallbacks c
  /\ _resolvingCallbacks c' = _resolvingCallbacks c
  /\ _afterResolvingCallbacks c' = _afterResolvingCallbacks c.

(** A resolution keeps the registries and only adds to the heap and to
    the log of calls. *)
Definition evolves (w w' : World) : Prop :=
  sameRegistries (container w) (container w')
  /\ (exists objs, heap w' = heap w ++ objs)
  /\ (exists cs, calls w' = calls w ++ cs).

(** Both stacks of [w'] start with the stacks of [w]. *)
Definition extends (w w' : World) : Prop :=
  (exists frames, _with (container w') = _with (container w) ++ frames)
  /\ (exists concretes,
         _buildStack (container w')
         = _buildStack (container w) ++ concretes).

Definition sameStacks (w w' : World) : Prop :=
  _with (container w') = _with (container w)
  /\ _buildStack (container w') = _buildStack (container w).

Definition anyWorlds (w w' : World) : Prop := True.

(** User functions that take no frame off the stacks, however they
    end. *)
Definition usersOnlyPush (H : Program) : Prop :=
  forall c, obeys extends extends (perform H c).

(** User functions that, when they return, leave both stacks as they
    found them. *)
Definition usersRestore (H : Program) : Prop :=
  forall c, obeys sameStacks anyWorlds (perform H c).

(** Only the log of calls may differ. *)
Definition onlyCalls (w w' : World) : Prop :=
  container w' = container w /\ heap w' = heap w.

(** The cached instance of [abstract], once [v], stays [v]. *)
Definition keepsInstance (abstract v : Value) (w w' : World) : Prop :=
  JsMap.get (_instances (container w)) abstract = Some v ->
  JsMap.get (_instances (container w')) abstract = Some v.

(** No constructor parameter of class type has a default value: the
    [catch] of [_resolveClass] always rethrows. *)
Definition noClassDefault (p : ReflectionParameter) : Prop :=
  isBuiltin p = false -> isDefaultValueAvailable p = false.

Definition noClassDefaults (H : Program) : Prop :=
  forall c, Forall noClassDefault (rc_parameters (reflectionClass H c)).

(** The alias graph: an edge from each alias to what it is aliased to. *)
Definition aliasEdge (c : Container) (alias' abstract : Value) : Prop :=
  JsMap.get (_aliases c) alias' = Some abstract.

(** No identifier reaches itself along one or more alias edges. *)
Definition acyclic (c : Container) : Prop :=
  forall a, ~ clos_trans Value (aliasEdge c) a a.

(** No contextual binding applies to [abstract] or to one of its
    reverse aliases, whatever is being built: the store answers
    [has([top, x])] with false for each of them and every [top]. *)
Definition noContextualFor (c : Container) (abstract : Value) : Prop :=
  forall top x,
    x = abstract
    \/ (exists aliases,
           JsMap.get (_abstractAliases c) abstract = Some aliases
           /\ In x aliases) ->
    reads (ES5NestedMap.has (ES5NestedMap.KeyList [top; x])) (_contextual c)
    = Ok false.

(** The store as registrations for classes fill it: every key of
    [_map] is a class and holds a Map of its own. *)
Definition classAnchored (s : ES5NestedMap.Store) : Prop :=
  forall key cell,
    JsMap.get (ES5NestedMap._map s) key = Some cell ->
    isInstantiable key = true /\ exists r, cell = ES5NestedMap.CMap r.

(** A class the container knows nothing about: it is resolved by
    building it. *)
Definition plainClass (c : Container) (C : Value) : Prop :=
  isInstantiable C = true
  /\ isAlias c C = false
  /\ JsMap.get (_bindings c) C = None
  /\ JsMap.get (_extenders c) C = None
  /\ noContextualFor c C.

(** No contextual binding applies to [abstract] where the container
    stands: [_getContextualConcrete] answers [undefined], so that
    [needsContextualBuild] of [_resolve] is decided by the parameters
    alone. *)
Definition noContextualBuild (c : Container) (abstract : Value) : Prop :=
  _getContextualConcrete c abstract = Ok VUndefined.

(** A class the container builds itself where it stands: it is no
    alias and has no binding and no extender, and no contextual binding
    applies to it. *)
Definition buildsItself (c : Container) (C : Value) : Prop :=
  isInstantiable C = true
  /\ isAlias c C = false
  /\ JsMap.get (_bindings c) C = None
  /\ JsMap.get (_extenders c) C = None
  /\ noContextualBuild c C.

(** The extenders [_getExtenders] finds for a canonical identifier. *)
Definition extendersOf (c : Container) (abstract : Value) : list Fn :=
  match JsMap.get (_extenders c) abstract with
  | Some extenders => extenders
  | None => []
  end.

(** The state [bind] has reached when it looks at the resolved flag: the
    stale instance and alias dropped, the new record stored. *)
Definition storeBinding (abstract concrete' : Value) (shared' : bool)
    (w : World) : World :=
  let c := _dropStaleInstances abstract (container w) in
  mkWorld
    (set_bindings
       (JsMap.set (_bindings c) abstract
          (bindingFor abstract concrete' shared')) c)
    (heap w) (calls w).

Definition logCalls (cs : list Call) (w : World) : World :=
  mkWorld (container w) (heap w) (calls w ++ cs).

Definition clearContextual (w : World) : World :=
  mkWorld (set_contextual ES5NestedMap.empty (container w)) (heap w)
    (calls w).

Ltac same_registries :=
  unfold sameRegistries; simpl; repeat split; reflexivity.

(* ================================================================== *)
(** ** A sample application *)
(* ================================================================== *)

Definition parameterOf (owner : string) (name' : string)
    (type' : ParameterType) (default : Value) : ReflectionParameter :=
  mkParameter (VClass owner) (mkDescriptor name' type' default 0).

(** [Service(repo: Repository)], [Repository()],
    [Mailer(transport: Transport)] with [Transport] an interface, and
    [Printer(dpi: number)]. *)
Definition strictReflection (v : Value) : ReflectionClass :=
  match v with
  | VClass n =>
      if String.eqb n "Service" then
        mkReflectionClass true
          [parameterOf "Service" "repo" (TClass (VClass "Repository"))
             VUndefined]
      else if String.eqb n "Mailer" then
        mkReflectionClass true
          [parameterOf "Mailer" "transport"
             (TInterface (VSym "Transport")) VUndefined]
      else if String.eqb n "Printer" then
        mkReflectionClass true
          [parameterOf "Printer" "dpi" TBuiltin VUndefined]
      else mkReflectionClass true []
  | _ => mkReflectionClass false []
  end.

Definition printerOfReport : ReflectionParameter :=
  parameterOf "Report" "printer" (TClass (VClass "Printer")) (VStr "none").

(** The same, with [Report(printer: Printer = 'none')]. *)
Definition sampleReflection (v : Value) : ReflectionClass :=
  if equals v (VClass "Report") then mkReflectionClass true [printerOfReport]
  else strictReflection v.

Definition quietRun (c : Call) : Completion := Returns VUndefined.

Definition strictHost : Host :=
  mkHost strictReflection quietRun (fun _ _ => false) (fun _ => false).

Definition sampleHost : Host :=
  mkHost sampleReflection quietRun (fun _ _ => false) (fun _ => false).

(** User code that calls back into the container it is handed: the
    factory ["repository"] returns [container.make(Repository)]. *)
Definition callingBack : Program :=
  mkProgram strictReflection
    (fun c =>
       match c with
       | CallFactory "repository" _ =>
           make strictHost 5 (VClass "Repository") (PArr [])
       | _ => ret VUndefined
       end)
    (fun _ _ => false) (fun _ => false).

(** The factory ["optional"] tries [container.make(Mailer)] and returns
    [null] when that throws. *)
Definition catching : Program :=
  mkProgram strictReflection
    (fun c =>
       match c with
       | CallFactory "optional" _ =>
           tryCatch (make strictHost 5 (VClass "Mailer") (PArr []))
             (fun _ => ret VNull)
       | _ => ret VUndefined
       end)
    (fun _ _ => false) (fun _ => false).

(** A container building a [Printer] with the contextual primitive
    [dpi] given as [0]. *)
Definition printerWorld : World :=
  mkWorld
    (set_buildStack [VClass "Printer"]
       (container
          (fst (addContextualBinding 1 (VClass "Printer") (VStr "dpi")
                  (VNum 0) emptyWorld))))
    [] [].

Definition dpiOfPrinter : ReflectionParameter :=
  parameterOf "Printer" "dpi" TBuiltin VUndefined.

(** ["logger"] bound as a singleton to [Repository], a rebinding
    callback registered for it, and made once. *)
Definition loggerWorld : World :=
  fst ((singleton strictHost 5 (VStr "logger") (VClass "Repository") ;;
        rebinding strictHost 5 (VStr "logger") "onRebound" ;;
        make strictHost 5 (VStr "logger") (PArr [])) emptyWorld).

(** ["logger"] registered by [instance] with the value [7], a
    rebinding callback registered for it, and made once: the call is
    answered from the instance cache. *)
Definition cachedLoggerWorld : World :=
  fst ((instance strictHost 5 (VStr "logger") (VNum 7) ;;
        rebinding strictHost 5 (VStr "logger") "onRebound" ;;
        make strictHost 5 (VStr "logger") (PArr [])) emptyWorld).

(** ["logger"] an alias of [Repository], a rebinding callback
    registered for it, and made once: the call builds a [Repository]. *)
Definition aliasedLoggerWorld : World :=
  fst ((alias (VClass "Repository") (VStr "logger") ;;
        rebinding strictHost 5 (VStr "logger") "onRebound" ;;
        make strictHost 5 (VStr "logger") (PArr [])) emptyWorld).

(** ["b"] is an alias of ["a"], and ["c"] of ["b"]. *)
Definition aliasWorld : Container :=
  set_aliases [(VStr "c", VStr "b"); (VStr "b", VStr "a")] emptyContainer.

(** ["logger"] registered as a singleton bound to [Repository]. *)
Definition singletonWorld : World :=
  fst (singleton strictHost 1 (VStr "logger") (VClass "Repository")
         emptyWorld).

(** [when(Report).needs("anything").give(5)] and
    [singleton(Report)]. *)
Definition reportWorld : World :=
  fst ((addContextualBinding 1 (VClass "Report") (VStr "anything")
          (VNum 5) ;;
        singleton sampleHost 1 (VClass "Report") VUndefined) emptyWorld).

(** The factory ["clock"] answers ["set"] when it is given named
    parameters and ["now"] otherwise. *)
Definition clockRun (c : Call) : Completion :=
  match c with
  | CallFactory "clock" (PObj _) => Returns (VStr "set")
  | CallFactory "clock" (PArr _) => Returns (VStr "now")
  | _ => Returns VUndefined
  end.

Definition clockHost : Host :=
  mkHost strictReflection clockRun (fun _ _ => false) (fun _ => false).

(** [when(Printer).needs("dpi").give(300)], [singleton(Printer)] and
    [singleton("clock", clock)] with the factory ["clock"]. *)
Definition officeWorld : World :=
  fst ((addContextualBinding 1 (VClass "Printer") (VStr "dpi") (VNum 300) ;;
        singleton clockHost 1 (VClass "Printer") VUndefined ;;
        singleton clockHost 1 (VStr "clock") (VFn "clock")) emptyWorld).

(* ================================================================== *)
(** ** More of the container's API *)
(* ================================================================== *)

Definition set_methodBindings (x : JsMap string Fn) (c : Container)
  : Container :=
  mkContainer (_contextual c) (_resolved c) (_bindings c) x
    (_instances c) (_aliases c) (_abstractAliases c) (_extenders c)
    (_tags c) (_buildStack c) (_with c) (_reboundCallbacks c)
    (_globalResolvingCallbacks c) (_globalAfterResolvingCallbacks c)
    (_resolvingCallbacks c) (_afterResolvingCallbacks c).

Definition set_globalResolvingCallbacks (x : list Fn) (c : Container)
  : Container :=
  mkContainer (_contextual c) (_resolved c) (_bindings c)
    (_methodBindings c) (_instances c) (_aliases c) (_abstractAliases c)
    (_extenders c) (_tags c) (_buildStack c) (_with c)
    (_reboundCallbacks c) x (_globalAfterResolvingCallbacks c)
    (_resolvingCallbacks c) (_afterResolvingCallbacks c).

Definition set_globalAfterResolvingCallbacks (x : list Fn) (c : Container)
  : Container :=
  mkContainer (_contextual c) (_resolved c) (_bindings c)
    (_methodBindings c) (_instances c) (_aliases c) (_abstractAliases c)
    (_extenders c) (_tags c) (_buildStack c) (_with c)
    (_reboundCallbacks c) (_globalResolvingCallbacks c) x
    (_resolvingCallbacks c) (_afterResolvingCallbacks c).

Definition set_resolvingCallbacks (x : JsMap Value (list Fn))
    (c : Container) : Container :=
  mkContainer (_contextual c) (_resolved c) (_bindings c)
    (_methodBindings c) (_instances c) (_aliases c) (_abstractAliases c)
    (_extenders c) (_tags c) (_buildStack c) (_with c)
    (_reboundCallbacks c) (_globalResolvingCallbacks c)
    (_globalAfterResolvingCallbacks c) x (_afterResolvingCallbacks c).

Definition set_afterResolvingCallbacks (x : JsMap Value (list Fn))
    (c : Container) : Container :=
  mkContainer (_contextual c) (_resolved c) (_bindings c)
    (_methodBindings c) (_instances c) (_aliases c) (_abstractAliases c)
    (_extenders c) (_tags c) (_buildStack c) (_with c)
    (_reboundCallbacks c) (_globalResolvingCallbacks c)
    (_globalAfterResolvingCallbacks c) (_resolvingCallbacks c) x.

(** *** Method bindings *)

(** The [method] argument of [bindMethod]: a pair of a class, given by
    its name, and a method name, or the key itself. *)
Inductive MethodRef : Type :=
| MethodOf (target : string) (method : string)
| MethodKey (method : string).

Definition _parseBindMethod (method : MethodRef) : string :=
  match method with
  | MethodOf target method' => target ++ "@" ++ method'
  | MethodKey method' => method'
  end.

Definition hasMethodBinding (c : Container) (method : string) : bool :=
  JsMap.has (_methodBindings c) method.

Definition bindMethod (method : MethodRef) (callback : Fn) : M unit :=
  modify (fun c =>
    set_methodBindings
      (JsMap.set (_methodBindings c) (_parseBindMethod method) callback) c).

(** [callMethodBinding(method, instance)]; [call] is the user's
    function applied to the instance.  Calling what [get] returns for a
    method that is not bound, [undefined], is a [TypeError]. *)
Definition callMethodBinding (call : Fn -> Value -> Completion)
    (method : string) (instance' : Value) : M Value :=
  callback <- gets (fun c => JsMap.get (_methodBindings c) method) ;;
  match callback with
  | Some f =>
      match call f instance' with
      | Returns v => ret v
      | Throws e => throw e
      end
  | None => throw TypeError
  end.

(** *** Registering lifecycle callbacks *)

(** Modelled from the spec: [isString] of [Support/helpers]. *)
Definition isString (v : Value) : bool :=
  match v with VStr _ => true | _ => false end.

(** [registry.has(k) ? registry.get(k).push(f) : registry.set(k, [f])]. *)
Definition pushCallback (registry : JsMap Value (list Fn)) (abstract : Value)
    (callback : Fn) : JsMap Value (list Fn) :=
  JsMap.set registry abstract
    match JsMap.get registry abstract with
    | Some callbacks => callbacks ++ [callback]
    | None => [callback]
    end.

(** [resolving(abstract, callback)], with a callback. *)
Definition resolving (fuel : nat) (abstract : Value) (callback : Fn)
  : M unit :=
  abstract' <- (if isString abstract || isInstantiable abstract
                then getAliasM fuel abstract else ret abstract) ;;
  modify (fun c =>
    set_resolvingCallbacks
      (pushCallback (_resolvingCallbacks c) abstract' callback) c).

(** [resolving(callback)]: a user function as the only argument is
    registered for every type. *)
Definition resolvingAny (callback : Fn) : M unit :=
  modify (fun c =>
    set_globalResolvingCallbacks (_globalResolvingCallbacks c ++ [callback])
      c).

(** [afterResolving(abstract, callback)], with a callback. *)
Definition afterResolving (fuel : nat) (abstract : Value) (callback : Fn)
  : M unit :=
  abstract' <- (if isString abstract || isInstantiable abstract
                then getAliasM fuel abstract else ret abstract) ;;
  modify (fun c =>
    set_afterResolvingCallbacks
      (pushCallback (_afterResolvingCallbacks c) abstract' callback) c).

(** [afterResolving(callback)]. *)
Definition afterResolvingAny (callback : Fn) : M unit :=
  modify (fun c =>
    set_globalAfterResolvingCallbacks
      (_globalAfterResolvingCallbacks c ++ [callback]) c).

(** *** Forgetting *)

Definition forgetExtenders (fuel : nat) (abstract : Value) : M unit :=
  abstract' <- getAliasM fuel abstract ;;
  modify (fun c => set_extenders (JsMap.delete (_extenders c) abstract') c).

Definition getBindings (c : Container) : JsMap Value Binding := _bindings c.

(** *** Sequences of operations on the alias registry *)

Inductive AliaserOp : Type :=
| OpAlias (abstract alias' : Value)
| OpForgetAlias (abstract : Value)
| OpForgetAliases
| OpForgetAbstractAliases
| OpRemoveAbstractAlias (searched : Value).

(** One call; a call that throws leaves the registry as it is. *)
Definition aliaserStep (a : Aliaser.Aliaser) (op : AliaserOp)
  : Aliaser.Aliaser :=
  match op with
  | OpAlias abstract alias' => fst (Aliaser.alias abstract alias' a)
  | OpForgetAlias abstract => Aliaser.forgetAlias abstract a
  | OpForgetAliases => Aliaser.forgetAliases a
  | OpForgetAbstractAliases => Aliaser.forgetAbstractAliases a
  | OpRemoveAbstractAlias searched => Aliaser.removeAbstractAlias searched a
  end.

Definition aliaserRun (ops : list AliaserOp) : Aliaser.Aliaser :=
  fold_left aliaserStep ops Aliaser.empty.


(* ================================================================== *)
(** ** More vocabulary *)
(* ================================================================== *)

(** An identifier that is not shared stays so. *)
Definition staysUnshared (A : Value) (w w' : World) : Prop :=
  isShared (container w) A = false -> isShared (container w') A = false.

(** The state [instance] has reached when it looks whether to fire the
    rebound callbacks: the alias dropped, the instance stored. *)
Definition storeInstance (abstract instance' : Value) (w : World) : World :=
  let c := _removeAbstractAlias abstract (container w) in
  let c := set_aliases (JsMap.delete (_aliases c) abstract) c in
  mkWorld
    (set_instances (JsMap.set (_instances c) abstract instance') c)
    (heap w) (calls w).

(** What a user function returns, when it returns. *)
Definition returned (H : Host) (c : Call) : option Value :=
  match run H c with
  | Returns v => Some v
  | Throws _ => None
  end.

(** The extenders applied one after the other, each to what the one
    before returned. *)
Fixpoint extended (H : Host) (extenders : list Fn) (object : Value)
  : option Value :=
  match extenders with
  | [] => Some object
  | extender :: rest =>
      match returned H (CallExtender extender object) with
      | Some object' => extended H rest object'
      | None => None
      end
  end.

(** The calls of the extenders, in order. *)
Fixpoint extenderCalls (H : Host) (extenders : list Fn) (object : Value)
  : list Call :=
  match extenders with
  | [] => []
  | extender :: rest =>
      CallExtender extender object
        :: match returned H (CallExtender extender object) with
           | Some object' => extenderCalls H rest object'
           | None => []
           end
  end.

(** The callbacks of a registry that apply to [abstract] and [object],
    in the order of the registry. *)
Definition callbacksFor (H : Program) (abstract object : Value)
    (registry : JsMap Value (list Fn)) : list Fn :=
  flat_map
    (fun entry =>
       if equals (fst entry) abstract
          || match instanceof H object (fst entry) with
             | Some matches => matches
             | None => false
             end
       then snd entry else [])
    registry.

(** Every key of the registry can stand on the right of [instanceof],
    or is [abstract] itself. *)
Definition keysCallable (abstract : Value) (registry : JsMap Value (list Fn))
  : Prop :=
  forall key callbacks,
    In (key, callbacks) registry ->
    key = abstract \/ instanceofFunction key = true.

(** For every key of the registry other than [abstract] itself,
    [object instanceof key] has a value. *)
Definition keysTestable (H : Program) (abstract object : Value)
    (registry : JsMap Value (list Fn)) : Prop :=
  forall key callbacks,
    In (key, callbacks) registry ->
    key = abstract \/ instanceof H object key <> None.

(** No identifier of the alias registry is its own alias. *)
Definition neverSelf (a : Aliaser.Aliaser) : Prop :=
  forall k target,
    JsMap.get (Aliaser._aliases a) k = Some target -> target <> k.

(* ================================================================== *)
(** * Properties of the model *)
(* ================================================================== *)

(** ** JS maps *)

Section JsMapFacts.
Context {K V : Type} `{JsKey K}.

Lemma JsMap_get_set_same (m : JsMap K V) k v :
  JsMap.get (JsMap.set m k v) k = Some v.
Proof.
  induction m as [| [k' v'] rest IH]; simpl.
  - destruct (key_eq_dec k k); congruence.
  - destruct (key_eq_dec k' k) as [-> | Hne]; simpl.
    + destruct (key_eq_dec k k); congruence.
    + destruct (key_eq_dec k' k); congruence.
Qed.

Lemma JsMap_get_set_other (m : JsMap K V) k k' v :
  k <> k' -> JsMap.get (JsMap.set m k v) k' = JsMap.get m k'.
Proof.
  intros Hne. induction m as [| [k0 v0] rest IH]; simpl.
  - destruct (key_eq_dec k k'); congruence.
  - destruct (key_eq_dec k0 k) as [-> | Hk]; simpl.
    + destruct (key_eq_dec k k'); congruence.
    + destruct (key_eq_dec k0 k'); congruence.
Qed.

Lemma JsMap_get_delete_same (m : JsMap K V) k :
  JsMap.get (JsMap.delete m k) k = None.
Proof.
  induction m as [| [k' v'] rest IH]; simpl; auto.
  destruct (key_eq_dec k' k) as [-> | Hne]; simpl; auto.
  destruct (key_eq_dec k' k); congruence.
Qed.

Lemma JsMap_get_delete_other (m : JsMap K V) k k' :
  k <> k' -> JsMap.get (JsMap.delete m k) k' = JsMap.get m k'.
Proof.
  intros Hne. induction m as [| [k0 v0] rest IH]; simpl; auto.
  destruct (key_eq_dec k0 k) as [-> | Hk]; simpl.
  - destruct (key_eq_dec k k'); congruence.
  - destruct (key_eq_dec k0 k'); congruence.
Qed.

Lemma JsMap_delete_length (m : JsMap K V) k :
  List.length (JsMap.delete m k) <= List.length m.
Proof.
  induction m as [| [k' v'] rest IH]; simpl; auto.
  destruct (key_eq_dec k' k); simpl; lia.
Qed.

Lemma JsMap_delete_shrinks (m : JsMap K V) k v :
  JsMap.get m k = Some v ->
  List.length (JsMap.delete m k) < List.length m.
Proof.
  induction m as [| [k' v'] rest IH]; simpl; try discriminate.
  destruct (key_eq_dec k' k); simpl; intros Hget.
  - pose proof (JsMap_delete_length rest k). lia.
  - apply IH in Hget. lia.
Qed.

Lemma JsMap_has_false (m : JsMap K V) k :
  JsMap.has m k = false <-> JsMap.get m k = None.
Proof.
  unfold JsMap.has. destruct (JsMap.get m k); split; congruence.
Qed.
End JsMapFacts.

Lemma equals_true (a b : Value) : equals a b = true <-> a = b.
Proof. unfold equals. destruct (Value_eq_dec a b); split; congruence. Qed.

Lemma equals_false (a b : Value) : equals a b = false <-> a <> b.
Proof. unfold equals. destruct (Value_eq_dec a b); split; congruence. Qed.

Lemma equals_refl (a : Value) : equals a a = true.
Proof. apply equals_true; reflexivity. Qed.

(** ** The monad *)

Lemma mbind_Ok (A B : Type) (m : M A) (k : A -> M B) w w' b :
  mbind m k w = (w', Ok b) ->
  exists w1 a, m w = (w1, Ok a) /\ k a w1 = (w', Ok b).
Proof.
  unfold mbind. destruct (m w) as [w1 [a | e |]]; intros Hrun;
    try discriminate.
  exists w1, a; auto.
Qed.


Lemma mbind_ret (A B : Type) (a : A) (k : A -> M B) w :
  mbind (ret a) k w = k a w.
Proof. reflexivity. Qed.

Lemma mbind_gets (A B : Type) (f : Container -> A) (k : A -> M B) w :
  mbind (gets f) k w = k (f (container w)) w.
Proof. reflexivity. Qed.

Lemma mbind_modify (B : Type) f (k : unit -> M B) w :
  mbind (modify f) k w = k tt (mkWorld (f (container w)) (heap w) (calls w)).
Proof. reflexivity. Qed.

Lemma mbind_run (A B : Type) (m : M A) (k : A -> M B) w w1 a :
  m w = (w1, Ok a) -> mbind m k w = k a w1.
Proof. intros Hm. unfold mbind. rewrite Hm. reflexivity. Qed.

(** ** The nested map *)

Lemma replaceAt_length r m maps :
  List.length (ES5NestedMap.replaceAt r m maps) = List.length maps.
Proof.
  revert r. induction maps as [| m0 rest IH]; intros [| r]; simpl; auto.
Qed.

Lemma nth_replaceAt_same r m maps :
  r < List.length maps -> nth r (ES5NestedMap.replaceAt r m maps) [] = m.
Proof.
  revert r. induction maps as [| m0 rest IH]; intros [| r]; simpl;
    intros Hr; try lia; auto.
  apply IH. lia.
Qed.

Lemma nth_replaceAt_other r r' m maps :
  r <> r' -> nth r' (ES5NestedMap.replaceAt r m maps) [] = nth r' maps [].
Proof.
  revert r r'.
  induction maps as [| m0 rest IH]; intros [| r] [| r'] Hne; simpl; auto;
    congruence.
Qed.

Lemma replaceAt_new m maps :
  ES5NestedMap.replaceAt (List.length maps) m (maps ++ [[]]) = maps ++ [m].
Proof.
  induction maps as [| m0 rest IH]; simpl; [reflexivity |].
  rewrite IH. reflexivity.
Qed.

Section NestedPairs.
Import ES5NestedMap.

Lemma has1_simple a s :
  simpleKey a -> has1 a s = (s, Ok (JsMap.has (_map s) a)).
Proof. intros Ha. unfold has1. rewrite Ha. reflexivity. Qed.

Lemma get1_simple a s :
  simpleKey a -> get1 a s = (s, Ok (JsMap.get (_map s) a)).
Proof. intros Ha. unfold get1. rewrite Ha. reflexivity. Qed.

Lemma set1_simple a c s :
  simpleKey a ->
  set1 a c s = (mkStore (JsMap.set (_map s) a c) (created s), Ok tt).
Proof. intros Ha. unfold set1. rewrite Ha. reflexivity. Qed.

Lemma nbind_run (A B : Type) (m : N A) (k : A -> N B) s s1 a :
  m s = (s1, Ok a) -> nbind m k s = k a s1.
Proof. intros Hm. unfold nbind. rewrite Hm. reflexivity. Qed.

Lemma branching_cases s a :
  branching s a ->
  JsMap.get (_map s) a = None
  \/ exists r, JsMap.get (_map s) a = Some (CMap r).
Proof.
  intros Hb. destruct (JsMap.get (_map s) a) as [[x | r] |] eqn:Hget; eauto.
  destruct (Hb x Hget).
Qed.

(** [get([a, b])] reads the entry of the pair. *)
Lemma get_pair s a b :
  simpleKey a -> a <> b -> branching s a ->
  get (KeyList [a; b]) s = (s, Ok (lookup s a b)).
Proof.
  intros Ha Hne Hb. unfold get, lookup, Arr_last. simpl.
  assert (Hab : equals a b = false) by (apply equals_false; exact Hne).
  rewrite Hab.
  erewrite nbind_run; [| apply has1_simple; exact Ha].
  unfold JsMap.has.
  destruct (branching_cases Hb) as [Hnone | [r Hr]].
  - rewrite Hnone. reflexivity.
  - rewrite Hr. simpl.
    erewrite nbind_run; [| apply get1_simple; exact Ha].
    rewrite Hr. simpl. unfold nbind. simpl. unfold JsMap.has.
    rewrite equals_refl.
    destruct (JsMap.get (native s r) b) eqn:Hentry; simpl;
      rewrite ?Hentry; reflexivity.
Qed.

Lemma has_pair s a b :
  simpleKey a -> a <> b -> branching s a ->
  has (KeyList [a; b]) s
  = (s, Ok match lookup s a b with Some _ => true | None => false end).
Proof.
  intros Ha Hne Hb. unfold has, lookup, Arr_last. simpl.
  assert (Hab : equals a b = false) by (apply equals_false; exact Hne).
  rewrite Hab.
  erewrite nbind_run; [| apply has1_simple; exact Ha].
  unfold JsMap.has.
  destruct (branching_cases Hb) as [Hnone | [r Hr]].
  - rewrite Hnone. reflexivity.
  - rewrite Hr. simpl.
    erewrite nbind_run; [| apply get1_simple; exact Ha].
    rewrite Hr. simpl. unfold nbind. simpl. unfold JsMap.has.
    rewrite equals_refl.
    destruct (JsMap.get (native s r) b) eqn:Hentry; simpl;
      rewrite ?Hentry; reflexivity.
Qed.

(** [set([a, b], v)] writes the entry of the pair. *)
Lemma set_pair s a b v :
  simpleKey a -> a <> b -> branching s a ->
  set (KeyList [a; b]) v s = (setPair s a b (CVal v), Ok tt).
Proof.
  intros Ha Hne Hb. unfold set, setPair, Arr_last. simpl.
  assert (Hab : equals a b = false) by (apply equals_false; exact Hne).
  rewrite Hab, equals_refl.
  erewrite nbind_run; [| apply has1_simple; exact Ha].
  unfold JsMap.has.
  destruct (branching_cases Hb) as [Hnone | [r Hr]].
  - rewrite Hnone.
    erewrite nbind_run;
      [| unfold nbind, newMap; rewrite set1_simple by exact Ha;
         reflexivity].
    erewrite nbind_run; [| apply get1_simple; exact Ha].
    simpl. rewrite JsMap_get_set_same. simpl.
    unfold nbind, native. simpl.
    rewrite app_nth2, Nat.sub_diag by lia. simpl.
    rewrite replaceAt_new. reflexivity.
  - rewrite Hr.
    erewrite nbind_run; [| reflexivity].
    erewrite nbind_run; [| apply get1_simple; exact Ha].
    rewrite Hr. reflexivity.
Qed.

Lemma lookup_setPair s a b c a' b' :
  wellFormed s -> branching s a ->
  lookup (setPair s a b c) a' b'
  = if Value_eq_dec a' a
    then if Value_eq_dec b' b then Some c else lookup s a b'
    else lookup s a' b'.
Proof.
  intros [Hvalid Hinj] Hb. unfold setPair, lookup.
  destruct (Value_eq_dec a' a) as [Heq | Hne];
    [subst a' |];
    (destruct (branching_cases Hb) as [Hnone | [r Hr]];
     [rewrite !Hnone | rewrite !Hr]); simpl.
  - rewrite JsMap_get_set_same. unfold native. simpl.
    rewrite app_nth2, Nat.sub_diag by lia. simpl.
    destruct (key_eq_dec b b') as [Hbb | Hbb];
      destruct (Value_eq_dec b' b); congruence.
  - rewrite Hr. unfold native at 1. simpl.
    rewrite nth_replaceAt_same by (eapply Hvalid; eauto).
    destruct (Value_eq_dec b' b) as [-> | Hb'].
    + apply JsMap_get_set_same.
    + apply JsMap_get_set_other. congruence.
  - rewrite JsMap_get_set_other by congruence.
    destruct (JsMap.get (_map s) a') as [[x | r'] |] eqn:Hget; auto.
    unfold native. simpl. rewrite app_nth1 by (eapply Hvalid; eauto).
    reflexivity.
  - destruct (JsMap.get (_map s) a') as [[x | r'] |] eqn:Hget; auto.
    unfold native at 1. simpl.
    rewrite nth_replaceAt_other; [reflexivity |].
    intros ->. apply Hne. eapply Hinj; eauto.
Qed.

Lemma map_setPair s a b c a' :
  a' <> a -> JsMap.get (_map (setPair s a b c)) a' = JsMap.get (_map s) a'.
Proof.
  intros Hne. unfold setPair.
  destruct (JsMap.get (_map s) a) as [[x | r] |]; simpl; auto;
    apply JsMap_get_set_other; congruence.
Qed.

Lemma branching_setPair s a b c a' :
  branching s a' -> branching (setPair s a b c) a'.
Proof.
  intros Hb x. destruct (Value_eq_dec a' a) as [-> | Hne].
  - unfold setPair.
    destruct (JsMap.get (_map s) a) as [[y | r] |] eqn:Hget; simpl.
    + rewrite JsMap_get_set_same. discriminate.
    + rewrite Hget. discriminate.
    + rewrite JsMap_get_set_same. discriminate.
  - rewrite map_setPair by exact Hne. apply Hb.
Qed.

Lemma wellFormed_setPair s a b c :
  wellFormed s -> branching s a -> wellFormed (setPair s a b c).
Proof.
  intros [Hvalid Hinj] Hb. unfold setPair.
  destruct (branching_cases Hb) as [Hnone | [r Hr]].
  - rewrite Hnone. split; simpl.
    + intros k r0. rewrite length_app. simpl.
      destruct (Value_eq_dec a k) as [Heq | Hne].
      * subst k. rewrite JsMap_get_set_same. intros Hget.
        inversion Hget. lia.
      * rewrite JsMap_get_set_other by exact Hne. intros Hget.
        apply Hvalid in Hget. lia.
    + intros k k' r0.
      destruct (Value_eq_dec a k) as [Heq | Hk];
        destruct (Value_eq_dec a k') as [Heq' | Hk'];
        try subst k; try subst k'; auto.
      * rewrite JsMap_get_set_same, JsMap_get_set_other by exact Hk'.
        intros Hget Hget'. inversion Hget; subst r0.
        apply Hvalid in Hget'. lia.
      * rewrite JsMap_get_set_same, JsMap_get_set_other by exact Hk.
        intros Hget Hget'. inversion Hget'; subst r0.
        apply Hvalid in Hget. lia.
      * rewrite !JsMap_get_set_other by assumption. apply Hinj.
  - rewrite Hr. split; simpl.
    + intros k r0 Hget. rewrite replaceAt_length. eapply Hvalid; eauto.
    + exact Hinj.
Qed.

(** X22.  Under a pair of different keys [[a, b]], [a] a key that is
    taken as it is, the nested map is a map: after [set([a, b], v)],
    [get([a, b])] is [v] and [has([a, b])] is true, and [get] of every
    other such pair is what it was.  This holds, and goes on to hold
    after the call, as long as [a] does not hold a plain value in
    [_map]. *)
Theorem nested_set_get (s : ES5NestedMap.Store) (a b v : Value) :
  simpleKey a -> a <> b -> wellFormed s -> branching s a ->
  exists s',
    set (KeyList [a; b]) v s = (s', Ok tt)
    /\ get (KeyList [a; b]) s' = (s', Ok (Some (CVal v)))
    /\ has (KeyList [a; b]) s' = (s', Ok true)
    /\ (forall a' b',
           simpleKey a' -> a' <> b' -> branching s a' ->
           a' <> a \/ b' <> b ->
           get (KeyList [a'; b']) s'
           = (s', snd (get (KeyList [a'; b']) s)))
    /\ wellFormed s'
    /\ (forall a', branching s a' -> branching s' a').
Proof.
  intros Ha Hne Hwf Hb. exists (setPair s a b (CVal v)).
  assert (Hb' : forall a', branching s a' ->
                           branching (setPair s a b (CVal v)) a')
    by (intros a'; apply branching_setPair).
  assert (Hlookup : lookup (setPair s a b (CVal v)) a b = Some (CVal v)).
  { rewrite lookup_setPair by assumption.
    destruct (Value_eq_dec a a); [| congruence].
    destruct (Value_eq_dec b b); congruence. }
  split; [apply set_pair; assumption |].
  split; [rewrite get_pair by auto; rewrite Hlookup; reflexivity |].
  split; [rewrite has_pair by auto; rewrite Hlookup; reflexivity |].
  split; [| split; [apply wellFormed_setPair; assumption | exact Hb']].
  intros a' b' Ha' Hne' Hbr Hother.
  rewrite !get_pair by auto. simpl.
  rewrite lookup_setPair by assumption.
  destruct (Value_eq_dec a' a) as [-> | Hna]; [| reflexivity].
  destruct (Value_eq_dec b' b) as [-> | Hnb]; [| reflexivity].
  destruct Hother; congruence.
Qed.

(** Contextual bindings of two classes, written one after the
    other. *)
Lemma nested_set_get_witness :
  let s := fst (set (KeyList [VClass "Service"; VStr "repo"]) (VNum 1)
                  empty) in
  simpleKey (VClass "Mailer")
  /\ (exists s',
         set (KeyList [VClass "Mailer"; VStr "transport"]) (VNum 2) s
         = (s', Ok tt)
         /\ get (KeyList [VClass "Mailer"; VStr "transport"]) s'
            = (s', Ok (Some (CVal (VNum 2))))
         /\ get (KeyList [VClass "Service"; VStr "repo"]) s'
            = (s', Ok (Some (CVal (VNum 1))))).
Proof.
  cbv zeta.
  set (s := fst (set (KeyList [VClass "Service"; VStr "repo"]) (VNum 1)
                   empty)).
  assert (Hsimple : forall n, simpleKey (VClass n)) by (intros n; reflexivity).
  assert (Hbranching : forall n, branching s (VClass n)).
  { intros n x. subst s. simpl.
    destruct (key_eq_dec (VClass "Service") (VClass n)); discriminate. }
  assert (Hwf : wellFormed s).
  { subst s. split; simpl.
    - intros k r.
      destruct (key_eq_dec (VClass "Service") k); [| discriminate].
      intros Hget. inversion Hget. lia.
    - intros k k' r.
      destruct (key_eq_dec (VClass "Service") k);
        destruct (key_eq_dec (VClass "Service") k');
        try discriminate; congruence. }
  split; [apply Hsimple |].
  destruct (@nested_set_get s (VClass "Mailer") (VStr "transport") (VNum 2)
              (Hsimple _)) as (s' & Hset & Hget & _ & Hframe & _);
    [discriminate | exact Hwf | apply Hbranching |].
  exists s'. split; [exact Hset |]. split; [exact Hget |].
  rewrite (Hframe (VClass "Service") (VStr "repo"));
    [reflexivity | apply Hsimple | discriminate | apply Hbranching |].
  left. discriminate.
Defined.

Lemma JsMap_set_set (K V : Type) `{JsKey K} (m : JsMap K V) k v v' :
  JsMap.set (JsMap.set m k v) k v' = JsMap.set m k v'.
Proof.
  induction m as [| [k0 v0] rest IH]; simpl.
  - destruct (key_eq_dec k k); congruence.
  - destruct (key_eq_dec k0 k) as [-> | Hne]; simpl.
    + destruct (key_eq_dec k k); congruence.
    + destruct (key_eq_dec k0 k); [congruence |]. rewrite IH. reflexivity.
Qed.



Lemma lookup_deletePair s a b a' b' :
  wellFormed s -> branching s a ->
  lookup (deletePair s a b) a' b'
  = if Value_eq_dec a' a
    then if Value_eq_dec b' b then None else lookup s a b'
    else lookup s a' b'.
Proof.
  intros [Hvalid Hinj] Hb. unfold deletePair, lookup.
  destruct (branching_cases Hb) as [Hnone | [r Hr]].
  - rewrite Hnone.
    destruct (Value_eq_dec a' a) as [Heq | Hne]; [subst a' | reflexivity].
    rewrite Hnone. destruct (Value_eq_dec b' b); reflexivity.
  - rewrite Hr.
    destruct (JsMap.has (native s r) b) eqn:Hhas.
    + simpl. destruct (Value_eq_dec a' a) as [Heq | Hne]; [subst a' |].
      * rewrite Hr. unfold native at 1. simpl.
        rewrite nth_replaceAt_same by (eapply Hvalid; eauto).
        destruct (Value_eq_dec b' b) as [-> | Hb'].
        -- apply JsMap_get_delete_same.
        -- apply JsMap_get_delete_other. congruence.
      * destruct (JsMap.get (_map s) a') as [[x | r'] |] eqn:Hget; auto.
        unfold native at 1. simpl.
        rewrite nth_replaceAt_other; [reflexivity |].
        intros ->. apply Hne. eapply Hinj; eauto.
    + destruct (Value_eq_dec a' a) as [Heq | Hne]; [subst a' | reflexivity].
      rewrite Hr. destruct (Value_eq_dec b' b) as [-> | Hb']; [| reflexivity].
      apply JsMap_has_false. exact Hhas.
Qed.

Lemma map_deletePair s a b : _map (deletePair s a b) = _map s.
Proof.
  unfold deletePair.
  destruct (JsMap.get (_map s) a) as [[x | r] |]; auto.
  destruct (JsMap.has (native s r) b); reflexivity.
Qed.

(** [delete([a, b])] removes the entry of the pair. *)
Lemma delete_pair s a b :
  simpleKey a -> a <> b -> branching s a ->
  delete (KeyList [a; b]) s
  = (deletePair s a b,
     Ok match lookup s a b with Some _ => true | None => false end).
Proof.
  intros Ha Hne Hb. unfold delete, deletePair, lookup, Arr_last. simpl.
  assert (Hab : equals a b = false) by (apply equals_false; exact Hne).
  rewrite Hab.
  erewrite nbind_run; [| apply has1_simple; exact Ha].
  unfold JsMap.has at 1.
  destruct (branching_cases Hb) as [Hnone | [r Hr]].
  - rewrite Hnone. reflexivity.
  - rewrite Hr. simpl.
    erewrite nbind_run; [| apply get1_simple; exact Ha].
    rewrite Hr. simpl. unfold nbind. simpl.
    rewrite equals_refl. unfold JsMap.has.
    destruct (JsMap.get (native s r) b) eqn:Hentry; simpl;
      rewrite ?Hentry; reflexivity.
Qed.

(** X24.  [delete([a, b])] removes the entry of the pair and answers
    whether there was one; afterwards [has([a, b])] is false and [get]
    of every other pair is what it was.  [_map] itself is not touched:
    the Map under [a] stays where it is, also when its last entry has
    gone. *)
Theorem nested_delete (s : ES5NestedMap.Store) (a b : Value) :
  simpleKey a -> a <> b -> wellFormed s -> branching s a ->
  exists s',
    delete (KeyList [a; b]) s
    = (s', Ok match lookup s a b with Some _ => true | None => false end)
    /\ has (KeyList [a; b]) s' = (s', Ok false)
    /\ get (KeyList [a; b]) s' = (s', Ok None)
    /\ (forall a' b',
           simpleKey a' -> a' <> b' -> branching s a' ->
           a' <> a \/ b' <> b ->
           get (KeyList [a'; b']) s'
           = (s', snd (get (KeyList [a'; b']) s)))
    /\ _map s' = _map s.
Proof.
  intros Ha Hne Hwf Hb. exists (deletePair s a b).
  assert (Hb' : forall a', branching s a' -> branching (deletePair s a b) a')
    by (intros a' Hbr x; rewrite map_deletePair; apply Hbr).
  assert (Hlookup : lookup (deletePair s a b) a b = None).
  { rewrite lookup_deletePair by assumption.
    destruct (Value_eq_dec a a); [| congruence].
    destruct (Value_eq_dec b b); congruence. }
  split; [apply delete_pair; assumption |].
  split; [rewrite has_pair by auto; rewrite Hlookup; reflexivity |].
  split; [rewrite get_pair by auto; rewrite Hlookup; reflexivity |].
  split; [| apply map_deletePair].
  intros a' b' Ha' Hne' Hbr Hother.
  rewrite !get_pair by auto. simpl.
  rewrite lookup_deletePair by assumption.
  destruct (Value_eq_dec a' a) as [-> | Hna]; [| reflexivity].
  destruct (Value_eq_dec b' b) as [-> | Hnb]; [| reflexivity].
  destruct Hother; congruence.
Qed.

(** The one entry of [Service] is deleted; [Service] stays a key. *)
Lemma nested_delete_witness :
  let s := fst (set (KeyList [VClass "Service"; VStr "repo"]) (VNum 1)
                  empty) in
  simpleKey (VClass "Service")
  /\ (exists s',
         delete (KeyList [VClass "Service"; VStr "repo"]) s = (s', Ok true)
         /\ has (KeyList [VClass "Service"; VStr "repo"]) s' = (s', Ok false)
         /\ has (KeyList [VClass "Service"]) s' = (s', Ok true)).
Proof.
  cbv zeta.
  set (s := fst (set (KeyList [VClass "Service"; VStr "repo"]) (VNum 1)
                   empty)).
  assert (Hbranching : branching s (VClass "Service"))
    by (intros x; subst s; discriminate).
  assert (Hwf : wellFormed s).
  { subst s. split; simpl.
    - intros k r.
      destruct (key_eq_dec (VClass "Service") k); [| discriminate].
      intros Hget. inversion Hget. lia.
    - intros k k' r.
      destruct (key_eq_dec (VClass "Service") k);
        destruct (key_eq_dec (VClass "Service") k');
        try discriminate; congruence. }
  split; [reflexivity |].
  destruct (@nested_delete s (VClass "Service") (VStr "repo") eq_refl)
    as (s' & Hdelete & Hhas & _ & _ & Hmap);
    [discriminate | exact Hwf | exact Hbranching |].
  exists s'. split; [exact Hdelete |]. split; [exact Hhas |].
  unfold has. simpl. unfold map_has. rewrite Hmap. reflexivity.
Defined.

End NestedPairs.

(** ** The store of contextual bindings *)

Section NestedReads.
Import ES5NestedMap.

Variable this_has : Value -> N bool.
Variable this_get : Value -> N (option Cell).
Hypothesis this_has_reads : forall key s, fst (this_has key s) = s.
Hypothesis this_get_reads : forall key s, fst (this_get key s) = s.

Lemma target_has_reads t key s : fst (target_has this_has t key s) = s.
Proof. destruct t; simpl; auto. Qed.

Lemma target_get_reads t key s : fst (target_get this_get t key s) = s.
Proof. destruct t; simpl; auto. Qed.

Lemma has_loop_reads keys :
  forall t lastKey s, fst (has_loop this_has this_get t keys lastKey s) = s.
Proof.
  induction keys as [| key rest IH]; intros t lastKey s; simpl; auto.
  unfold nbind at 1.
  pose proof (target_has_reads t key s) as Hh.
  destruct (target_has this_has t key s) as [s1 [known | e |]];
    simpl in Hh; subst s1; auto.
  destruct known; simpl; auto.
  destruct (equals key lastKey); auto.
  unfold nbind.
  pose proof (target_get_reads t key s) as Hg.
  destruct (target_get this_get t key s) as [s2 [next | e |]];
    simpl in Hg; subst s2; auto.
Qed.

Lemma get_loop_reads keys :
  forall t lastKey s, fst (get_loop this_has this_get t keys lastKey s) = s.
Proof.
  induction keys as [| key rest IH]; intros t lastKey s; simpl; auto.
  unfold nbind at 1.
  pose proof (target_has_reads t key s) as Hh.
  destruct (target_has this_has t key s) as [s1 [known | e |]];
    simpl in Hh; subst s1; auto.
  destruct known; simpl; auto.
  destruct (equals key lastKey); [apply target_get_reads |].
  unfold nbind.
  pose proof (target_get_reads t key s) as Hg.
  destruct (target_get this_get t key s) as [s2 [next | e |]];
    simpl in Hg; subst s2; auto.
Qed.
End NestedReads.

Lemma has1_reads key s : fst (ES5NestedMap.has1 key s) = s.
Proof.
  unfold ES5NestedMap.has1.
  destruct (Nat.eqb _ 1); [reflexivity |].
  apply has_loop_reads; reflexivity.
Qed.

Lemma get1_reads key s : fst (ES5NestedMap.get1 key s) = s.
Proof.
  unfold ES5NestedMap.get1.
  destruct (Nat.eqb _ 1); [reflexivity |].
  apply get_loop_reads; reflexivity.
Qed.

(** [has] and [get] of the nested map leave the store as it is,
    whatever they answer: the lookups of the container only read. *)
Lemma nested_lookup_reads keys s :
  fst (ES5NestedMap.has keys s) = s /\ fst (ES5NestedMap.get keys s) = s.
Proof.
  unfold ES5NestedMap.has, ES5NestedMap.get.
  destruct (Nat.eqb _ 1); [split; reflexivity |].
  split.
  - apply has_loop_reads; [apply has1_reads | apply get1_reads].
  - apply get_loop_reads; [apply has1_reads | apply get1_reads].
Qed.

Lemma contextually_has keys w :
  contextually (ES5NestedMap.has keys) w
  = (w, reads (ES5NestedMap.has keys) (_contextual (container w))).
Proof.
  unfold contextually, reads.
  rewrite (proj1 (nested_lookup_reads keys _)).
  destruct w as [c h cs]. destruct c. reflexivity.
Qed.

Lemma contextually_get keys w :
  contextually (ES5NestedMap.get keys) w
  = (w, reads (ES5NestedMap.get keys) (_contextual (container w))).
Proof.
  unfold contextually, reads.
  rewrite (proj2 (nested_lookup_reads keys _)).
  destruct w as [c h cs]. destruct c. reflexivity.
Qed.

(** Nothing is found in the empty store. *)
Lemma has1_empty key :
  ES5NestedMap.has1 key ES5NestedMap.empty = (ES5NestedMap.empty, Ok false).
Proof.
  unfold ES5NestedMap.has1.
  destruct (Nat.eqb _ 1); [reflexivity |].
  destruct (ES5NestedMap.normalise (ES5NestedMap.KeyOne key));
    reflexivity.
Qed.

Lemma has_pair_empty top x :
  reads (ES5NestedMap.has (ES5NestedMap.KeyList [top; x]))
    ES5NestedMap.empty
  = Ok false.
Proof.
  unfold reads, ES5NestedMap.has. simpl. unfold ES5NestedMap.nbind.
  rewrite has1_empty. reflexivity.
Qed.

Lemma noContextualFor_empty c A :
  _contextual c = ES5NestedMap.empty -> noContextualFor c A.
Proof. intros Hempty top x _. rewrite Hempty. apply has_pair_empty. Qed.

Lemma _findInContextualBindings_absent c x :
  reads (ES5NestedMap.has (contextualKeys c x)) (_contextual c) = Ok false ->
  _findInContextualBindings c x = Ok VUndefined.
Proof.
  intros Hhas. unfold _findInContextualBindings. rewrite Hhas. reflexivity.
Qed.

Lemma firstContextual_none c aliases :
  (forall x, In x aliases -> _findInContextualBindings c x = Ok VUndefined) ->
  firstContextual c aliases = Ok VUndefined.
Proof.
  induction aliases as [| x rest IH]; simpl; intros Hall; auto.
  rewrite (Hall x) by auto. simpl. apply IH. auto.
Qed.

Lemma _getContextualConcrete_none c A :
  noContextualFor c A -> _getContextualConcrete c A = Ok VUndefined.
Proof.
  intros Hno. unfold _getContextualConcrete.
  assert (Hfind : forall x,
             x = A
             \/ (exists aliases,
                    JsMap.get (_abstractAliases c) A = Some aliases
                    /\ In x aliases) ->
             _findInContextualBindings c x = Ok VUndefined).
  { intros x Hx. apply _findInContextualBindings_absent.
    apply (Hno _ x Hx). }
  rewrite (Hfind A) by (left; reflexivity). simpl.
  destruct (JsMap.get (_abstractAliases c) A) as [aliases |] eqn:Hal; auto.
  apply firstContextual_none. intros x Hx. apply Hfind. right. eauto.
Qed.

Lemma _getConcrete_none c A :
  noContextualFor c A ->
  _getConcrete c A
  = Ok match JsMap.get (_bindings c) A with
       | Some b => concrete b
       | None => A
       end.
Proof.
  intros Hno. unfold _getConcrete.
  rewrite _getContextualConcrete_none by exact Hno. reflexivity.
Qed.

(** *** No contextual build *)

Lemma noContextualFor_build c A :
  noContextualFor c A -> noContextualBuild c A.
Proof. apply _getContextualConcrete_none. Qed.

Lemma _getConcrete_direct c A :
  noContextualBuild c A ->
  _getConcrete c A
  = Ok match JsMap.get (_bindings c) A with
       | Some b => concrete b
       | None => A
       end.
Proof. intros Hno. unfold _getConcrete. rewrite Hno. reflexivity. Qed.

(** The lookup reads the store, the top of the build stack and the
    reverse alias index, and nothing else. *)
Lemma _findInContextualBindings_reads c c' x :
  _contextual c' = _contextual c ->
  _buildStack c' = _buildStack c ->
  _findInContextualBindings c' x = _findInContextualBindings c x.
Proof.
  intros Hctx Hstack.
  unfold _findInContextualBindings, contextualKeys.
  rewrite Hctx, Hstack. reflexivity.
Qed.

Lemma firstContextual_reads c c' aliases :
  _contextual c' = _contextual c ->
  _buildStack c' = _buildStack c ->
  firstContextual c' aliases = firstContextual c aliases.
Proof.
  intros Hctx Hstack. induction aliases as [| x rest IH]; simpl; auto.
  rewrite (_findInContextualBindings_reads _ _ x Hctx Hstack), IH.
  reflexivity.
Qed.

Lemma _getContextualConcrete_reads c c' A :
  _contextual c' = _contextual c ->
  _buildStack c' = _buildStack c ->
  _abstractAliases c' = _abstractAliases c ->
  _getContextualConcrete c' A = _getContextualConcrete c A.
Proof.
  intros Hctx Hstack Hal. unfold _getContextualConcrete.
  rewrite (_findInContextualBindings_reads _ _ A Hctx Hstack), Hal.
  destruct (_findInContextualBindings c A) as [binding | |]; simpl; auto.
  destruct (negb (isUndefined binding)); auto.
  destruct (JsMap.get (_abstractAliases c) A); auto.
  apply firstContextual_reads; assumption.
Qed.

Lemma noContextualBuild_same c c' A :
  sameRegistries c c' -> _buildStack c' = _buildStack c ->
  noContextualBuild c A -> noContextualBuild c' A.
Proof.
  intros (Hctx & _ & _ & _ & Hal & _) Hstack Hno.
  unfold noContextualBuild.
  rewrite (_getContextualConcrete_reads _ _ A Hctx Hstack Hal). exact Hno.
Qed.

(** While nothing is being built the first key of every lookup is
    [undefined], which [Arr.wrap] turns into no key at all: no
    contextual binding applies. *)
Lemma has_pair_undefined s x :
  reads (ES5NestedMap.has (ES5NestedMap.KeyList [VUndefined; x])) s
  = Ok false.
Proof. reflexivity. Qed.

Lemma _findInContextualBindings_idle c x :
  _buildStack c = [] -> _findInContextualBindings c x = Ok VUndefined.
Proof.
  intros Hstack. apply _findInContextualBindings_absent.
  unfold contextualKeys. rewrite Hstack. apply has_pair_undefined.
Qed.

Lemma noContextualBuild_idle c A :
  _buildStack c = [] -> noContextualBuild c A.
Proof.
  intros Hstack. unfold noContextualBuild, _getContextualConcrete.
  rewrite (_findInContextualBindings_idle _ A Hstack). simpl.
  destruct (JsMap.get (_abstractAliases c) A) as [aliases |]; auto.
  apply firstContextual_none. intros x _.
  apply _findInContextualBindings_idle. exact Hstack.
Qed.

Lemma plainClass_buildsItself c C : plainClass c C -> buildsItself c C.
Proof.
  intros (Hinst & Halias & Hbind & Hext & Hno).
  repeat split; auto. apply noContextualFor_build. exact Hno.
Qed.

Lemma _getContextualConcrete_cleared w abstract :
  _getContextualConcrete (container (clearContextual w)) abstract
  = Ok VUndefined.
Proof.
  apply _getContextualConcrete_none, noContextualFor_empty. reflexivity.
Qed.

Lemma reading_Ok (A : Type) (query : Container -> Outcome A) w a :
  query (container w) = Ok a -> reading query w = (w, Ok a).
Proof. intros Hq. unfold reading. rewrite Hq. reflexivity. Qed.

Lemma mbind_reading (A B : Type) (query : Container -> Outcome A)
    (k : A -> M B) w a :
  query (container w) = Ok a -> mbind (reading query) k w = k a w.
Proof. intros Hq. unfold mbind, reading. rewrite Hq. reflexivity. Qed.

Lemma mbind_reading_Ok (A B : Type) (query : Container -> Outcome A)
    (k : A -> M B) w w' b :
  mbind (reading query) k w = (w', Ok b) ->
  exists a, query (container w) = Ok a /\ k a w = (w', Ok b).
Proof.
  unfold mbind, reading.
  destruct (query (container w)) as [a | e |]; intros Hrun;
    try discriminate.
  eauto.
Qed.

(** A contextual binding is found while its concrete is being built. *)
Lemma _findInContextualBindings_found c C A cell :
  Arr_last (_buildStack c) = C ->
  ES5NestedMap.simpleKey C -> C <> A ->
  ES5NestedMap.lookup (_contextual c) C A = Some cell ->
  _findInContextualBindings c A = Ok (cellValue (Some cell)).
Proof.
  intros Htop Hsimple Hne Hlookup.
  assert (Hbranch : ES5NestedMap.branching (_contextual c) C).
  { intros x Hx. unfold ES5NestedMap.lookup in Hlookup.
    rewrite Hx in Hlookup. discriminate. }
  unfold _findInContextualBindings, contextualKeys, reads.
  rewrite Htop, has_pair, get_pair by assumption.
  simpl. rewrite Hlookup. reflexivity.
Qed.

Lemma isInstantiable_simpleKey C :
  isInstantiable C = true -> ES5NestedMap.simpleKey C.
Proof. destruct C; try discriminate. reflexivity. Qed.

Lemma classAnchored_has s key :
  classAnchored s -> isInstantiable key = false ->
  JsMap.has (ES5NestedMap._map s) key = false.
Proof.
  intros Hanchored Hkey. unfold JsMap.has.
  destruct (JsMap.get (ES5NestedMap._map s) key) as [cell |] eqn:Hget;
    [| reflexivity].
  destruct (Hanchored _ _ Hget) as [Hclass _]. congruence.
Qed.

(** In a store whose anchors are classes, [this.has(top)] is whether
    [top] is an anchor, also for a [top] that is split or dropped. *)
Lemma has1_anchored s top :
  classAnchored s ->
  ES5NestedMap.has1 top s
  = (s, Ok (JsMap.has (ES5NestedMap._map s) top)).
Proof.
  intros Hanchored. unfold ES5NestedMap.has1.
  destruct (isInstantiable top) eqn:Hclass.
  { destruct top; try discriminate. reflexivity. }
  rewrite (@classAnchored_has s top Hanchored Hclass).
  assert (Hstr : forall part,
             JsMap.has (ES5NestedMap._map s) (VStr part) = false)
    by (intros part; apply classAnchored_has; auto).
  destruct top as [| | b | n | str | d | name | f | a c | r c | r];
    try discriminate;
    try (simpl; unfold ES5NestedMap.map_has;
         rewrite (@classAnchored_has s _ Hanchored Hclass); reflexivity);
    try reflexivity.
  (* a string: its parts are strings *)
  change (ES5NestedMap.normalise (ES5NestedMap.KeyOne (VStr str)))
    with (map VStr (ES5NestedMap.split str)).
  destruct (ES5NestedMap.split str) as [| part parts]; [reflexivity |].
  destruct parts as [| part' parts'].
  - simpl. unfold ES5NestedMap.map_has. rewrite Hstr. reflexivity.
  - simpl. unfold ES5NestedMap.nbind, ES5NestedMap.map_has.
    rewrite Hstr. reflexivity.
Qed.

(** In such a store nothing applies to an identifier that is neither
    an anchor nor a key under an anchor. *)
Lemma has_pair_anchored s top x :
  classAnchored s ->
  JsMap.get (ES5NestedMap._map s) x = None ->
  ES5NestedMap.lookup s top x = None ->
  reads (ES5NestedMap.has (ES5NestedMap.KeyList [top; x])) s = Ok false.
Proof.
  intros Hanchored Hx Hlookup.
  unfold reads, ES5NestedMap.has, Arr_last. simpl.
  unfold ES5NestedMap.nbind at 1.
  rewrite has1_anchored by exact Hanchored. unfold JsMap.has.
  destruct (JsMap.get (ES5NestedMap._map s) top) as [cell |] eqn:Htop;
    [| reflexivity].
  simpl. destruct (Hanchored _ _ Htop) as [Hclass [r ->]].
  destruct (equals top x) eqn:Heq.
  { apply equals_true in Heq. subst x. congruence. }
  unfold ES5NestedMap.nbind at 1.
  rewrite get1_simple by (apply isInstantiable_simpleKey; exact Hclass).
  rewrite Htop. simpl. unfold ES5NestedMap.nbind. simpl.
  unfold ES5NestedMap.lookup in Hlookup. rewrite Htop in Hlookup.
  unfold JsMap.has. rewrite Hlookup. reflexivity.
Qed.

Lemma noContextualFor_anchored c A :
  classAnchored (_contextual c) ->
  (forall x,
      x = A
      \/ (exists aliases,
             JsMap.get (_abstractAliases c) A = Some aliases
             /\ In x aliases) ->
      JsMap.get (ES5NestedMap._map (_contextual c)) x = None
      /\ forall top, ES5NestedMap.lookup (_contextual c) top x = None) ->
  noContextualFor c A.
Proof.
  intros Hanchored Hnone top x Hx.
  destruct (Hnone x Hx) as [Hkey Hlookup].
  apply has_pair_anchored; auto.
Qed.
(** ** Rules for [hoare] *)

Lemma hoare_ret (A : Type) (P : World -> Prop) (a : A) Q X :
  (forall w, P w -> Q a w) -> hoare P (ret a) Q X.
Proof. intros HQ w HP; simpl; auto. Qed.

Lemma hoare_bind (A B : Type) P (m : M A) (k : A -> M B) Q1 Q X :
  hoare P m Q1 X -> (forall a, hoare (Q1 a) (k a) Q X) ->
  hoare P (mbind m k) Q X.
Proof.
  intros Hm Hk w HP. unfold mbind. specialize (Hm w HP).
  destruct (m w) as [w1 [a | e |]]; auto.
  apply (Hk a w1 Hm).
Qed.

Lemma hoare_gets (A : Type) (I : World -> Prop) (f : Container -> A) X :
  hoare I (gets f) (fun _ => I) X.
Proof. intros w HI; simpl; auto. Qed.

Lemma hoare_modify (P : World -> Prop) f (Q : unit -> World -> Prop) X :
  (forall w, P w -> Q tt (mkWorld (f (container w)) (heap w) (calls w))) ->
  hoare P (modify f) Q X.
Proof. intros HQ w HP; simpl; auto. Qed.

Lemma hoare_if (A : Type) P (b : bool) (m1 m2 : M A) Q X :
  (b = true -> hoare P m1 Q X) -> (b = false -> hoare P m2 Q X) ->
  hoare P (if b then m1 else m2) Q X.
Proof. destruct b; auto. Qed.

Lemma hoare_obeys (A : Type) (R E : World -> World -> Prop)
    (I X : World -> Prop) (m : M A) :
  obeys R E m ->
  (forall w w', I w -> R w w' -> I w') ->
  (forall w w', I w -> E w w' -> X w') ->
  hoare I m (fun _ => I) X.
Proof.
  intros Hm HR HE w HI. specialize (Hm w).
  destruct (m w) as [w1 [a | e |]]; eauto.
Qed.

Lemma obeys_of_hoare (A : Type) (R E : World -> World -> Prop) (m : M A) :
  (forall w0, hoare (eq w0) m (fun _ => R w0) (E w0)) -> obeys R E m.
Proof. intros Hm w. apply (Hm w w eq_refl). Qed.

(** ** What every resolution obeys

    [R] relates start and end of a call that returns, [E] of one that
    does not.  The hypotheses are what the engine's own writes and its
    one [catch] need. *)

Section Obeys.
Variables R E : World -> World -> Prop.
Hypothesis R_refl : forall w, R w w.
Hypothesis R_trans : forall w1 w2 w3, R w1 w2 -> R w2 w3 -> R w1 w3.
Hypothesis R_sub_E : forall w w', R w w' -> E w w'.
Hypothesis RE_trans : forall w1 w2 w3, R w1 w2 -> E w2 w3 -> E w1 w3.

Lemma obeys_ret (A : Type) (a : A) : obeys R E (ret a).
Proof. intros w; simpl; auto. Qed.

Lemma obeys_throw (A : Type) (e : Fault) : obeys R E (@throw A e).
Proof. intros w; simpl; auto. Qed.

Lemma obeys_outOfFuel (A : Type) : obeys R E (@outOfFuel A).
Proof. intros w; simpl; auto. Qed.

Lemma obeys_gets (A : Type) (f : Container -> A) : obeys R E (gets f).
Proof. intros w; simpl; auto. Qed.

Lemma obeys_getAliasM fuel abstract : obeys R E (getAliasM fuel abstract).
Proof.
  intros w. unfold getAliasM.
  destruct (getAlias fuel (container w) abstract); auto.
Qed.

Lemma obeys_reading (A : Type) (query : Container -> Outcome A) :
  obeys R E (reading query).
Proof.
  intros w. unfold reading. destruct (query (container w)); auto.
Qed.

Lemma obeys_bind (A B : Type) (m : M A) (k : A -> M B) :
  obeys R E m -> (forall a, obeys R E (k a)) -> obeys R E (mbind m k).
Proof.
  intros Hm Hk w. unfold mbind. specialize (Hm w).
  destruct (m w) as [w1 [a | e |]]; auto.
  specialize (Hk a w1). destruct (k a w1) as [w2 [b | e |]]; eauto.
Qed.

Lemma obeys_forEach (A : Type) (items : list A) (body : A -> M unit) :
  (forall x, obeys R E (body x)) -> obeys R E (forEach items body).
Proof.
  intros Hbody. induction items as [| x rest IH]; simpl.
  - apply obeys_ret.
  - apply obeys_bind; auto.
Qed.

Lemma obeys_if (A : Type) (b : bool) (m1 m2 : M A) :
  obeys R E m1 -> obeys R E m2 -> obeys R E (if b then m1 else m2).
Proof. destruct b; auto. Qed.

Lemma obeys_js_instanceof H object type' :
  obeys R E (js_instanceof H object type').
Proof.
  unfold js_instanceof.
  destruct (instanceof H object type');
    [apply obeys_ret | apply obeys_throw].
Qed.

Lemma obeys__getExtenders fuel abstract :
  obeys R E (_getExtenders fuel abstract).
Proof.
  unfold _getExtenders. apply obeys_bind.
  - apply obeys_getAliasM.
  - intros a. apply obeys_gets.
Qed.

Lemma obeys__unresolvablePrimitive (A : Type) parameter :
  obeys R E (@_unresolvablePrimitive A parameter).
Proof.
  unfold _unresolvablePrimitive.
  destruct (getDeclaringClass parameter); apply obeys_throw.
Qed.

(** *** Calls of user functions *)

Hypothesis R_logCall : forall w c, R w (logCall c w).

(** The user code, and what its functions obey. *)
Variable H : Program.
Hypothesis R_user : forall c, obeys R E (perform H c).

Lemma obeys_invoke c : obeys R E (invoke H c).
Proof.
  intros w. unfold invoke. fold (logCall c w).
  pose proof (R_user c (logCall c w)) as Hrun.
  destruct (perform H c (logCall c w)) as [w' [v | e |]].
  - eapply R_trans; [apply R_logCall | exact Hrun].
  - eapply RE_trans; [apply R_logCall | exact Hrun].
  - eapply RE_trans; [apply R_logCall | exact Hrun].
Qed.

Lemma obeys__fireCallbackArray object callbacks :
  obeys R E (_fireCallbackArray H object callbacks).
Proof.
  unfold _fireCallbackArray. apply obeys_forEach. intros x.
  apply obeys_bind; [apply obeys_invoke | intros; apply obeys_ret].
Qed.

Lemma obeys_fireForType abstract object registry :
  obeys R E (fireForType H abstract object registry).
Proof.
  unfold fireForType. apply obeys_forEach. intros entry.
  apply obeys_bind.
  - apply obeys_if; [apply obeys_ret | apply obeys_js_instanceof].
  - intros b. apply obeys_if;
      [apply obeys__fireCallbackArray | apply obeys_ret].
Qed.

Lemma obeys__fireAfterResolvingCallbacks abstract object :
  obeys R E (_fireAfterResolvingCallbacks H abstract object).
Proof.
  unfold _fireAfterResolvingCallbacks.
  apply obeys_bind; [apply obeys_gets | intros globals].
  apply obeys_bind.
  - apply obeys_if; [apply obeys_ret | apply obeys__fireCallbackArray].
  - intros ?. apply obeys_bind; [apply obeys_gets |].
    intros registry. apply obeys_fireForType.
Qed.

Lemma obeys__fireResolvingCallbacks abstract object :
  obeys R E (_fireResolvingCallbacks H abstract object).
Proof.
  unfold _fireResolvingCallbacks.
  apply obeys_bind; [apply obeys_gets | intros globals].
  apply obeys_bind.
  - apply obeys_if; [apply obeys_ret | apply obeys__fireCallbackArray].
  - intros ?. apply obeys_bind; [apply obeys_gets |].
    intros registry. apply obeys_bind.
    + apply obeys_fireForType.
    + intros ?. apply obeys__fireAfterResolvingCallbacks.
Qed.

Lemma obeys_applyExtenders extenders object :
  obeys R E (applyExtenders H extenders object).
Proof.
  revert object. induction extenders as [| e rest IH]; intros object;
    simpl.
  - apply obeys_ret.
  - apply obeys_bind; [apply obeys_invoke | intros; apply IH].
Qed.

(** *** The engine *)

Hypothesis R_allocate : forall w o, R w (allocate o w).
Hypothesis R_markResolved : forall w0 w abstract,
    R w0 w -> R w0 (markResolved abstract w).
Hypothesis R_setInstance : forall w0 w abstract object,
    JsMap.get (_instances (container w0)) abstract = None ->
    isShared (container w) abstract = true ->
    R w0 w -> R w0 (setInstance abstract object w).
Hypothesis R_with_scope : forall p w0 w,
    R (pushWith p w0) w -> R w0 (popWith w).
Hypothesis E_with_scope : forall p w0 w, E (pushWith p w0) w -> E w0 w.
Hypothesis R_build_scope : forall c w0 w,
    R (pushBuild c w0) w -> R w0 (popBuild w).
Hypothesis E_build_scope : forall c w0 w, E (pushBuild c w0) w -> E w0 w.

(** The parameters for which the [catch] of [_resolveClass] may
    return the default. *)
Variable mayDefault : ReflectionParameter -> Prop.
Hypothesis R_caught : forall p w w',
    mayDefault p -> isBuiltin p = false ->
    isDefaultValueAvailable p = true -> E w w' -> R w w'.

Lemma obeys_new constructor args : obeys R E (new constructor args).
Proof. intros w. apply R_allocate. Qed.

Section Steps.
Variable make' : Value -> Params -> M Value.
Variable build' : Value -> M Value.
Hypothesis make_obeys : forall a p, obeys R E (make' a p).
Hypothesis build_obeys : forall c, obeys R E (build' c).
Hypothesis H_mayDefault :
  forall c, Forall mayDefault (rc_parameters (reflectionClass H c)).

Lemma obeys_callFunction f call parameters :
  obeys R E (callFunction H make' build' f call parameters).
Proof.
  unfold callFunction. destruct f; try apply obeys_throw.
  - apply obeys_invoke.
  - apply obeys_if; auto.
Qed.

Lemma obeys__resolvePrimitive parameter :
  obeys R E (_resolvePrimitive H make' build' parameter).
Proof.
  unfold _resolvePrimitive.
  apply obeys_bind; [apply obeys_reading | intros concrete'].
  apply obeys_if.
  - apply obeys_if; [apply obeys_callFunction | apply obeys_ret].
  - apply obeys_if;
      [apply obeys_ret | apply obeys__unresolvablePrimitive].
Qed.

Lemma obeys__resolveClass parameter :
  mayDefault parameter -> isBuiltin parameter = false ->
  obeys R E (_resolveClass make' parameter).
Proof.
  intros Hmay Hclass. unfold _resolveClass.
  destruct (getClass parameter) as [reflector |];
    [| apply obeys_throw].
  intros w. unfold tryCatch.
  pose proof (make_obeys
                (if pc_isInterface reflector then pc_key reflector
                 else pc_target reflector) (PArr []) w) as Hm.
  destruct (make' _ _ w) as [w1 [a | e |]]; auto.
  destruct (isBindingResolutionError e
            && isDefaultValueAvailable parameter) eqn:Hcatch;
    simpl; auto.
  apply andb_true_iff in Hcatch. destruct Hcatch as [_ Hdefault].
  eapply R_caught; eauto.
Qed.

Lemma obeys__resolveDependencies dependencies :
  Forall mayDefault dependencies ->
  obeys R E (_resolveDependencies H make' build' dependencies).
Proof.
  induction 1 as [| d rest Hd Hrest IH]; simpl.
  - apply obeys_ret.
  - apply obeys_bind; [apply obeys_gets | intros override].
    apply obeys_bind.
    + apply obeys_if; [apply obeys_gets |].
      destruct (isBuiltin d) eqn:Hb.
      * apply obeys__resolvePrimitive.
      * apply obeys__resolveClass; auto.
    + intros v. apply obeys_bind; [exact IH |].
      intros vs. apply obeys_ret.
Qed.

Lemma obeys_build_step concrete' :
  obeys R E (build_step H make' build' concrete').
Proof.
  unfold build_step. apply obeys_if.
  { apply obeys_bind; [apply obeys_gets | intros p].
    apply obeys_callFunction. }
  apply obeys_of_hoare. intros w0.
  set (w1 := pushBuild concrete' w0).
  assert (HJR : forall w w', R w1 w -> R w w' -> R w1 w')
    by (intros; eapply R_trans; eauto).
  assert (HJE : forall w w', R w1 w -> E w w' -> E w0 w').
  { intros w w' HJ HE. eapply E_build_scope.
    eapply RE_trans; [exact HJ | exact HE]. }
  apply hoare_bind with (Q1 := fun _ w => w = w0).
  { intros w Hw. subst w.
    destruct (negb (rc_isInstantiable (reflectionClass H concrete'))).
    - unfold _notInstantiable, mbind, gets, throw. simpl.
      apply R_sub_E, R_refl.
    - simpl. reflexivity. }
  intros ?.
  apply hoare_bind with (Q1 := fun _ w => R w1 w).
  { apply hoare_modify. intros w ->. apply R_refl. }
  intros ?. apply hoare_if; intros Hdeps.
  - apply hoare_bind with (Q1 := fun _ w => R w0 w).
    + apply hoare_modify. intros w HJ.
      eapply R_build_scope. exact HJ.
    + intros ?. eapply hoare_obeys. apply obeys_new.
      * intros; eapply R_trans; eauto.
      * intros; eapply RE_trans; eauto.
  - eapply hoare_bind.
    + eapply hoare_obeys.
      * apply obeys__resolveDependencies. apply H_mayDefault.
      * exact HJR.
      * exact HJE.
    + intros instances.
      apply hoare_bind with (Q1 := fun _ w => R w0 w).
      * apply hoare_modify. intros w HJ.
        eapply R_build_scope. exact HJ.
      * intros ?. eapply hoare_obeys. apply obeys_new.
        -- intros; eapply R_trans; eauto.
        -- intros; eapply RE_trans; eauto.
Qed.

Lemma hoare_resolveFresh fuel abstract parameters needs w0 :
  needs = true
  \/ JsMap.get (_instances (container w0)) abstract = None ->
  hoare (eq w0)
    (resolveFresh H fuel make' build' abstract parameters needs)
    (fun _ => R w0) (E w0).
Proof.
  intros Hpre. unfold resolveFresh.
  set (w1 := pushWith parameters w0).
  assert (HJR : forall w w', R w1 w -> R w w' -> R w1 w')
    by (intros; eapply R_trans; eauto).
  assert (HJE : forall w w', R w1 w -> E w w' -> E w0 w').
  { intros w w' HJ HE. eapply E_with_scope.
    eapply RE_trans; [exact HJ | exact HE]. }
  apply hoare_bind with (Q1 := fun _ w => R w1 w).
  { apply hoare_modify. intros w Hw. subst w. apply R_refl. }
  intros ?. eapply hoare_bind.
  { eapply hoare_obeys; [| exact HJR | exact HJE].
    apply obeys_reading. }
  intros concrete'. eapply hoare_bind.
  { eapply hoare_obeys; [| exact HJR | exact HJE].
    apply obeys_if; auto. }
  intros object. eapply hoare_bind.
  { eapply hoare_obeys; [| exact HJR | exact HJE].
    apply obeys__getExtenders. }
  intros extenders. eapply hoare_bind.
  { eapply hoare_obeys; [| exact HJR | exact HJE].
    apply obeys_applyExtenders. }
  intros object'.
  apply hoare_bind
    with (Q1 := fun sh w =>
            R w1 w /\ sh = isShared (container w) abstract).
  { intros w HJ. simpl. auto. }
  intros sh.
  apply hoare_bind with (Q1 := fun _ w => R w1 w).
  { apply hoare_if; intros Hcond.
    - apply hoare_modify. intros w [HJ Hsh].
      apply andb_true_iff in Hcond. destruct Hcond as [Hshared Hneeds].
      apply R_setInstance; auto.
      + destruct Hpre as [-> | Hnone]; [discriminate | exact Hnone].
      + rewrite <- Hsh. exact Hshared.
    - apply hoare_ret. intros w [HJ _]. exact HJ. }
  intros ?. eapply hoare_bind.
  { eapply hoare_obeys; [| exact HJR | exact HJE].
    apply obeys__fireResolvingCallbacks. }
  intros ?. apply hoare_bind with (Q1 := fun _ w => R w1 w).
  { apply hoare_modify. intros w HJ.
    apply R_markResolved. exact HJ. }
  intros ?. apply hoare_bind with (Q1 := fun _ w => R w0 w).
  { apply hoare_modify. intros w HJ.
    eapply R_with_scope. exact HJ. }
  intros ?. apply hoare_ret. auto.
Qed.

Lemma obeys__resolve_step fuel abstract parameters :
  obeys R E (_resolve_step H fuel make' build' abstract parameters).
Proof.
  apply obeys_of_hoare. intros w0. unfold _resolve_step.
  apply hoare_bind with (Q1 := fun _ w => w = w0).
  { intros w Hw. subst w. unfold getAliasM.
    destruct (getAlias fuel (container w0) abstract); auto. }
  intros a.
  apply hoare_bind with (Q1 := fun _ w => w = w0).
  { intros w ->. unfold reading.
    destruct (_getContextualConcrete (container w0) a); auto. }
  intros ctx.
  apply hoare_bind
    with (Q1 := fun cached w =>
            w = w0
            /\ cached = JsMap.get (_instances (container w0)) a).
  { intros w ->. simpl. auto. }
  intros cached.
  destruct cached as [inst |].
  - apply hoare_if; intros Hneeds.
    + apply hoare_ret. intros w [-> _]. apply R_refl.
    + intros w [-> Hc]. apply hoare_resolveFresh; auto.
      left. apply negb_false_iff in Hneeds. exact Hneeds.
  - intros w [-> Hc]. apply hoare_resolveFresh; auto.
Qed.
End Steps.

Lemma engine_obeys fuel :
  (forall c, Forall mayDefault (rc_parameters (reflectionClass H c))) ->
  (forall a p, obeys R E (_resolve H fuel a p))
  /\ (forall c, obeys R E (build H fuel c)).
Proof.
  intros Hmay. induction fuel as [| n [IHr IHb]]; simpl.
  - split; intros; apply obeys_outOfFuel.
  - split; intros.
    + apply obeys__resolve_step; auto.
    + apply obeys_build_step; auto.
Qed.
Lemma obeys_make fuel a p :
  (forall c, Forall mayDefault (rc_parameters (reflectionClass H c))) ->
  obeys R E (make H fuel a p).
Proof. intros Hmay. apply (@engine_obeys fuel Hmay). Qed.

Lemma obeys__rebound fuel abstract :
  (forall c, Forall mayDefault (rc_parameters (reflectionClass H c))) ->
  obeys R E (_rebound H fuel abstract).
Proof.
  intros Hmay. unfold _rebound.
  apply obeys_bind; [apply obeys_make; exact Hmay | intros inst].
  apply obeys_bind; [apply obeys_gets | intros callbacks].
  apply obeys_forEach. intros cb.
  apply obeys_bind; [apply obeys_invoke | intros; apply obeys_ret].
Qed.

End Obeys.

(** ** The relations the engine obeys *)

(** From here on [H] is a host: user functions that do not act on the
    container.  The statements about user code in general name a
    [Program]. *)
Implicit Types H : Host.

(** The functions of a host obey every relation that holds of a state
    and itself. *)
Lemma hosted_obeys (R E : World -> World -> Prop) H :
  (forall w, R w w) -> (forall w w', R w w' -> E w w') ->
  forall c, obeys R E (perform H c).
Proof.
  intros Hrefl Hsub c w. simpl. destruct (run H c); simpl; auto.
Qed.

Lemma invoke_hosted H c w :
  invoke H c w
  = (logCall c w,
     match run H c with
     | Returns v => Ok v
     | Throws e => Throw e
     end).
Proof. unfold invoke. simpl. destruct (run H c); reflexivity. Qed.

Lemma sameRegistries_refl c : sameRegistries c c.
Proof. unfold sameRegistries; intuition congruence. Qed.

Lemma sameRegistries_trans c1 c2 c3 :
  sameRegistries c1 c2 -> sameRegistries c2 c3 -> sameRegistries c1 c3.
Proof. unfold sameRegistries; intuition congruence. Qed.

Lemma evolves_refl w : evolves w w.
Proof.
  split; [apply sameRegistries_refl |].
  split; exists []; rewrite app_nil_r; reflexivity.
Qed.

Lemma evolves_trans w1 w2 w3 : evolves w1 w2 -> evolves w2 w3 -> evolves w1 w3.
Proof.
  intros (Hr1 & [o1 Hh1] & [c1 Hc1]) (Hr2 & [o2 Hh2] & [c2 Hc2]).
  split; [eapply sameRegistries_trans; eauto |].
  split.
  - exists (o1 ++ o2). rewrite Hh2, Hh1, app_assoc. reflexivity.
  - exists (c1 ++ c2). rewrite Hc2, Hc1, app_assoc. reflexivity.
Qed.

Lemma evolves_step w w' :
  sameRegistries (container w) (container w') ->
  heap w' = heap w -> calls w' = calls w -> evolves w w'.
Proof.
  intros Hr Hh Hc. split; [exact Hr |].
  split; exists []; rewrite app_nil_r; assumption.
Qed.

Lemma evolves_after w0 w w' :
  evolves w0 w ->
  sameRegistries (container w) (container w') ->
  heap w' = heap w -> calls w' = calls w -> evolves w0 w'.
Proof.
  intros H0 Hr Hh Hc. eapply evolves_trans; [exact H0 |].
  apply evolves_step; assumption.
Qed.

Lemma evolves_before w0 w0' w :
  evolves w0' w ->
  sameRegistries (container w0) (container w0') ->
  heap w0' = heap w0 -> calls w0' = calls w0 -> evolves w0 w.
Proof.
  intros H0 Hr Hh Hc. eapply evolves_trans; [| exact H0].
  apply evolves_step; assumption.
Qed.

Lemma evolves_logCall w c : evolves w (logCall c w).
Proof.
  split; [same_registries |].
  split; simpl; [exists []; rewrite app_nil_r | exists [c]]; reflexivity.
Qed.

Lemma evolves_allocate w o : evolves w (allocate o w).
Proof.
  split; [same_registries |].
  split; simpl; [exists [o] | exists []; rewrite app_nil_r]; reflexivity.
Qed.

Lemma evolves_markResolved w0 w abstract :
  evolves w0 w -> evolves w0 (markResolved abstract w).
Proof. intros Hw. eapply evolves_after; eauto. same_registries. Qed.

Lemma evolves_setInstance w0 w abstract object :
  JsMap.get (_instances (container w0)) abstract = None ->
  evolves w0 w -> evolves w0 (setInstance abstract object w).
Proof. intros _ Hw. eapply evolves_after; eauto. same_registries. Qed.

Lemma evolves_with_scope p w0 w :
  evolves (pushWith p w0) w -> evolves w0 (popWith w).
Proof.
  intros Hw.
  eapply evolves_after; [eapply evolves_before; [exact Hw | ..] | ..];
    try reflexivity; same_registries.
Qed.

Lemma evolves_with_pushed p w0 w : evolves (pushWith p w0) w -> evolves w0 w.
Proof.
  intros Hw. eapply evolves_before; [exact Hw | ..];
    try reflexivity; same_registries.
Qed.

Lemma evolves_build_scope c w0 w :
  evolves (pushBuild c w0) w -> evolves w0 (popBuild w).
Proof.
  intros Hw.
  eapply evolves_after; [eapply evolves_before; [exact Hw | ..] | ..];
    try reflexivity; same_registries.
Qed.

Lemma evolves_build_pushed c w0 w :
  evolves (pushBuild c w0) w -> evolves w0 w.
Proof.
  intros Hw. eapply evolves_before; [exact Hw | ..];
    try reflexivity; same_registries.
Qed.

Lemma anyParameter (H : Program) :
  forall c, Forall (fun _ => True) (rc_parameters (reflectionClass H c)).
Proof. intros c. apply Forall_forall. auto. Qed.

(** The registries, the heap and the log of calls only grow or stay
    through [make] and [build], whatever the outcome. *)
Lemma engine_evolves H fuel :
  (forall a p, obeys evolves evolves (_resolve H fuel a p))
  /\ (forall c, obeys evolves evolves (build H fuel c)).
Proof.
  apply engine_obeys with (mayDefault := fun _ => True);
    [ exact evolves_refl | exact evolves_trans | auto | exact evolves_trans
    | exact evolves_logCall
    | apply hosted_obeys; [exact evolves_refl | auto]
    | exact evolves_allocate
    | exact evolves_markResolved
    | intros; apply evolves_setInstance; assumption
    | exact evolves_with_scope | exact evolves_with_pushed
    | exact evolves_build_scope | exact evolves_build_pushed
    | auto | apply anyParameter ].
Qed.

Lemma make_evolves H fuel a p w :
  evolves w (fst (make H fuel a p w)).
Proof.
  pose proof (proj1 (engine_evolves H fuel) a p w) as Hm.
  unfold make. destruct (_resolve H fuel a p w) as [w' [v | e |]]; auto.
Qed.

Lemma build_evolves H fuel c w :
  evolves w (fst (build H fuel c w)).
Proof.
  pose proof (proj2 (engine_evolves H fuel) c w) as Hm.
  destruct (build H fuel c w) as [w' [v | e |]]; auto.
Qed.

(** *** The stacks *)

Lemma extends_refl w : extends w w.
Proof. split; exists []; rewrite app_nil_r; reflexivity. Qed.

Lemma extends_trans w1 w2 w3 : extends w1 w2 -> extends w2 w3 -> extends w1 w3.
Proof.
  intros ([x1 Hx1] & [y1 Hy1]) ([x2 Hx2] & [y2 Hy2]). split.
  - exists (x1 ++ x2). rewrite Hx2, Hx1, app_assoc. reflexivity.
  - exists (y1 ++ y2). rewrite Hy2, Hy1, app_assoc. reflexivity.
Qed.

Lemma extends_same w w' :
  _with (container w') = _with (container w) ->
  _buildStack (container w') = _buildStack (container w) ->
  extends w w'.
Proof.
  intros Hw Hb. split; exists []; rewrite app_nil_r; assumption.
Qed.

Lemma removelast_push (A : Type) (l : list A) (x : A) (rest : list A) :
  removelast ((l ++ [x]) ++ rest) = l ++ removelast (x :: rest).
Proof.
  rewrite <- app_assoc. simpl.
  rewrite removelast_app by discriminate. reflexivity.
Qed.

(** Whatever the outcome of [make] or [build], no frame that was on a
    stack before the call is missing after it, when the user functions
    take none off. *)
Lemma program_extends (P : Program) fuel :
  usersOnlyPush P ->
  (forall a p, obeys extends extends (_resolve P fuel a p))
  /\ (forall c, obeys extends extends (build P fuel c)).
Proof.
  intros Husers.
  apply engine_obeys with (mayDefault := fun _ => True).
  - apply extends_refl.
  - apply extends_trans.
  - auto.
  - apply extends_trans.
  - intros w c. apply extends_same; reflexivity.
  - exact Husers.
  - intros w o. apply extends_same; reflexivity.
  - intros w0 w abstract Hw. eapply extends_trans; [exact Hw |].
    apply extends_same; reflexivity.
  - intros w0 w abstract object _ _ Hw. eapply extends_trans; [exact Hw |].
    apply extends_same; reflexivity.
  - intros p w0 w ([xs Hx] & [ys Hy]). simpl in Hx, Hy. split; simpl.
    + rewrite Hx, removelast_push. eauto.
    + eauto.
  - intros p w0 w ([xs Hx] & [ys Hy]). simpl in Hx, Hy. split.
    + rewrite Hx, <- app_assoc. eauto.
    + eauto.
  - intros c w0 w ([xs Hx] & [ys Hy]). simpl in Hx, Hy. split; simpl.
    + eauto.
    + rewrite Hy, removelast_push. eauto.
  - intros c w0 w ([xs Hx] & [ys Hy]). simpl in Hx, Hy. split.
    + eauto.
    + rewrite Hy, <- app_assoc. eauto.
  - auto.
  - intros c. apply Forall_forall. auto.
Qed.

Lemma hosted_usersOnlyPush H : usersOnlyPush H.
Proof.
  unfold usersOnlyPush. apply hosted_obeys; [apply extends_refl | auto].
Qed.

Lemma engine_extends H fuel :
  (forall a p, obeys extends extends (_resolve H fuel a p))
  /\ (forall c, obeys extends extends (build H fuel c)).
Proof. apply program_extends, hosted_usersOnlyPush. Qed.

Lemma sameStacks_refl w : sameStacks w w.
Proof. split; reflexivity. Qed.

Lemma sameStacks_trans w1 w2 w3 :
  sameStacks w1 w2 -> sameStacks w2 w3 -> sameStacks w1 w3.
Proof. unfold sameStacks; intuition congruence. Qed.

(** When no class-typed parameter has a default and the user functions
    that return leave the stacks as they found them, a [make] or [build]
    that returns leaves both stacks as it found them. *)
Lemma program_restores (P : Program) fuel :
  noClassDefaults P -> usersRestore P ->
  (forall a p, obeys sameStacks anyWorlds (_resolve P fuel a p))
  /\ (forall c, obeys sameStacks anyWorlds (build P fuel c)).
Proof.
  intros Hno Husers.
  apply engine_obeys with (mayDefault := noClassDefault).
  - apply sameStacks_refl.
  - apply sameStacks_trans.
  - exact (fun _ _ _ => I).
  - exact (fun _ _ _ _ _ => I).
  - intros w c. split; reflexivity.
  - exact Husers.
  - intros w o. split; reflexivity.
  - intros w0 w abstract [Hw Hb]. split; simpl; assumption.
  - intros w0 w abstract object _ _ [Hw Hb]. split; simpl; assumption.
  - intros p w0 w [Hw Hb]. simpl in Hw, Hb. split; simpl.
    + rewrite Hw. apply removelast_last.
    + exact Hb.
  - exact (fun _ _ _ _ => I).
  - intros c w0 w [Hw Hb]. simpl in Hw, Hb. split; simpl.
    + exact Hw.
    + rewrite Hb. apply removelast_last.
  - exact (fun _ _ _ _ => I).
  - intros p w w' Hp Hclass Hdefault _. rewrite (Hp Hclass) in Hdefault.
    discriminate.
  - exact Hno.
Qed.

Lemma hosted_usersRestore H : usersRestore H.
Proof.
  unfold usersRestore. apply hosted_obeys; [apply sameStacks_refl | exact (fun _ _ _ => I)].
Qed.

(** The sample classes of [strictReflection] have no default values. *)
Lemma strictReflection_noClassDefault c :
  Forall noClassDefault (rc_parameters (strictReflection c)).
Proof.
  unfold strictReflection.
  destruct c; try constructor.
  repeat match goal with
         | |- context [String.eqb ?a ?b] => destruct (String.eqb a b)
         end;
    repeat constructor; unfold noClassDefault; simpl; auto; discriminate.
Qed.

(** *** The instance cache *)

Lemma keepsInstance_refl A v w : keepsInstance A v w w.
Proof. unfold keepsInstance; auto. Qed.

Lemma keepsInstance_trans A v w1 w2 w3 :
  keepsInstance A v w1 w2 -> keepsInstance A v w2 w3 ->
  keepsInstance A v w1 w3.
Proof. unfold keepsInstance; auto. Qed.

(** A cached instance is never replaced by a resolution. *)
Lemma engine_keepsInstance A v H fuel :
  (forall a p,
      obeys (keepsInstance A v) (keepsInstance A v) (_resolve H fuel a p))
  /\ (forall c,
         obeys (keepsInstance A v) (keepsInstance A v) (build H fuel c)).
Proof.
  apply engine_obeys with (mayDefault := fun _ => True).
  - apply keepsInstance_refl.
  - apply keepsInstance_trans.
  - auto.
  - apply keepsInstance_trans.
  - intros w c Hget. exact Hget.
  - apply hosted_obeys; [apply keepsInstance_refl | auto].
  - intros w o Hget. exact Hget.
  - intros w0 w abstract Hw Hget. apply Hw, Hget.
  - intros w0 w abstract object Hnone _ Hw Hget.
    destruct (Value_eq_dec abstract A) as [-> | Hne].
    + congruence.
    + simpl. rewrite JsMap_get_set_other by exact Hne. auto.
  - intros p w0 w Hw Hget. apply Hw, Hget.
  - intros p w0 w Hw Hget. apply Hw, Hget.
  - intros c w0 w Hw Hget. apply Hw, Hget.
  - intros c w0 w Hw Hget. apply Hw, Hget.
  - auto.
  - intros c. apply Forall_forall. auto.
Qed.

Lemma make_keepsInstance H fuel a p w A v :
  JsMap.get (_instances (container w)) A = Some v ->
  JsMap.get (_instances (container (fst (make H fuel a p w)))) A = Some v.
Proof.
  intros Hget.
  pose proof (proj1 (engine_keepsInstance A v H fuel) a p w) as Hm.
  unfold make. destruct (_resolve H fuel a p w) as [w' [x | e |]];
    simpl; auto.
Qed.

(** *** Callbacks only write the log *)

Lemma onlyCalls_refl w : onlyCalls w w.
Proof. split; reflexivity. Qed.

Lemma onlyCalls_trans w1 w2 w3 :
  onlyCalls w1 w2 -> onlyCalls w2 w3 -> onlyCalls w1 w3.
Proof. unfold onlyCalls; intuition congruence. Qed.

Lemma applyExtenders_onlyCalls H extenders object :
  obeys onlyCalls onlyCalls (applyExtenders H extenders object).
Proof.
  apply obeys_applyExtenders.
  - apply onlyCalls_refl.
  - apply onlyCalls_trans.
  - apply onlyCalls_trans.
  - intros w c; split; reflexivity.
  - apply hosted_obeys; [apply onlyCalls_refl | auto].
Qed.

Lemma _fireResolvingCallbacks_onlyCalls H abstract object :
  obeys onlyCalls onlyCalls (_fireResolvingCallbacks H abstract object).
Proof.
  apply obeys__fireResolvingCallbacks.
  - apply onlyCalls_refl.
  - apply onlyCalls_trans.
  - auto.
  - apply onlyCalls_trans.
  - intros w c; split; reflexivity.
  - apply hosted_obeys; [apply onlyCalls_refl | auto].
Qed.

Lemma applyExtenders_evolves H extenders object :
  obeys evolves evolves (applyExtenders H extenders object).
Proof.
  apply obeys_applyExtenders;
    first [ exact evolves_refl | exact evolves_trans | exact evolves_logCall
          | apply hosted_obeys; [exact evolves_refl | auto] ].
Qed.

Lemma _fireResolvingCallbacks_evolves H abstract object :
  obeys evolves evolves (_fireResolvingCallbacks H abstract object).
Proof.
  apply obeys__fireResolvingCallbacks;
    first [ exact evolves_refl | exact evolves_trans | exact evolves_logCall
          | apply hosted_obeys; [exact evolves_refl | auto]
          | auto ].
Qed.

Lemma _rebound_evolves H fuel abstract w :
  evolves w (fst (_rebound H fuel abstract w)).
Proof.
  assert (Hr : obeys evolves evolves (_rebound H fuel abstract)).
  { apply obeys__rebound with (mayDefault := fun _ => True);
      [ exact evolves_refl | exact evolves_trans | auto
      | exact evolves_trans
      | exact evolves_logCall
      | apply hosted_obeys; [exact evolves_refl | auto]
      | exact evolves_allocate
      | exact evolves_markResolved
    | intros; apply evolves_setInstance; assumption
      | exact evolves_with_scope | exact evolves_with_pushed
      | exact evolves_build_scope | exact evolves_build_pushed
      | auto | apply anyParameter ]. }
  specialize (Hr w).
  destruct (_rebound H fuel abstract w) as [w' [v | e |]]; auto.
Qed.

(* ================================================================== *)
(** * Properties of the container *)
(* ================================================================== *)

(** ** Unbinding *)

(** C9.  [unbind(A)] deletes A's binding record, cached instance and
    resolved flag, and nothing else: the other keys of these three maps,
    the alias map, the reverse-alias index and every other member are
    as before.  So an identifier that was an alias is still an alias
    after [unbind], and [bound] and [has] still answer true for it. *)
Theorem unbind_leaves_aliases (w : World) (A : Value) :
  let w' := fst (unbind A w) in
  snd (unbind A w) = Ok tt
  /\ (_bindings (container w') = JsMap.delete (_bindings (container w)) A
      /\ _instances (container w')
         = JsMap.delete (_instances (container w)) A
      /\ _resolved (container w')
         = JsMap.delete (_resolved (container w)) A)
  /\ (forall B, B <> A ->
        JsMap.get (_bindings (container w')) B
        = JsMap.get (_bindings (container w)) B
        /\ JsMap.get (_instances (container w')) B
           = JsMap.get (_instances (container w)) B
        /\ JsMap.get (_resolved (container w')) B
           = JsMap.get (_resolved (container w)) B)
  /\ (_aliases (container w') = _aliases (container w)
      /\ _abstractAliases (container w') = _abstractAliases (container w))
  /\ (_contextual (container w') = _contextual (container w)
      /\ _methodBindings (container w') = _methodBindings (container w)
      /\ _extenders (container w') = _extenders (container w)
      /\ _tags (container w') = _tags (container w)
      /\ _buildStack (container w') = _buildStack (container w)
      /\ _with (container w') = _with (container w)
      /\ _reboundCallbacks (container w') = _reboundCallbacks (container w)
      /\ _globalResolvingCallbacks (container w')
         = _globalResolvingCallbacks (container w)
      /\ _globalAfterResolvingCallbacks (container w')
         = _globalAfterResolvingCallbacks (container w)
      /\ _resolvingCallbacks (container w')
         = _resolvingCallbacks (container w)
      /\ _afterResolvingCallbacks (container w')
         = _afterResolvingCallbacks (container w)
      /\ heap w' = heap w /\ calls w' = calls w)
  /\ (isAlias (container w) A = true ->
      isAlias (container w') A = true
      /\ bound (container w') A = true
      /\ has (container w') A = true).
Proof.
  cbv zeta. unfold unbind, mbind, modify; simpl.
  split; [reflexivity |].
  split; [repeat split |].
  split.
  { intros B HB. repeat split; apply JsMap_get_delete_other; congruence. }
  split; [split; reflexivity |].
  split; [repeat split |].
  intros Halias. unfold has, bound, isAlias in *; simpl.
  rewrite Halias. repeat split; auto using orb_true_r.
Qed.

(** An alias that is also bound stays known to [bound] after its binding
    is removed. *)
Lemma unbind_alias_example :
  let w := fst ((alias (VStr "a") (VStr "b") ;;
                 bind strictHost 3 (VStr "a") (VClass "Repository") false)
                  emptyWorld) in
  isAlias (container (fst (unbind (VStr "b") w))) (VStr "b") = true
  /\ bound (container (fst (unbind (VStr "b") w))) (VStr "b") = true.
Proof.
  cbv zeta.
  apply (proj2 (proj2 (proj2 (proj2 (proj2
           (unbind_leaves_aliases
              (fst ((alias (VStr "a") (VStr "b") ;;
                     bind strictHost 3 (VStr "a") (VClass "Repository")
                       false) emptyWorld))
              (VStr "b"))))))).
  reflexivity.
Defined.

(** ** Aliasing an identifier to itself *)

(** The container's [alias] records [a -> a] and returns. *)
Lemma container_alias_accepts_self :
  snd (alias (VStr "a") (VStr "a") emptyWorld) = Ok tt
  /\ _aliases (container (fst (alias (VStr "a") (VStr "a") emptyWorld)))
     = [(VStr "a", VStr "a")]
  /\ _aliases (container emptyWorld) = [].
Proof. repeat split. Qed.

(** C2, as the code has it.  The alias registry [Aliaser] rejects
    [alias(a, a)] when it is registered: a [LogicError], the registry
    unchanged.  The container's own [alias] records the self-alias and
    returns; there the [LogicError] is raised later, by every [getAlias]
    of [a]. *)
Theorem self_alias_fault (a : Value) :
  (forall r : Aliaser.Aliaser,
      Aliaser.alias a a r = (r, Throw (LogicError a)))
  /\ (forall w : World,
         snd (alias a a w) = Ok tt
         /\ JsMap.get (_aliases (container (fst (alias a a w)))) a = Some a
         /\ forall fuel, 0 < fuel ->
              getAlias fuel (container (fst (alias a a w))) a
              = Throw (LogicError a)).
Proof.
  split.
  - intros r. unfold Aliaser.alias. rewrite equals_refl. reflexivity.
  - intros w. unfold alias, mbind, modify; simpl.
    split; [reflexivity |].
    split; [apply JsMap_get_set_same |].
    intros fuel Hfuel. destruct fuel as [| n]; [lia |]. simpl.
    rewrite JsMap_get_set_same, equals_refl. reflexivity.
Qed.

(** ** Primitive parameters *)

(** C10.  When the contextual override found for a primitive parameter
    is falsy ([undefined] when there is none, but also [0], the empty
    string, [false] or [null]), [_resolvePrimitive] goes on as if there
    were no override: the outcome is the one the descriptor alone
    decides, the same as with the contextual store emptied.  A default
    that is [null] or [undefined] is not available, and the parameter
    then fails with the unresolvable-dependency
    [BindingResolutionError]. *)
Theorem falsy_override_and_null_default (H : Host)
    (make' : Value -> Params -> M Value) (build' : Value -> M Value)
    (p : ReflectionParameter) (w : World) (override : Value) :
  _getContextualConcrete (container w) (VStr (getName p)) = Ok override ->
  truthy override = false ->
  _resolvePrimitive H make' build' p w
  = (if isDefaultValueAvailable p then ret (getDefaultValue p)
     else _unresolvablePrimitive p) w
  /\ snd (_resolvePrimitive H make' build' p w)
     = snd (_resolvePrimitive H make' build' p (clearContextual w))
  /\ (isNullOrUndefined (value (_descriptor p)) = true ->
      isClass (_target p) = true ->
      isDefaultValueAvailable p = false
      /\ _resolvePrimitive H make' build' p w
         = (w, Throw (BindingResolutionError
                        (UnresolvableDependency (getName p) (_target p))))).
Proof.
  intros Hfound Hfalsy.
  assert (Hrun : _resolvePrimitive H make' build' p w
                 = (if isDefaultValueAvailable p
                    then ret (getDefaultValue p)
                    else _unresolvablePrimitive p) w).
  { unfold _resolvePrimitive.
    erewrite mbind_reading; [| exact Hfound].
    rewrite Hfalsy. reflexivity. }
  split; [exact Hrun |].
  split.
  - rewrite Hrun.
    unfold _resolvePrimitive at 1.
    erewrite mbind_reading; [| apply _getContextualConcrete_cleared].
    simpl.
    destruct (isDefaultValueAvailable p); [reflexivity |].
    unfold _unresolvablePrimitive.
    destruct (getDeclaringClass p); reflexivity.
  - intros Hnull Hclass.
    assert (Hdefault : isDefaultValueAvailable p = false)
      by (unfold isDefaultValueAvailable; rewrite Hnull; reflexivity).
    split; [exact Hdefault |].
    rewrite Hrun, Hdefault.
    unfold _unresolvablePrimitive, getDeclaringClass. rewrite Hclass.
    reflexivity.
Qed.

(** The override [0] for [dpi], which has no default: an unresolvable
    dependency. *)
Lemma falsy_override_witness :
  _getContextualConcrete (container printerWorld)
    (VStr (getName dpiOfPrinter)) = Ok (VNum 0)
  /\ _resolvePrimitive strictHost (make strictHost 3) (build strictHost 3)
       dpiOfPrinter printerWorld
     = (printerWorld,
        Throw (BindingResolutionError
                 (UnresolvableDependency "dpi" (VClass "Printer")))).
Proof.
  split; [reflexivity |].
  apply (proj2 (proj2 (falsy_override_and_null_default strictHost
                         (make strictHost 3) (build strictHost 3)
                         dpiOfPrinter printerWorld eq_refl eq_refl)));
    reflexivity.
Defined.

(** ** Binding *)

Lemma JsMap_has_delete_same (K V : Type) `{JsKey K} (m : JsMap K V) k :
  JsMap.has (JsMap.delete m k) k = false.
Proof. unfold JsMap.has. rewrite JsMap_get_delete_same. reflexivity. Qed.

Lemma resolved_after_store fuel abstract concrete1 shared' w :
  resolved fuel abstract (storeBinding abstract concrete1 shared' w)
  = (storeBinding abstract concrete1 shared' w,
     Ok (JsMap.has (_resolved (container w)) abstract)).
Proof.
  unfold resolved, mbind, gets, isAlias; simpl.
  rewrite !JsMap_has_delete_same. simpl.
  rewrite JsMap_has_delete_same, orb_false_r. reflexivity.
Qed.

(** [bind], once the concrete to register is known: the record is stored
    and, when the abstract carries the resolved flag, the rebound
    callbacks are fired. *)
Lemma bind_run H fuel abstract concrete' concrete1 shared' w :
  (isNullOrUndefined concrete' = false /\ concrete1 = concrete')
  \/ (isNullOrUndefined concrete' = true
      /\ isInstantiable abstract = true /\ concrete1 = abstract) ->
  bind H fuel abstract concrete' shared' w
  = (if JsMap.has (_resolved (container w)) abstract
     then _rebound H fuel abstract else ret tt)
      (storeBinding abstract concrete1 shared' w).
Proof.
  intros Hc. unfold bind.
  assert (Hpick :
            (if isNullOrUndefined concrete' && isInstantiable abstract
             then ret abstract
             else if isNullOrUndefined concrete'
                  then throw BindingError else ret concrete')
            = ret concrete1).
  { destruct Hc as [[Hn ->] | (Hn & Hi & ->)]; rewrite Hn; simpl;
      [reflexivity | rewrite Hi; reflexivity]. }
  rewrite Hpick, mbind_modify, mbind_ret, mbind_modify.
  match goal with
  | |- mbind _ _ ?W = _ =>
      change W with (storeBinding abstract concrete1 shared' w)
  end.
  erewrite mbind_run; [| apply resolved_after_store].
  reflexivity.
Qed.

(** C5.  [bind(abstract)] with the concrete left out.  When the abstract
    is instantiable, the record stored under it has the closure of the
    abstract bound to itself as its concrete, whatever the rebound
    notification does afterwards, and the call returns normally when
    the abstract had not been resolved.  When the abstract is not
    instantiable, the call throws a [BindingError] and the bindings are
    what they were. *)
Theorem bind_without_concrete (H : Host) (fuel : nat) (abstract : Value)
    (shared' : bool) (w : World) :
  let r := bind H fuel abstract VUndefined shared' w in
  (isInstantiable abstract = true ->
   JsMap.get (_bindings (container (fst r))) abstract
   = Some (mkBinding (_getClosure abstract abstract) shared')
   /\ (JsMap.has (_resolved (container w)) abstract = false ->
       snd r = Ok tt))
  /\ (isInstantiable abstract = false ->
      snd r = Throw BindingError
      /\ _bindings (container (fst r)) = _bindings (container w)).
Proof.
  cbv zeta. split; intros Hinst.
  - rewrite (@bind_run H fuel abstract VUndefined abstract shared' w)
      by (right; auto).
    assert (Hstored :
              JsMap.get
                (_bindings
                   (container (storeBinding abstract abstract shared' w)))
                abstract
              = Some (mkBinding (_getClosure abstract abstract) shared')).
    { simpl. rewrite JsMap_get_set_same. unfold bindingFor.
      rewrite Hinst. reflexivity. }
    destruct (JsMap.has (_resolved (container w)) abstract).
    + split; [| discriminate].
      pose proof (_rebound_evolves H fuel abstract
                    (storeBinding abstract abstract shared' w))
        as (Hreg & _).
      destruct Hreg as (_ & Hb & _). rewrite Hb. exact Hstored.
    + split; [exact Hstored | reflexivity].
  - unfold bind, mbind; simpl. rewrite Hinst. simpl. auto.
Qed.

(** [bind(Repository)]: the class bound to itself. *)
Lemma bind_without_concrete_witness :
  JsMap.get
    (_bindings
       (container
          (fst (bind strictHost 3 (VClass "Repository") VUndefined false
                  emptyWorld))))
    (VClass "Repository")
  = Some (mkBinding
            (VClosure (VClass "Repository") (VClass "Repository")) false)
  /\ snd (bind strictHost 3 (VStr "repository") VUndefined false
            emptyWorld)
     = Throw BindingError.
Proof.
  split.
  - apply (proj1 (bind_without_concrete strictHost 3 (VClass "Repository")
                    false emptyWorld)).
    reflexivity.
  - apply (proj2 (bind_without_concrete strictHost 3 (VStr "repository")
                    false emptyWorld)).
    reflexivity.
Defined.

(** ** Canonical identifiers *)

Lemma getAlias_canonical fuel c x y :
  getAlias fuel c x = Ok y -> JsMap.get (_aliases c) y = None.
Proof.
  revert x. induction fuel as [| n IH]; intros x; simpl; [discriminate |].
  destruct (JsMap.get (_aliases c) x) as [t |] eqn:Hget.
  - destruct (equals t x); [discriminate | apply IH].
  - intros Hok. inversion Hok; subst. exact Hget.
Qed.

Lemma getAlias_fixed fuel c y :
  JsMap.get (_aliases c) y = None -> 0 < fuel -> getAlias fuel c y = Ok y.
Proof.
  intros Hget Hfuel. destruct fuel as [| n]; [lia |]. simpl.
  rewrite Hget. reflexivity.
Qed.

Lemma clos_trans_incl (A : Type) (R1 R2 : A -> A -> Prop) :
  (forall a b, R1 a b -> R2 a b) ->
  forall a b, clos_trans A R1 a b -> clos_trans A R2 a b.
Proof.
  intros Hincl a b Hab. induction Hab as [a b Hstep | a b c _ IH1 _ IH2].
  - apply t_step. auto.
  - eapply t_trans; eauto.
Qed.

Lemma aliasEdge_delete c z a b :
  aliasEdge (set_aliases (JsMap.delete (_aliases c) z) c) a b ->
  aliasEdge c a b.
Proof.
  unfold aliasEdge; simpl. destruct (Value_eq_dec z a) as [-> | Hne].
  - rewrite JsMap_get_delete_same. discriminate.
  - rewrite JsMap_get_delete_other by exact Hne. auto.
Qed.

Lemma acyclic_delete c z :
  acyclic c -> acyclic (set_aliases (JsMap.delete (_aliases c) z) c).
Proof.
  intros Hacyclic a Hloop. apply (Hacyclic a).
  eapply clos_trans_incl; [| exact Hloop].
  intros x y. apply aliasEdge_delete.
Qed.

(** Removing an alias that the chain from [x] never meets changes
    nothing for [x]. *)
Lemma getAlias_delete fuel c z x :
  x <> z ->
  (forall y, clos_trans Value (aliasEdge c) x y -> y <> z) ->
  getAlias fuel (set_aliases (JsMap.delete (_aliases c) z) c) x
  = getAlias fuel c x.
Proof.
  revert x. induction fuel as [| n IH]; intros x Hx Hchain; simpl; auto.
  rewrite JsMap_get_delete_other by congruence.
  destruct (JsMap.get (_aliases c) x) as [t |] eqn:Hget; auto.
  destruct (equals t x); auto.
  assert (Hedge : clos_trans Value (aliasEdge c) x t)
    by (apply t_step; exact Hget).
  apply IH.
  - apply Hchain. exact Hedge.
  - intros y Hty. apply Hchain. eapply t_trans; eauto.
Qed.

(** In a graph without cycles the chain from any identifier ends within
    as many hops as there are aliases. *)
Lemma getAlias_terminates n :
  forall c, List.length (_aliases c) <= n -> acyclic c ->
  forall x fuel, n < fuel -> exists y, getAlias fuel c x = Ok y.
Proof.
  induction n as [| n IH]; intros c Hlen Hacyclic x fuel Hfuel;
    (destruct fuel as [| f]; [lia |]); simpl.
  - destruct (_aliases c) as [| e rest] eqn:Hal; [| simpl in Hlen; lia].
    simpl. eauto.
  - destruct (JsMap.get (_aliases c) x) as [t |] eqn:Hget; [| eauto].
    assert (Hedge : clos_trans Value (aliasEdge c) x t)
      by (apply t_step; exact Hget).
    destruct (equals t x) eqn:Heq.
    { apply equals_true in Heq. subst t. destruct (Hacyclic x Hedge). }
    apply equals_false in Heq.
    destruct (IH (set_aliases (JsMap.delete (_aliases c) x) c)) with
      (x := t) (fuel := f) as [y Hy].
    + simpl. pose proof (JsMap_delete_shrinks (_aliases c) x Hget). lia.
    + apply acyclic_delete. exact Hacyclic.
    + lia.
    + exists y. rewrite <- Hy. symmetry. apply getAlias_delete.
      * exact Heq.
      * intros z Htz ->. apply (Hacyclic x). eapply t_trans; eauto.
Qed.

(** C6.  In a container whose alias graph has no cycle, [getAlias] of
    any identifier returns, and [getAlias] of what it returns is that
    same identifier: [getAlias(getAlias(x)) = getAlias(x)]. *)
Theorem getAlias_idempotent (c : Container) (x : Value) (fuel : nat) :
  acyclic c -> List.length (_aliases c) < fuel ->
  exists y, getAlias fuel c x = Ok y /\ getAlias fuel c y = Ok y.
Proof.
  intros Hacyclic Hfuel.
  destruct (@getAlias_terminates (List.length (_aliases c)) c
              (le_n _) Hacyclic x fuel Hfuel) as [y Hy].
  exists y. split; [exact Hy |].
  apply getAlias_fixed; [| lia].
  eapply getAlias_canonical. exact Hy.
Qed.

Lemma acyclic_of_rank c (rank : Value -> nat) :
  (forall a b, aliasEdge c a b -> rank b < rank a) -> acyclic c.
Proof.
  intros Hrank.
  assert (Hlt : forall a b,
             clos_trans Value (aliasEdge c) a b -> rank b < rank a).
  { intros a b Hab. induction Hab as [a b Hstep | a b d _ IH1 _ IH2].
    - auto.
    - lia. }
  intros a Hloop. apply Hlt in Hloop. lia.
Qed.

Lemma acyclic_aliasWorld : acyclic aliasWorld.
Proof.
  apply acyclic_of_rank
    with (rank := fun v => if equals v (VStr "c") then 2
                           else if equals v (VStr "b") then 1 else 0).
  intros a b. unfold aliasEdge, aliasWorld. simpl.
  destruct (key_eq_dec (VStr "c") a) as [<- | Hc].
  - intros Hb. inversion Hb; subst. vm_compute. lia.
  - destruct (key_eq_dec (VStr "b") a) as [<- | Hb].
    + intros Ha. inversion Ha; subst. vm_compute. lia.
    + discriminate.
Qed.

(** ["c"] is an alias of ["b"], itself an alias of ["a"]. *)
Lemma getAlias_idempotent_witness :
  exists y,
    getAlias 3 aliasWorld (VStr "c") = Ok y
    /\ getAlias 3 aliasWorld y = Ok y.
Proof.
  apply (@getAlias_idempotent aliasWorld (VStr "c") 3 acyclic_aliasWorld).
  simpl. lia.
Defined.

(** ** Class-typed dependencies *)

(** The unresolvable primitive [dpi] of [Printer] does not reach the
    caller building [Report]: [printer] has a default. *)
Lemma unresolvable_primitive_is_swallowed :
  snd (make sampleHost 3 (VClass "Printer") (PArr []) emptyWorld)
  = Throw (BindingResolutionError
             (UnresolvableDependency "dpi" (VClass "Printer")))
  /\ snd (_resolveClass (make sampleHost 3) printerOfReport emptyWorld)
     = Ok (VStr "none")
  /\ snd (make sampleHost 5 (VClass "Report") (PArr []) emptyWorld)
     = Ok (VObj 0 (VClass "Report"))
  /\ heap (fst (make sampleHost 5 (VClass "Report") (PArr []) emptyWorld))
     = [mkObj (VClass "Report") [VStr "none"]].
Proof. vm_compute. repeat split. Qed.

(** C4, as the code has it.  [_resolveClass] makes the declared class
    (the key, for an interface).  What the nested [make] returns is
    returned.  When it throws, the fault is swallowed and the default
    value used if and only if the fault is a [BindingResolutionError] --
    not instantiable, unresolvable primitive or missing parameter type
    alike, from any depth -- and the parameter has a default; a fault of
    another class, and any fault when there is no default, is thrown on
    unchanged, in the state the nested call had reached. *)
Theorem resolveClass_fallback (H : Host) (fuel : nat)
    (p : ReflectionParameter) (reflector : ParameterClass) (w : World) :
  getClass p = Some reflector ->
  let nested :=
    make H fuel
      (if pc_isInterface reflector then pc_key reflector
       else pc_target reflector) (PArr []) w in
  _resolveClass (make H fuel) p w
  = match snd nested with
    | Throw e =>
        if isBindingResolutionError e && isDefaultValueAvailable p
        then (fst nested, Ok (getDefaultValue p))
        else (fst nested, Throw e)
    | _ => nested
    end.
Proof.
  intros Hclass. cbv zeta. unfold _resolveClass, tryCatch.
  rewrite Hclass.
  destruct (make H fuel _ (PArr []) w) as [w' [v | e |]]; simpl; auto.
  destruct (isBindingResolutionError e && isDefaultValueAvailable p);
    reflexivity.
Qed.

(** [Report(printer: Printer = 'none')], with [Printer] failing on its
    primitive [dpi]. *)
Lemma resolveClass_fallback_witness :
  getClass printerOfReport
  = Some (mkParameterClass false (VClass "Printer") (VClass "Printer"))
  /\ _resolveClass (make sampleHost 3) printerOfReport emptyWorld
     = (fst (make sampleHost 3 (VClass "Printer") (PArr []) emptyWorld),
        Ok (VStr "none")).
Proof.
  split; [reflexivity |].
  rewrite (@resolveClass_fallback sampleHost 3 printerOfReport
             (mkParameterClass false (VClass "Printer") (VClass "Printer"))
             emptyWorld eq_refl).
  reflexivity.
Defined.

(** ** Running a resolution *)

Lemma _resolve_S (H : Program) n a p :
  _resolve H (S n) a p
  = _resolve_step H (S n) (_resolve H n) (build H n) a p.
Proof. reflexivity. Qed.

Lemma build_S (H : Program) n c :
  build H (S n) c = build_step H (_resolve H n) (build H n) c.
Proof. reflexivity. Qed.

Lemma getAliasM_not_alias fuel A w :
  isAlias (container w) A = false -> 0 < fuel ->
  getAliasM fuel A w = (w, Ok A).
Proof.
  intros Halias Hfuel. unfold getAliasM.
  rewrite getAlias_fixed; auto. apply JsMap_has_false. exact Halias.
Qed.

Lemma noContextualFor_same c c' A :
  sameRegistries c c' -> noContextualFor c A -> noContextualFor c' A.
Proof.
  intros (Hctx & _ & _ & _ & Hal & _) Hno anchor x Hx.
  rewrite Hctx. apply Hno. rewrite <- Hal. exact Hx.
Qed.

Lemma plainClass_same c c' C :
  sameRegistries c c' -> plainClass c C -> plainClass c' C.
Proof.
  intros Hsame (Hinst & Halias & Hbind & Hext & Hno).
  pose proof Hsame as (_ & Hb & _ & Ha & _ & He & _).
  unfold plainClass, isAlias in *. rewrite Hb, Ha, He.
  repeat split; auto. eapply noContextualFor_same; eauto.
Qed.

Lemma buildsItself_same c c' C :
  sameRegistries c c' -> _buildStack c' = _buildStack c ->
  buildsItself c C -> buildsItself c' C.
Proof.
  intros Hsame Hstack (Hinst & Halias & Hbind & Hext & Hno).
  pose proof Hsame as (_ & Hb & _ & Ha & _ & He & _).
  unfold buildsItself, isAlias in *. rewrite Hb, Ha, He.
  repeat split; auto. eapply noContextualBuild_same; eauto.
Qed.

(** [_resolve] on a canonical identifier to which no contextual binding
    applies. *)
Lemma _resolve_step_direct H n make' build' A p w :
  isAlias (container w) A = false ->
  noContextualBuild (container w) A ->
  _resolve_step H (S n) make' build' A p w
  = match JsMap.get (_instances (container w)) A with
    | Some inst =>
        if Arr_empty p then (w, Ok inst)
        else resolveFresh H (S n) make' build' A p true w
    | None =>
        resolveFresh H (S n) make' build' A p (negb (Arr_empty p)) w
    end.
Proof.
  intros Halias Hno. unfold _resolve_step.
  erewrite mbind_run; [| apply getAliasM_not_alias; [exact Halias | lia]].
  erewrite mbind_reading; [| exact Hno].
  simpl truthy. rewrite orb_false_r, mbind_gets.
  destruct (JsMap.get (_instances (container w)) A) as [inst |];
    destruct (Arr_empty p); reflexivity.
Qed.

Lemma _resolve_step_canonical H n make' build' A p w :
  isAlias (container w) A = false ->
  noContextualFor (container w) A ->
  _resolve_step H (S n) make' build' A p w
  = match JsMap.get (_instances (container w)) A with
    | Some inst =>
        if Arr_empty p then (w, Ok inst)
        else resolveFresh H (S n) make' build' A p true w
    | None =>
        resolveFresh H (S n) make' build' A p (negb (Arr_empty p)) w
    end.
Proof.
  intros Halias Hno. apply _resolve_step_direct; [exact Halias |].
  apply noContextualFor_build. exact Hno.
Qed.

Lemma _getExtenders_not_alias fuel A w :
  isAlias (container w) A = false -> 0 < fuel ->
  _getExtenders fuel A w
  = (w, Ok match JsMap.get (_extenders (container w)) A with
           | Some extenders => extenders
           | None => []
           end).
Proof.
  intros Halias Hfuel. unfold _getExtenders.
  erewrite mbind_run; [| apply getAliasM_not_alias; assumption].
  reflexivity.
Qed.

Lemma _getExtenders_state fuel A w w' extenders :
  _getExtenders fuel A w = (w', Ok extenders) -> w' = w.
Proof.
  unfold _getExtenders, mbind, getAliasM, gets.
  destruct (getAlias fuel (container w) A); intros Hrun;
    inversion Hrun; reflexivity.
Qed.

(** The steps of a resolution that returns. *)
Lemma resolveFresh_Ok (H : Program) fuel make' build' A p needs w w' v :
  resolveFresh H fuel make' build' A p needs w = (w', Ok v) ->
  exists concrete' w2 object extenders w3 w5,
    _getConcrete (container (pushWith p w)) A = Ok concrete'
    /\ (if _isBuildable concrete' A then build' concrete'
        else make' concrete' (PArr [])) (pushWith p w) = (w2, Ok object)
    /\ _getExtenders fuel A w2 = (w2, Ok extenders)
    /\ applyExtenders H extenders object w2 = (w3, Ok v)
    /\ _fireResolvingCallbacks H A v
         (if isShared (container w3) A && negb needs
          then setInstance A v w3 else w3) = (w5, Ok tt)
    /\ w' = popWith (markResolved A w5).
Proof.
  unfold resolveFresh. rewrite mbind_modify.
  fold (pushWith p w). intros Hrun.
  apply mbind_reading_Ok in Hrun.
  destruct Hrun as (concrete' & Hconcrete & Hrun).
  apply mbind_Ok in Hrun. destruct Hrun as (w2 & object & Hbuild & Hrun).
  apply mbind_Ok in Hrun. destruct Hrun as (w2' & extenders & Hext & Hrun).
  pose proof (_getExtenders_state _ _ _ Hext) as ->.
  apply mbind_Ok in Hrun. destruct Hrun as (w3 & v' & Happly & Hrun).
  rewrite mbind_gets in Hrun.
  apply mbind_Ok in Hrun. destruct Hrun as (w4 & [] & Hset & Hrun).
  apply mbind_Ok in Hrun. destruct Hrun as (w5 & [] & Hfire & Hrun).
  rewrite !mbind_modify in Hrun. simpl in Hrun.
  inversion Hrun; subst v' w'; clear Hrun.
  exists concrete', w2, object, extenders, w3, w5. repeat split; auto.
  destruct (isShared (container w3) A && negb needs);
    simpl in Hset; inversion Hset; subst w4; exact Hfire.
Qed.

Lemma applyExtenders_container H extenders object w w' v :
  applyExtenders H extenders object w = (w', Ok v) ->
  container w' = container w /\ heap w' = heap w.
Proof.
  intros Hrun. pose proof (applyExtenders_onlyCalls H extenders object w)
    as Hm.
  rewrite Hrun in Hm. exact Hm.
Qed.

Lemma _fireResolvingCallbacks_container H A object w w' :
  _fireResolvingCallbacks H A object w = (w', Ok tt) ->
  container w' = container w /\ heap w' = heap w.
Proof.
  intros Hrun. pose proof (_fireResolvingCallbacks_onlyCalls H A object w)
    as Hm.
  rewrite Hrun in Hm. exact Hm.
Qed.

(** A [make] of a canonical identifier without cached instance that
    returns has gone through every step of a resolution. *)
Lemma make_uncached_Ok (H : Program) fuel A p w w' v :
  isAlias (container w) A = false ->
  JsMap.get (_instances (container w)) A = None ->
  make H fuel A p w = (w', Ok v) ->
  exists n needs,
    fuel = S n
    /\ resolveFresh H (S n) (_resolve H n) (build H n) A p needs w
       = (w', Ok v).
Proof.
  intros Halias Hnone Hmake. unfold make in Hmake.
  destruct fuel as [| n]; [discriminate |].
  rewrite _resolve_S in Hmake. unfold _resolve_step in Hmake.
  erewrite mbind_run in Hmake;
    [| apply getAliasM_not_alias; [exact Halias | lia]].
  apply mbind_reading_Ok in Hmake. destruct Hmake as (ctx & _ & Hmake).
  rewrite mbind_gets, Hnone in Hmake. eauto.
Qed.

(** The nested call of a resolution only adds to the heap and to the
    log. *)
Lemma inner_evolves H n concrete1 A w w2 object :
  (if _isBuildable concrete1 A then build H n concrete1
   else _resolve H n concrete1 (PArr [])) w = (w2, Ok object) ->
  evolves w w2.
Proof.
  intros Hbuild. destruct (_isBuildable concrete1 A).
  - pose proof (build_evolves H n concrete1 w) as Hb.
    rewrite Hbuild in Hb. exact Hb.
  - pose proof (make_evolves H n concrete1 (PArr []) w) as Hb.
    unfold make in Hb. rewrite Hbuild in Hb. exact Hb.
Qed.

(** A [make] of a shared binding that returns has cached what it
    returns. *)
Lemma make_shared_caches_direct H fuel A concrete' w w1 v1 :
  JsMap.get (_bindings (container w)) A = Some (mkBinding concrete' true) ->
  isAlias (container w) A = false ->
  noContextualBuild (container w) A ->
  make H fuel A (PArr []) w = (w1, Ok v1) ->
  JsMap.get (_instances (container w1)) A = Some v1.
Proof.
  intros Hbind Halias Hno Hmake.
  pose proof (make_evolves H fuel A (PArr []) w) as Hev.
  rewrite Hmake in Hev. simpl in Hev.
  unfold make in Hmake. destruct fuel as [| n]; [discriminate |].
  rewrite _resolve_S, _resolve_step_direct in Hmake by assumption.
  destruct (JsMap.get (_instances (container w)) A) as [inst |] eqn:Hinst.
  - simpl in Hmake. inversion Hmake; subst. exact Hinst.
  - simpl in Hmake. apply resolveFresh_Ok in Hmake.
    destruct Hmake as (concrete1 & w2 & object & extenders & w3 & w5
                       & _ & Hbuild & Hext & Happly & Hfire & ->).
    assert (Hshared : isShared (container w3) A = true).
    { destruct (applyExtenders_container _ _ _ _ Happly) as [Hc3 _].
      assert (Hev2 : evolves (pushWith (PArr []) w) w2)
        by (eapply inner_evolves; exact Hbuild).
      destruct Hev2 as ((_ & Hb2 & _) & _).
      unfold isShared. rewrite Hc3, Hb2. simpl. rewrite Hbind. simpl.
      apply orb_true_r. }
    rewrite Hshared in Hfire. simpl in Hfire.
    destruct (_fireResolvingCallbacks_container _ _ _ _ Hfire) as [Hc5 _].
    simpl. rewrite Hc5. simpl. apply JsMap_get_set_same.
Qed.

Lemma make_shared_caches H fuel A concrete' w w1 v1 :
  JsMap.get (_bindings (container w)) A = Some (mkBinding concrete' true) ->
  isAlias (container w) A = false ->
  noContextualFor (container w) A ->
  make H fuel A (PArr []) w = (w1, Ok v1) ->
  JsMap.get (_instances (container w1)) A = Some v1.
Proof.
  intros Hbind Halias Hno.
  apply make_shared_caches_direct with (concrete' := concrete'); auto.
  apply noContextualFor_build. exact Hno.
Qed.

(** A cached instance is what [make] without parameters returns. *)
Lemma make_cached_direct H fuel A v w :
  JsMap.get (_instances (container w)) A = Some v ->
  isAlias (container w) A = false ->
  noContextualBuild (container w) A ->
  0 < fuel ->
  make H fuel A (PArr []) w = (w, Ok v).
Proof.
  intros Hinst Halias Hno Hfuel. unfold make.
  destruct fuel as [| n]; [lia |].
  rewrite _resolve_S, _resolve_step_direct by assumption.
  rewrite Hinst. reflexivity.
Qed.

Lemma make_cached H fuel A v w :
  JsMap.get (_instances (container w)) A = Some v ->
  isAlias (container w) A = false ->
  noContextualFor (container w) A ->
  0 < fuel ->
  make H fuel A (PArr []) w = (w, Ok v).
Proof.
  intros Hinst Halias Hno Hfuel. apply make_cached_direct; auto.
  apply noContextualFor_build. exact Hno.
Qed.

(** What the extenders make of an object, and what a call that returns
    leaves. *)
Lemma applyExtenders_extended H extenders :
  forall object w w' v,
    applyExtenders H extenders object w = (w', Ok v) ->
    extended H extenders object = Some v.
Proof.
  induction extenders as [| f rest IH]; intros object w w' v; simpl.
  - intros Hrun. inversion Hrun. reflexivity.
  - unfold mbind, returned. rewrite invoke_hosted.
    destruct (run H (CallExtender f object)) as [x | e];
      [| discriminate].
    apply IH.
Qed.

Lemma mbind_invoke (B : Type) H c v (k : Value -> M B) w :
  run H c = Returns v -> mbind (invoke H c) k w = k v (logCall c w).
Proof.
  intros Hrun. unfold mbind. rewrite invoke_hosted, Hrun. reflexivity.
Qed.

(** ** Tags *)

Lemma pushTags_members (g : string) (abstracts : list Value) :
  forall (c : Container) (members : list Value),
    JsMap.get (_tags c) g = Some members ->
    JsMap.get
      (_tags
         (fold_left
            (fun c' abstract =>
               set_tags
                 (JsMap.set (_tags c') g (membersOf c' g ++ [abstract])) c')
            abstracts c)) g
    = Some (members ++ abstracts).
Proof.
  induction abstracts as [| a rest IH]; intros c members Hget; simpl.
  - rewrite app_nil_r. exact Hget.
  - rewrite (IH _ (members ++ [a])).
    + rewrite <- app_assoc. reflexivity.
    + simpl. unfold membersOf. rewrite Hget. apply JsMap_get_set_same.
Qed.

(** After [tag(abstracts, [g])] the members of [g] are the earlier ones
    followed by [abstracts], in order. *)
Lemma tag_members (abstracts : list Value) (g : string) (w : World) :
  JsMap.get (_tags (container (fst (tag abstracts [g] w)))) g
  = Some (membersOf (container w) g ++ abstracts).
Proof.
  unfold tag, modify; simpl. unfold tagOne.
  apply pushTags_members. unfold membersOf, JsMap.has.
  destruct (JsMap.get (_tags (container w)) g) as [members |] eqn:Hget.
  - exact Hget.
  - simpl. apply JsMap_get_set_same.
Qed.

Lemma tagged_members H fuel g w members :
  JsMap.get (_tags (container w)) g = Some members ->
  tagged H fuel g w = makeAll H fuel members w.
Proof.
  intros Hget. unfold tagged. rewrite mbind_gets, Hget. reflexivity.
Qed.

Lemma makeAll_two H fuel A B w :
  makeAll H fuel [A; B] w
  = (a <- make H fuel A (PArr []) ;;
     b <- make H fuel B (PArr []) ;;
     ret [a; b]) w.
Proof.
  simpl. unfold mbind.
  destruct (make H fuel A (PArr []) w) as [w1 [a | e |]]; auto.
  destruct (make H fuel B (PArr []) w1) as [w2 [b | e |]]; auto.
Qed.

(** C8.  After [tag(abstracts, [g])], [tagged(g)] makes the members of
    [g] one after the other, the earlier members first and then
    [abstracts], in the order they were registered, and returns the
    results in that order.  For a tag with no earlier member and
    [abstracts = [A, B]] that is [[make(A), make(B)]], [make(A)] run
    first.  [tagged] of a tag that was never registered returns the
    empty list and touches nothing. *)
Theorem tagged_after_tag (H : Host) (fuel : nat) (abstracts : list Value)
    (A B : Value) (g : string) (w : World) :
  tagged H fuel g (fst (tag abstracts [g] w))
  = makeAll H fuel (membersOf (container w) g ++ abstracts)
      (fst (tag abstracts [g] w))
  /\ (JsMap.get (_tags (container w)) g = None ->
      tagged H fuel g (fst (tag [A; B] [g] w))
      = (a <- make H fuel A (PArr []) ;;
         b <- make H fuel B (PArr []) ;;
         ret [a; b]) (fst (tag [A; B] [g] w))
      /\ tagged H fuel g w = (w, Ok [])).
Proof.
  split.
  - apply tagged_members, tag_members.
  - intros Hfresh. split.
    + rewrite (tagged_members H fuel g _ (tag_members [A; B] g w)).
      unfold membersOf. rewrite Hfresh. apply makeAll_two.
    + unfold tagged. rewrite mbind_gets, Hfresh. reflexivity.
Qed.

(** [Service] and [Repository] under the tag ["g"]. *)
Lemma tagged_after_tag_witness :
  JsMap.get (_tags (container emptyWorld)) "g" = None
  /\ tagged strictHost 5 "g"
       (fst (tag [VClass "Service"; VClass "Repository"] ["g"] emptyWorld))
     = (a <- make strictHost 5 (VClass "Service") (PArr []) ;;
        b <- make strictHost 5 (VClass "Repository") (PArr []) ;;
        ret [a; b])
         (fst (tag [VClass "Service"; VClass "Repository"] ["g"]
                 emptyWorld))
  /\ snd (tagged strictHost 5 "g"
            (fst (tag [VClass "Service"; VClass "Repository"] ["g"]
                    emptyWorld)))
     = Ok [VObj 1 (VClass "Service"); VObj 2 (VClass "Repository")]
  /\ tagged strictHost 5 "h" emptyWorld = (emptyWorld, Ok []).
Proof.
  split; [reflexivity |]. split; [| split; reflexivity].
  apply (proj2 (tagged_after_tag strictHost 5 []
                  (VClass "Service") (VClass "Repository") "g" emptyWorld)).
  reflexivity.
Defined.

(** ** Rebinding *)

Lemma logCalls_nil w : logCalls [] w = w.
Proof. destruct w; unfold logCalls; simpl. rewrite app_nil_r. auto. Qed.

Lemma logCalls_cons c cs w : logCalls cs (logCall c w) = logCalls (c :: cs) w.
Proof.
  unfold logCalls, logCall; simpl. rewrite <- app_assoc. reflexivity.
Qed.

(** The loop of [_rebound] calls every callback once, in order, when
    none of them throws. *)
Lemma forEach_rebound H inst callbacks :
  (forall cb, In cb callbacks ->
     exists v, run H (CallRebound cb inst) = Returns v) ->
  forall w,
    forEach callbacks
      (fun callback => invoke H (CallRebound callback inst) ;; ret tt) w
    = (logCalls (map (fun cb => CallRebound cb inst) callbacks) w, Ok tt).
Proof.
  induction callbacks as [| cb rest IH]; intros Hret w; simpl.
  - rewrite logCalls_nil. reflexivity.
  - destruct (Hret cb) as [v Hv]; [left; reflexivity |].
    unfold mbind at 1. unfold mbind at 1. rewrite invoke_hosted, Hv.
    simpl.
    rewrite IH by (intros; apply Hret; right; assumption).
    rewrite logCalls_cons. reflexivity.
Qed.

(** A [make] that is not answered from the instance cache marks what
    it resolved. *)
Lemma make_marks_resolved H fuel A p w w' v :
  isAlias (container w) A = false ->
  Arr_empty p = false \/ JsMap.get (_instances (container w)) A = None ->
  make H fuel A p w = (w', Ok v) ->
  JsMap.has (_resolved (container w')) A = true.
Proof.
  intros Halias Hp Hmake. unfold make in Hmake.
  destruct fuel as [| n]; [discriminate |].
  simpl in Hmake. unfold _resolve_step in Hmake.
  assert (Hcanon : getAliasM (S n) A w = (w, Ok A)).
  { unfold getAliasM. rewrite getAlias_fixed; auto; [| lia].
    apply JsMap_has_false. exact Halias. }
  erewrite mbind_run in Hmake; [| exact Hcanon].
  apply mbind_reading_Ok in Hmake. destruct Hmake as (ctx & _ & Hmake).
  rewrite !mbind_gets in Hmake.
  assert (Hfresh : exists needs,
             resolveFresh H (S n) (_resolve H n) (build H n) A p needs w
             = (w', Ok v)).
  { destruct Hp as [Hp | Hnone].
    - rewrite Hp in Hmake. simpl in Hmake.
      destruct (JsMap.get (_instances (container w)) A); eauto.
    - rewrite Hnone in Hmake. eauto. }
  destruct Hfresh as [needs Hfresh].
  apply resolveFresh_Ok in Hfresh.
  destruct Hfresh as (c1 & w2 & object & extenders & w3 & w5
                      & _ & _ & _ & _ & _ & ->).
  simpl. unfold JsMap.has. rewrite JsMap_get_set_same. reflexivity.
Qed.

(** [rebinding(A, cb)] appends [cb] to the callbacks of A. *)
Lemma rebinding_registers H fuel A cb w :
  isAlias (container w) A = false -> 0 < fuel ->
  _getReboundCallbacks (container (fst (rebinding H fuel A cb w))) A
  = _getReboundCallbacks (container w) A ++ [cb].
Proof.
  intros Halias Hfuel. unfold rebinding.
  assert (Hcanon : getAliasM fuel A w = (w, Ok A)).
  { unfold getAliasM. rewrite getAlias_fixed; auto.
    apply JsMap_has_false. exact Halias. }
  erewrite mbind_run; [| exact Hcanon].
  rewrite mbind_modify, mbind_gets.
  match goal with
  | |- context [if ?b then _ else _] => destruct b
  end.
  - match goal with
    | |- context [make (hosted H) fuel A (PArr []) ?W] =>
        pose proof (make_evolves H fuel A (PArr []) W) as ((_ & _ & _ & _
          & _ & _ & _ & Hcb & _) & _)
    end.
    unfold _getReboundCallbacks at 1. rewrite Hcb. simpl.
    rewrite JsMap_get_set_same. unfold _getReboundCallbacks.
    destruct (JsMap.get (_reboundCallbacks (container w)) A); reflexivity.
  - simpl. unfold _getReboundCallbacks. simpl.
    rewrite JsMap_get_set_same.
    destruct (JsMap.get (_reboundCallbacks (container w)) A); reflexivity.
Qed.

(** A [make] answered from the instance cache, or made through an
    alias, does not give the identifier the resolved flag: [bind] then
    drops the cached instance or the alias and returns without calling
    the rebinding callback.  In [cachedLoggerWorld] and in
    [aliasedLoggerWorld] the callback ["onRebound"] has been registered
    by [rebinding("logger", ...)] and [make("logger")] has returned;
    [bind("logger", Service)] returns and the log of calls stays
    empty. *)
Lemma rebinding_not_fired :
  (snd ((instance strictHost 5 (VStr "logger") (VNum 7) ;;
         rebinding strictHost 5 (VStr "logger") "onRebound" ;;
         make strictHost 5 (VStr "logger") (PArr [])) emptyWorld)
   = Ok (VNum 7)
   /\ _getReboundCallbacks (container cachedLoggerWorld) (VStr "logger")
      = ["onRebound"]
   /\ snd (bind strictHost 7 (VStr "logger") (VClass "Service") false
             cachedLoggerWorld) = Ok tt
   /\ calls (fst (bind strictHost 7 (VStr "logger") (VClass "Service")
                    false cachedLoggerWorld)) = [])
  /\ (snd ((alias (VClass "Repository") (VStr "logger") ;;
            rebinding strictHost 5 (VStr "logger") "onRebound" ;;
            make strictHost 5 (VStr "logger") (PArr [])) emptyWorld)
      = Ok (VObj 0 (VClass "Repository"))
      /\ getAlias 5 (container aliasedLoggerWorld) (VStr "logger")
         = Ok (VClass "Repository")
      /\ _getReboundCallbacks (container aliasedLoggerWorld)
           (VClass "Repository")
         = ["onRebound"]
      /\ snd (bind strictHost 7 (VStr "logger") (VClass "Service") false
                aliasedLoggerWorld) = Ok tt
      /\ calls (fst (bind strictHost 7 (VStr "logger") (VClass "Service")
                       false aliasedLoggerWorld)) = []).
Proof. vm_compute. repeat split; reflexivity. Qed.

(** C7.  A [make(A)] that resolves A itself -- A is no alias, and A has
    no cached instance or the call has parameters, so that it is not
    answered from the instance cache -- and returns, leaves A with the
    resolved flag.  In every state in which A carries that
    flag, [bind(A, concrete)] stores the new record, makes A again
    under it and, when that returns an instance and no callback throws,
    calls every callback registered for A's rebinding exactly once, in
    registration order, with that instance -- all before [bind]
    returns: the log of calls grows by exactly these calls after the
    ones of the resolution. *)
Theorem rebinding_fires_once (H : Host) (fuel0 : nat) (A : Value)
    (p0 : Params) (w0 w1 : World) (v0 : Value) :
  isAlias (container w0) A = false ->
  Arr_empty p0 = false \/ JsMap.get (_instances (container w0)) A = None ->
  make H fuel0 A p0 w0 = (w1, Ok v0) ->
  JsMap.has (_resolved (container w1)) A = true
  /\ (forall fuel concrete' shared' w w2 inst,
         JsMap.has (_resolved (container w)) A = true ->
         isNullOrUndefined concrete' = false ->
         make H fuel A (PArr []) (storeBinding A concrete' shared' w)
         = (w2, Ok inst) ->
         (forall cb, In cb (_getReboundCallbacks (container w) A) ->
            exists v, run H (CallRebound cb inst) = Returns v) ->
         bind H fuel A concrete' shared' w
         = (logCalls
              (map (fun cb => CallRebound cb inst)
                 (_getReboundCallbacks (container w) A)) w2,
            Ok tt)).
Proof.
  intros Halias Hfresh Hmake0.
  split; [eapply make_marks_resolved; eassumption |].
  intros fuel concrete' shared' w w2 inst Hflag Hgiven Hmake Hret.
  rewrite (@bind_run H fuel A concrete' concrete' shared' w)
    by (left; auto).
  rewrite Hflag. unfold _rebound.
  erewrite mbind_run; [| exact Hmake]. rewrite mbind_gets.
  assert (Hsame : _getReboundCallbacks (container w2) A
                  = _getReboundCallbacks (container w) A).
  { pose proof (make_evolves H fuel A (PArr [])
                  (storeBinding A concrete' shared' w)) as (Hreg & _).
    rewrite Hmake in Hreg. simpl in Hreg.
    destruct Hreg as (_ & _ & _ & _ & _ & _ & _ & Hcb & _).
    unfold _getReboundCallbacks. rewrite Hcb. reflexivity. }
  rewrite Hsame. apply forEach_rebound. exact Hret.
Qed.

(** ["logger"], a singleton bound to [Repository], is made, a
    rebinding callback is registered for it, and it is bound anew to
    [Service]: the callback is called once, with the new instance. *)
Lemma rebinding_fires_once_witness :
  let made := fst (make strictHost 5 (VStr "logger") (PArr [])
                     singletonWorld) in
  let w := fst (rebinding strictHost 5 (VStr "logger") "onRebound" made) in
  JsMap.has (_resolved (container made)) (VStr "logger") = true
  /\ _getReboundCallbacks (container w) (VStr "logger") = ["onRebound"]
  /\ calls w = []
  /\ snd (bind strictHost 7 (VStr "logger") (VClass "Service") true w)
     = Ok tt
  /\ calls (fst (bind strictHost 7 (VStr "logger") (VClass "Service") true
                   w))
     = [CallRebound "onRebound" (VObj 2 (VClass "Service"))].
Proof.
  cbv zeta.
  destruct (@rebinding_fires_once strictHost 5 (VStr "logger") (PArr [])
              singletonWorld
              (fst (make strictHost 5 (VStr "logger") (PArr [])
                      singletonWorld))
              (VObj 0 (VClass "Repository")) eq_refl (or_intror eq_refl))
    as [Hflag Hbind].
  - vm_compute. reflexivity.
  - split; [exact Hflag |].
    split; [reflexivity |]. split; [reflexivity |].
    rewrite (Hbind 7 (VClass "Service") true
               (fst (rebinding strictHost 5 (VStr "logger") "onRebound"
                       (fst (make strictHost 5 (VStr "logger") (PArr [])
                               singletonWorld))))
               (fst (make strictHost 7 (VStr "logger") (PArr [])
                       (storeBinding (VStr "logger") (VClass "Service") true
                          (fst (rebinding strictHost 5 (VStr "logger")
                                  "onRebound"
                                  (fst (make strictHost 5 (VStr "logger")
                                          (PArr []) singletonWorld)))))))
               (VObj 2 (VClass "Service")) eq_refl eq_refl).
    + split; reflexivity.
    + vm_compute. reflexivity.
    + intros cb _. exists VUndefined. reflexivity.
Defined.
(** ** Shared bindings *)

Lemma evolves_obeys_make H n a p : obeys evolves evolves (_resolve H n a p).
Proof. apply (engine_evolves H n). Qed.

Lemma evolves_obeys_build H n c : obeys evolves evolves (build H n c).
Proof. apply (engine_evolves H n). Qed.

Lemma _resolveDependencies_evolves H n dependencies w w' instances :
  _resolveDependencies H (_resolve H n) (build H n) dependencies w
  = (w', Ok instances) ->
  evolves w w'.
Proof.
  intros Hrun.
  assert (Hm : obeys evolves evolves
                 (_resolveDependencies H (_resolve H n) (build H n)
                    dependencies)).
  { apply obeys__resolveDependencies with (mayDefault := fun _ => True).
    - apply evolves_refl.
    - apply evolves_trans.
    - auto.
    - apply evolves_trans.
    - apply evolves_logCall.
    - apply hosted_obeys; [apply evolves_refl | auto].
    - auto.
    - apply evolves_obeys_make.
    - apply evolves_obeys_build.
    - apply Forall_forall. auto. }
  specialize (Hm w). rewrite Hrun in Hm. exact Hm.
Qed.

Lemma build_step_class H make' build' C :
  isInstantiable C = true ->
  build_step H make' build' C
  = ((if negb (rc_isInstantiable (reflectionClass H C))
      then _notInstantiable C else ret tt) ;;
     modify (fun c => set_buildStack (_buildStack c ++ [C]) c) ;;
     if Nat.eqb (List.length (rc_parameters (reflectionClass H C))) 0
     then
       modify (fun c => set_buildStack (removelast (_buildStack c)) c) ;;
       new C []
     else
       instances <- _resolveDependencies H make' build'
                      (rc_parameters (reflectionClass H C)) ;;
       modify (fun c => set_buildStack (removelast (_buildStack c)) c) ;;
       new C instances).
Proof. intros Hinst. unfold build_step. rewrite Hinst. reflexivity. Qed.

(** Building a class returns an object allocated by this very call. *)
Lemma build_class_fresh H fuel C w w' v :
  isInstantiable C = true ->
  build H fuel C w = (w', Ok v) ->
  exists r,
    v = VObj r C
    /\ List.length (heap w) <= r /\ r < List.length (heap w').
Proof.
  intros Hinst Hbuild. destruct fuel as [| n]; [discriminate |].
  rewrite build_S, build_step_class in Hbuild by exact Hinst.
  apply mbind_Ok in Hbuild. destruct Hbuild as (wa & [] & Hcheck & Hbuild).
  assert (wa = w) as ->.
  { destruct (negb (rc_isInstantiable (reflectionClass H C))).
    - unfold _notInstantiable in Hcheck. rewrite mbind_gets in Hcheck.
      discriminate.
    - inversion Hcheck; reflexivity. }
  rewrite mbind_modify in Hbuild. fold (pushBuild C w) in Hbuild.
  destruct (Nat.eqb (List.length (rc_parameters (reflectionClass H C))) 0).
  - rewrite mbind_modify in Hbuild. unfold new in Hbuild.
    simpl in Hbuild. inversion Hbuild; subst.
    exists (List.length (heap w)). simpl. rewrite length_app. simpl.
    repeat split; lia.
  - apply mbind_Ok in Hbuild.
    destruct Hbuild as (wc & instances & Hdeps & Hbuild).
    apply _resolveDependencies_evolves in Hdeps.
    destruct Hdeps as (_ & [objs Hheap] & _). simpl in Hheap.
    rewrite mbind_modify in Hbuild. unfold new in Hbuild.
    simpl in Hbuild. inversion Hbuild; subst.
    exists (List.length (heap wc)). simpl.
    rewrite length_app, Hheap, length_app. simpl.
    repeat split; lia.
Qed.

Lemma sameRegistries_pushWith p w :
  sameRegistries (container w) (container (pushWith p w)).
Proof. same_registries. Qed.

Lemma applyExtenders_nil H object w : applyExtenders H [] object w = (w, Ok object).
Proof. reflexivity. Qed.

(** The state a resolution that returns ends in holds the heap its
    last steps found. *)
Lemma resolveFresh_heap H A v needs w3 w5 :
  _fireResolvingCallbacks H A v
    (if isShared (container w3) A && negb needs
     then setInstance A v w3 else w3) = (w5, Ok tt) ->
  heap (popWith (markResolved A w5)) = heap w3.
Proof.
  intros Hfire.
  destruct (_fireResolvingCallbacks_container _ _ _ _ Hfire) as [_ Hheap].
  simpl. rewrite Hheap.
  destruct (isShared (container w3) A && negb needs); reflexivity.
Qed.

(** Making a class that is neither bound nor an alias builds it and
    hands the new object to the extenders of the class, unless the call
    is answered from the instance cache. *)
Lemma make_class_builds_direct H fuel C p w w' v :
  isInstantiable C = true ->
  isAlias (container w) C = false ->
  JsMap.get (_bindings (container w)) C = None ->
  noContextualBuild (container w) C ->
  Arr_empty p = false \/ JsMap.get (_instances (container w)) C = None ->
  make H fuel C p w = (w', Ok v) ->
  exists r w2 w3,
    List.length (heap w) <= r /\ r < List.length (heap w')
    /\ applyExtenders H
         match JsMap.get (_extenders (container w)) C with
         | Some extenders => extenders
         | None => []
         end (VObj r C) w2 = (w3, Ok v).
Proof.
  intros Hinst Halias Hbind Hno Hp Hmake.
  unfold make in Hmake. destruct fuel as [| n]; [discriminate |].
  rewrite _resolve_S, _resolve_step_direct in Hmake by assumption.
  assert (Hfresh :
            exists needs,
              resolveFresh H (S n) (_resolve H n) (build H n) C p needs w
              = (w', Ok v)).
  { destruct Hp as [Hp | Hnone].
    - rewrite Hp in Hmake. simpl negb in Hmake. exists true.
      destruct (JsMap.get (_instances (container w)) C); exact Hmake.
    - rewrite Hnone in Hmake. eauto. }
  clear Hmake. destruct Hfresh as [needs Hfresh].
  apply resolveFresh_Ok in Hfresh.
  destruct Hfresh as (concrete1 & w2 & object & extenders & w3 & w5
                      & Hc1 & Hbuild & Hextenders & Happly & Hfire & ->).
  rewrite (resolveFresh_heap _ _ _ _ _ Hfire).
  assert (Hconcrete : _getConcrete (container (pushWith p w)) C = Ok C).
  { rewrite _getConcrete_direct.
    - simpl. rewrite Hbind. reflexivity.
    - eapply noContextualBuild_same;
        [apply sameRegistries_pushWith | reflexivity | exact Hno]. }
  rewrite Hconcrete in Hc1. inversion Hc1; subst concrete1; clear Hc1.
  unfold _isBuildable in Hbuild.
  rewrite equals_refl in Hbuild. simpl in Hbuild.
  pose proof (build_evolves H n C (pushWith p w)) as Hev.
  rewrite Hbuild in Hev. simpl in Hev.
  destruct Hev as ((_ & _ & _ & Hal2 & _ & Hex2 & _) & _).
  simpl in Hal2, Hex2.
  destruct (build_class_fresh _ _ _ _ Hinst Hbuild) as (r & -> & Hr & Hr2).
  rewrite _getExtenders_not_alias in Hextenders;
    [| unfold isAlias in *; rewrite Hal2; exact Halias | lia].
  rewrite Hex2 in Hextenders.
  inversion Hextenders; subst extenders.
  destruct (applyExtenders_container _ _ _ _ Happly) as [_ Hheap3].
  exists r, w2, w3. rewrite Hheap3.
  split; [exact Hr |]. split; [exact Hr2 | exact Happly].
Qed.

Lemma make_class_builds H fuel C p w w' v :
  isInstantiable C = true ->
  isAlias (container w) C = false ->
  JsMap.get (_bindings (container w)) C = None ->
  noContextualFor (container w) C ->
  Arr_empty p = false \/ JsMap.get (_instances (container w)) C = None ->
  make H fuel C p w = (w', Ok v) ->
  exists r w2 w3,
    List.length (heap w) <= r /\ r < List.length (heap w')
    /\ applyExtenders H
         match JsMap.get (_extenders (container w)) C with
         | Some extenders => extenders
         | None => []
         end (VObj r C) w2 = (w3, Ok v).
Proof.
  intros Hinst Halias Hbind Hno.
  apply make_class_builds_direct; auto.
  apply noContextualFor_build. exact Hno.
Qed.

(** Making a class the container builds itself returns a new object of
    the class, unless the call is answered from the instance cache. *)
Lemma make_self_builds H fuel C p w w' v :
  buildsItself (container w) C ->
  Arr_empty p = false \/ JsMap.get (_instances (container w)) C = None ->
  make H fuel C p w = (w', Ok v) ->
  exists r,
    v = VObj r C /\ List.length (heap w) <= r /\ r < List.length (heap w').
Proof.
  intros (Hinst & Halias & Hbind & Hext & Hno) Hp Hmake.
  eapply make_class_builds_direct in Hmake; eauto.
  destruct Hmake as (r & w2 & w3 & Hr & Hr2 & Happly).
  rewrite Hext, applyExtenders_nil in Happly.
  inversion Happly; subst. eauto.
Qed.

(** Making a class the container knows nothing about builds it, unless
    the call is answered from the instance cache. *)
Lemma make_plain_builds H fuel C p w w' v :
  plainClass (container w) C ->
  Arr_empty p = false \/ JsMap.get (_instances (container w)) C = None ->
  make H fuel C p w = (w', Ok v) ->
  exists r,
    v = VObj r C /\ List.length (heap w) <= r /\ r < List.length (heap w').
Proof.
  intros Hplain. apply make_self_builds.
  apply plainClass_buildsItself. exact Hplain.
Qed.

Lemma last_push (A : Type) (l : list A) (x d : A) : last (l ++ [x]) d = x.
Proof. apply last_last. Qed.

(** The extenders a resolution of A applies. *)
Lemma resolveFresh_extended H fuel make' build' A p needs w w' v :
  isAlias (container w) A = false ->
  resolveFresh H fuel make' build' A p needs w = (w', Ok v) ->
  (forall concrete1 w2 object,
      (if _isBuildable concrete1 A then build' concrete1
       else make' concrete1 (PArr [])) (pushWith p w) = (w2, Ok object) ->
      evolves (pushWith p w) w2) ->
  exists concrete1 w2 object,
    _getConcrete (container (pushWith p w)) A = Ok concrete1
    /\ (if _isBuildable concrete1 A then build' concrete1
        else make' concrete1 (PArr [])) (pushWith p w) = (w2, Ok object)
    /\ extended H
         match JsMap.get (_extenders (container w)) A with
         | Some extenders => extenders
         | None => []
         end object = Some v
    /\ heap w' = heap w2
    /\ exists cs, calls w' = calls w2 ++ cs.
Proof.
  intros Halias Hfresh Hinner.
  assert (Hfuel : 0 < fuel).
  { destruct fuel as [| n]; [| lia].
    apply resolveFresh_Ok in Hfresh.
    destruct Hfresh as (c1 & w2 & object & extenders & w3 & w5
                        & _ & _ & Hext & _).
    unfold _getExtenders, mbind, getAliasM in Hext. simpl in Hext.
    discriminate. }
  apply resolveFresh_Ok in Hfresh.
  destruct Hfresh as (concrete1 & w2 & object & extenders & w3 & w5
                      & Hc1 & Hbuild & Hextenders & Happly & Hfire & ->).
  pose proof (Hinner _ _ _ Hbuild) as Hev2.
  destruct Hev2 as ((_ & _ & _ & Hal2 & _ & Hex2 & _) & _).
  simpl in Hal2, Hex2.
  rewrite _getExtenders_not_alias in Hextenders;
    [| unfold isAlias in *; rewrite Hal2; exact Halias | exact Hfuel].
  rewrite Hex2 in Hextenders. inversion Hextenders; subst extenders.
  exists concrete1, w2, object.
  split; [exact Hc1 |]. split; [exact Hbuild |].
  split; [eapply applyExtenders_extended; exact Happly |].
  rewrite (resolveFresh_heap _ _ _ _ _ Hfire).
  destruct (applyExtenders_container _ _ _ _ Happly) as [_ Hheap3].
  split; [exact Hheap3 |].
  pose proof (applyExtenders_evolves H
                match JsMap.get (_extenders (container w)) A with
                | Some extenders => extenders
                | None => []
                end object w2) as Hev3.
  rewrite Happly in Hev3. destruct Hev3 as (_ & _ & [cs3 Hcalls3]).
  pose proof (_fireResolvingCallbacks_evolves H A v
                (if isShared (container w3) A && negb needs
                 then setInstance A v w3 else w3)) as Hev5.
  rewrite Hfire in Hev5. destruct Hev5 as (_ & _ & [cs5 Hcalls5]).
  exists (cs3 ++ cs5). simpl. rewrite Hcalls5.
  replace (calls (if isShared (container w3) A && negb needs
                  then setInstance A v w3 else w3))
    with (calls w3)
    by (destruct (isShared (container w3) A && negb needs); reflexivity).
  rewrite Hcalls3, app_assoc. reflexivity.
Qed.

(** A [make] of a canonical identifier that is not answered from the
    cache is a resolution. *)
Lemma make_fresh H fuel A p w w' v :
  isAlias (container w) A = false ->
  noContextualBuild (container w) A ->
  Arr_empty p = false \/ JsMap.get (_instances (container w)) A = None ->
  make H fuel A p w = (w', Ok v) ->
  exists n needs,
    fuel = S n
    /\ resolveFresh H (S n) (_resolve H n) (build H n) A p needs w
       = (w', Ok v).
Proof.
  intros Halias Hno Hp Hmake.
  unfold make in Hmake. destruct fuel as [| n]; [discriminate |].
  rewrite _resolve_S, _resolve_step_direct in Hmake by assumption.
  exists n. destruct Hp as [Hp | Hnone].
  - rewrite Hp in Hmake. simpl negb in Hmake. exists true.
    split; [reflexivity |].
    destruct (JsMap.get (_instances (container w)) A); exact Hmake.
  - rewrite Hnone in Hmake. eauto.
Qed.

Lemma _getConcrete_bound w A b p :
  JsMap.get (_bindings (container w)) A = Some b ->
  noContextualBuild (container w) A ->
  _getConcrete (container (pushWith p w)) A = Ok (concrete b).
Proof.
  intros Hbind Hno. rewrite _getConcrete_direct.
  - simpl. rewrite Hbind. reflexivity.
  - eapply noContextualBuild_same;
      [apply sameRegistries_pushWith | reflexivity | exact Hno].
Qed.

(** Making an abstract bound to a class by [bind] builds the class and
    hands the new object to the extenders of the abstract, unless the
    call is answered from the instance cache. *)
Lemma make_closure_extended H fuel A C sh p w w' v :
  JsMap.get (_bindings (container w)) A
  = Some (mkBinding (_getClosure A C) sh) ->
  isInstantiable C = true ->
  isAlias (container w) A = false ->
  noContextualBuild (container w) A ->
  C = A \/ buildsItself (container w) C ->
  Arr_empty p = false
  \/ (JsMap.get (_instances (container w)) A = None
      /\ JsMap.get (_instances (container w)) C = None) ->
  make H fuel A p w = (w', Ok v) ->
  exists r,
    List.length (heap w) <= r /\ r < List.length (heap w')
    /\ extended H
         match JsMap.get (_extenders (container w)) A with
         | Some extenders => extenders
         | None => []
         end (VObj r C) = Some v.
Proof.
  intros Hbind Hinst Halias Hno Hplain Hp Hmake.
  apply make_fresh in Hmake; [| assumption | assumption
                              | destruct Hp as [Hp | [Hn _]]; auto].
  destruct Hmake as (n & needs & -> & Hfresh).
  apply resolveFresh_extended in Hfresh;
    [| exact Halias | intros; eapply inner_evolves; eassumption].
  destruct Hfresh as (concrete1 & w2 & object & Hc1 & Hbuild & Hext
                      & Hheap & _).
  rewrite (@_getConcrete_bound _ _ _ p Hbind Hno) in Hc1.
  inversion Hc1; subst concrete1; clear Hc1. simpl concrete in Hbuild.
  unfold _isBuildable in Hbuild.
  simpl in Hbuild. rewrite orb_true_r in Hbuild.
  (* the closure runs *)
  assert (Hobject : exists r,
             object = VObj r C
             /\ List.length (heap w) <= r /\ r < List.length (heap w2)).
  { destruct n as [| n']; [discriminate |].
    rewrite build_S in Hbuild. unfold build_step in Hbuild.
    simpl in Hbuild. rewrite mbind_gets in Hbuild.
    unfold _getLastParameterOverride in Hbuild. simpl in Hbuild.
    rewrite last_push in Hbuild.
    destruct (equals A C) eqn:HAC.
    - exact (build_class_fresh _ _ _ _ Hinst Hbuild).
    - apply equals_false in HAC.
      destruct Hplain as [-> | Hplain]; [congruence |].
      change (List.length (heap w))
        with (List.length (heap (pushWith p w))).
      eapply make_self_builds; [| | exact Hbuild].
      + eapply buildsItself_same;
          [apply sameRegistries_pushWith | reflexivity | exact Hplain].
      + destruct Hp as [Hp | [_ HnoneC]];
          [left; exact Hp | right; exact HnoneC]. }
  destruct Hobject as (r & -> & Hr & Hr2).
  exists r. rewrite Hheap. repeat split; assumption.
Qed.

(** Making an abstract bound to a class by [bind] builds the class,
    unless the call is answered from the instance cache. *)
Lemma make_closure_builds H fuel A C sh p w w' v :
  JsMap.get (_bindings (container w)) A
  = Some (mkBinding (_getClosure A C) sh) ->
  isInstantiable C = true ->
  isAlias (container w) A = false ->
  noContextualFor (container w) A ->
  JsMap.get (_extenders (container w)) A = None ->
  C = A \/ plainClass (container w) C ->
  Arr_empty p = false
  \/ (JsMap.get (_instances (container w)) A = None
      /\ JsMap.get (_instances (container w)) C = None) ->
  make H fuel A p w = (w', Ok v) ->
  exists r,
    v = VObj r C /\ List.length (heap w) <= r /\ r < List.length (heap w').
Proof.
  intros Hbind Hinst Halias Hno Hext Hplain Hp Hmake.
  eapply make_closure_extended in Hmake; eauto;
    [| apply noContextualFor_build; exact Hno
     | destruct Hplain as [-> | Hplain];
       [left; reflexivity
       | right; apply plainClass_buildsItself; exact Hplain]].
  destruct Hmake as (r & Hr & Hr2 & Hv).
  rewrite Hext in Hv. simpl in Hv. inversion Hv; subst. eauto.
Qed.

(** Making an abstract bound to a factory calls the factory with the
    parameters of the call and hands what it returns to the extenders
    of the abstract, unless the call is answered from the instance
    cache. *)
Lemma make_factory_calls H fuel A f sh p w w' v :
  JsMap.get (_bindings (container w)) A = Some (mkBinding (VFn f) sh) ->
  isAlias (container w) A = false ->
  noContextualBuild (container w) A ->
  Arr_empty p = false \/ JsMap.get (_instances (container w)) A = None ->
  make H fuel A p w = (w', Ok v) ->
  exists built cs,
    run H (CallFactory f p) = Returns built
    /\ calls w' = calls w ++ CallFactory f p :: cs
    /\ extended H
         match JsMap.get (_extenders (container w)) A with
         | Some extenders => extenders
         | None => []
         end built = Some v.
Proof.
  intros Hbind Halias Hno Hp Hmake.
  apply make_fresh in Hmake; [| assumption | assumption | assumption].
  destruct Hmake as (n & needs & -> & Hfresh).
  apply resolveFresh_extended in Hfresh;
    [| exact Halias | intros; eapply inner_evolves; eassumption].
  destruct Hfresh as (concrete1 & w2 & object & Hc1 & Hbuild & Hext
                      & _ & [cs Hcalls]).
  rewrite (@_getConcrete_bound _ _ _ p Hbind Hno) in Hc1.
  inversion Hc1; subst concrete1; clear Hc1. simpl concrete in Hbuild.
  unfold _isBuildable in Hbuild.
  simpl in Hbuild. rewrite orb_true_r in Hbuild.
  destruct n as [| n']; [discriminate |].
  rewrite build_S in Hbuild. unfold build_step in Hbuild.
  simpl in Hbuild. rewrite mbind_gets in Hbuild.
  unfold _getLastParameterOverride in Hbuild. simpl in Hbuild.
  rewrite !last_push in Hbuild.
  destruct (run H (CallFactory f p)) as [built | e] eqn:Hrun;
    [| discriminate].
  simpl in Hbuild. inversion Hbuild; subst w2 object.
  exists built, cs. split; [reflexivity |]. split; [| exact Hext].
  rewrite Hcalls. simpl. rewrite <- app_assoc. reflexivity.
Qed.

(** A [make] that returns without having caught a fault on the way
    finds the contextual bindings as the call before it did. *)
Lemma make_keeps_noContextualBuild H fuel a p w w1 v A :
  noClassDefaults H ->
  make H fuel a p w = (w1, Ok v) ->
  noContextualBuild (container w) A ->
  noContextualBuild (container w1) A.
Proof.
  intros Hdefaults Hmake Hno.
  pose proof (make_evolves H fuel a p w) as Hev.
  rewrite Hmake in Hev. simpl in Hev. destruct Hev as (Hreg & _).
  pose proof (proj1 (program_restores fuel Hdefaults
                       (hosted_usersRestore H)) a p w) as Hstacks.
  unfold make in Hmake. rewrite Hmake in Hstacks.
  destruct Hstacks as [_ Hstack].
  eapply noContextualBuild_same; [exact Hreg | exact Hstack | exact Hno].
Qed.



(** Where the build stack is not empty the lookup can answer.
    [Report(printer: Printer = 'none')] is made with the default of its
    parameter, after the fault of [Printer] was caught; that leaves
    [Report] on the build stack.  The lookup under the keys
    [[Report, Report]] then answers the Map that holds the contextual
    bindings of [Report], and the next [make(Report)] passes the cache
    by and throws. *)
Lemma leftover_frame_passes_cache_by :
  let made := fst (make sampleHost 6 (VClass "Report") (PArr [])
                     reportWorld) in
  snd (make sampleHost 6 (VClass "Report") (PArr []) reportWorld)
  = Ok (VObj 0 (VClass "Report"))
  /\ JsMap.get (_instances (container made)) (VClass "Report")
     = Some (VObj 0 (VClass "Report"))
  /\ _buildStack (container made) = [VClass "Report"]
  /\ _getContextualConcrete (container made) (VClass "Report")
     = Ok (VMap 0)
  /\ exists e,
       snd (make sampleHost 6 (VClass "Report") (PArr []) made) = Throw e.
Proof. vm_compute. repeat split; eauto. Qed.
(** ** The two stacks *)


Lemma extends_logCall w c : extends w (logCall c w).
Proof. apply extends_same; reflexivity. Qed.

Ltac extends_rules users :=
  first [ exact extends_refl | exact extends_trans
        | exact extends_logCall | exact users
        | exact (fun (w w' : World) (x : extends w w') => x) ].

Section KeepsFrames.
Variable P : Program.
Hypothesis users : usersOnlyPush P.
Variable make' : Value -> Params -> M Value.
Variable build' : Value -> M Value.
Hypothesis make_extends : forall a q, obeys extends extends (make' a q).
Hypothesis build_extends : forall c, obeys extends extends (build' c).

(** Past its own push, a resolution that does not return has popped
    nothing. *)
Lemma resolveFresh_keeps_frame fuel A p needs w0 :
  hoare (eq w0) (resolveFresh P fuel make' build' A p needs)
    (fun _ _ => True) (extends (pushWith p w0)).
Proof.
  unfold resolveFresh.
  assert (Hstep : forall (B : Type) (m : M B),
             obeys extends extends m ->
             hoare (extends (pushWith p w0)) m
               (fun _ => extends (pushWith p w0))
               (extends (pushWith p w0))).
  { intros B m Hm. eapply hoare_obeys; [exact Hm | |];
      intros w w' H1 H2; eapply extends_trans; eauto. }
  apply hoare_bind with (Q1 := fun _ => extends (pushWith p w0)).
  { apply hoare_modify. intros w <-. apply extends_refl. }
  intros ?. eapply hoare_bind.
  { apply Hstep. apply obeys_reading; extends_rules users. }
  intros concrete'. eapply hoare_bind.
  { apply Hstep. destruct (_isBuildable concrete' A); auto. }
  intros object. eapply hoare_bind.
  { apply Hstep. apply obeys__getExtenders; extends_rules users. }
  intros extenders. eapply hoare_bind.
  { apply Hstep. apply obeys_applyExtenders; extends_rules users. }
  intros object'. eapply hoare_bind; [apply hoare_gets |].
  intros sh. eapply hoare_bind.
  { apply hoare_if with (Q := fun _ => extends (pushWith p w0));
      intros _.
    - apply hoare_modify. intros w Hw.
      eapply extends_trans; [exact Hw |].
      apply extends_same; reflexivity.
    - apply hoare_ret. auto. }
  intros ?. eapply hoare_bind.
  { apply Hstep.
    apply obeys__fireResolvingCallbacks; extends_rules users. }
  intros ?.
  apply hoare_bind with (Q1 := fun _ _ => True).
  { apply hoare_modify. auto. }
  intros ?. apply hoare_bind with (Q1 := fun _ _ => True).
  { apply hoare_modify. auto. }
  intros ?. apply hoare_ret. auto.
Qed.

(** Past its own push, a building of a class that does not return
    has popped nothing. *)
Lemma build_keeps_frame C w0 :
  isInstantiable C = true ->
  rc_isInstantiable (reflectionClass P C) = true ->
  hoare (eq w0) (build_step P make' build' C)
    (fun _ _ => True) (extends (pushBuild C w0)).
Proof.
  intros Hclass Hreflect. unfold build_step.
  rewrite Hclass, Hreflect. simpl negb. cbv iota.
  apply hoare_bind with (Q1 := fun _ w => w = w0).
  { apply hoare_ret. auto. }
  intros ?.
  apply hoare_bind with (Q1 := fun _ => extends (pushBuild C w0)).
  { apply hoare_modify. intros w ->. apply extends_refl. }
  intros ?.
  destruct (Nat.eqb (List.length (rc_parameters (reflectionClass P C)))
              0).
  - apply hoare_bind with (Q1 := fun _ _ => True).
    { apply hoare_modify. auto. }
    intros ?. intros w ?. simpl. exact I.
  - eapply hoare_bind.
    { eapply hoare_obeys.
      - apply obeys__resolveDependencies
          with (mayDefault := fun _ => True);
          try extends_rules users; auto.
        apply Forall_forall. auto.
      - intros w w' H1 H2. eapply extends_trans; eauto.
      - intros w w' H1 H2. eapply extends_trans; eauto. }
    intros instances.
    apply hoare_bind with (Q1 := fun _ _ => True).
    { apply hoare_modify. auto. }
    intros ?. intros w ?. simpl. exact I.
Qed.
End KeepsFrames.

(** A [make] that throws has either thrown before it pushed anything,
    from [getAlias] or from the lookup of a contextual binding, and
    then the state is untouched, or left its frame of parameters on the
    stack. *)
Lemma make_keeps_frame (P : Program) fuel a p w w' e :
  usersOnlyPush P ->
  make P fuel a p w = (w', Throw e) ->
  (w' = w
   /\ (getAlias fuel (container w) a = Throw e
       \/ exists A,
            getAlias fuel (container w) a = Ok A
            /\ _getContextualConcrete (container w) A = Throw e))
  \/ exists frames,
       _with (container w') = _with (container w) ++ p :: frames.
Proof.
  intros Husers Hmake. unfold make in Hmake.
  destruct fuel as [| n]; [discriminate |].
  rewrite _resolve_S in Hmake. unfold _resolve_step in Hmake.
  unfold mbind at 1 in Hmake. unfold getAliasM in Hmake.
  destruct (getAlias (S n) (container w) a) as [A | e0 |] eqn:Halias;
    [| inversion Hmake; subst; left; auto | discriminate].
  unfold mbind at 1 in Hmake. unfold reading in Hmake.
  destruct (_getContextualConcrete (container w) A) as [ctx | e0 |]
    eqn:Hctx;
    [| inversion Hmake; subst; left; split; [reflexivity |];
       right; eauto
     | discriminate].
  rewrite mbind_gets in Hmake.
  assert (Hfresh : forall needs,
             resolveFresh P (S n) (_resolve P n) (build P n) A p needs w
             = (w', Throw e) ->
             exists frames,
               _with (container w') = _with (container w) ++ p :: frames).
  { intros needs Hrun.
    pose proof (@resolveFresh_keeps_frame P Husers (_resolve P n)
                  (build P n)
                  (proj1 (program_extends n Husers))
                  (proj2 (program_extends n Husers))
                  (S n) A p needs w w eq_refl) as Hkeep.
    rewrite Hrun in Hkeep. destruct Hkeep as [[frames Hframes] _].
    exists frames. rewrite Hframes. simpl.
    rewrite <- app_assoc. reflexivity. }
  right.
  destruct (JsMap.get (_instances (container w)) A) as [inst |].
  - destruct (negb (negb (Arr_empty p) || truthy ctx));
      [discriminate | eapply Hfresh; exact Hmake].
  - eapply Hfresh. exact Hmake.
Qed.

(** A [build] of a class that throws after the class was found
    instantiable has left the class on the build stack. *)
Lemma build_keeps_class (P : Program) fuel C w w' e :
  usersOnlyPush P ->
  isInstantiable C = true ->
  rc_isInstantiable (reflectionClass P C) = true ->
  build P fuel C w = (w', Throw e) ->
  exists concretes,
    _buildStack (container w') = _buildStack (container w) ++ C :: concretes.
Proof.
  intros Husers Hclass Hreflect Hbuild.
  destruct fuel as [| n]; [discriminate |].
  rewrite build_S in Hbuild.
  pose proof (@build_keeps_frame P Husers (_resolve P n) (build P n)
                (proj1 (program_extends n Husers))
                (proj2 (program_extends n Husers))
                C w Hclass Hreflect w eq_refl) as Hkeep.
  rewrite Hbuild in Hkeep. destruct Hkeep as [_ [concretes Hstack]].
  exists concretes. rewrite Hstack. simpl.
  rewrite <- app_assoc. reflexivity.
Qed.


(** The factory that calls back leaves the stacks as it found them. *)
Lemma callingBack_users :
  usersOnlyPush callingBack /\ usersRestore callingBack.
Proof.
  assert (Hquiet : forall R : World -> World -> Prop,
             (forall w, R w w) ->
             forall E, obeys R E (ret VUndefined)).
  { intros R Hrefl E w. simpl. apply Hrefl. }
  assert (Hmake : obeys extends extends
                    (make strictHost 5 (VClass "Repository") (PArr []))
                  /\ obeys sameStacks anyWorlds
                       (make strictHost 5 (VClass "Repository") (PArr []))).
  { split.
    - apply (engine_extends strictHost 5).
    - apply (@program_restores strictHost 5).
      + exact strictReflection_noClassDefault.
      + apply hosted_usersRestore. }
  split; intros c; simpl;
    repeat match goal with
           | |- context [match ?x with _ => _ end] => destruct x
           end;
    first [ apply Hquiet; first [exact extends_refl | exact sameStacks_refl]
          | apply Hmake ].
Qed.


(** A factory that catches the fault of the [make] it calls returns
    with the frames of that [make] left on the stacks: the [make] that
    called the factory returns, and the stacks are not what they
    were. *)
Lemma catching_factory_leaves_frames :
  let w := fst (bind catching 1 (VStr "mailer") (VFn "optional") false
                  emptyWorld) in
  snd (make catching 5 (VStr "mailer") (PArr []) w) = Ok VNull
  /\ _with (container w) = []
  /\ _buildStack (container w) = []
  /\ _with (container (fst (make catching 5 (VStr "mailer") (PArr []) w)))
     = [PArr []; PArr []]
  /\ _buildStack
       (container (fst (make catching 5 (VStr "mailer") (PArr []) w)))
     = [VClass "Mailer"].
Proof. vm_compute. repeat split. Qed.
(* ================================================================== *)
(** * Further properties of the container *)
(* ================================================================== *)

(** ** What a resolution caches *)

Lemma staysUnshared_refl A w : staysUnshared A w w.
Proof. unfold staysUnshared; auto. Qed.

Lemma staysUnshared_trans A w1 w2 w3 :
  staysUnshared A w1 w2 -> staysUnshared A w2 w3 -> staysUnshared A w1 w3.
Proof. unfold staysUnshared; auto. Qed.

Lemma isShared_setInstance_other c abstract object A :
  abstract <> A ->
  isShared (set_instances (JsMap.set (_instances c) abstract object) c) A
  = isShared c A.
Proof.
  intros Hne. unfold isShared, JsMap.has. simpl.
  rewrite JsMap_get_set_other by exact Hne. reflexivity.
Qed.

(** The instance cache is written for shared identifiers only. *)
Lemma engine_staysUnshared A H fuel :
  (forall a p,
      obeys (staysUnshared A) (staysUnshared A) (_resolve H fuel a p))
  /\ (forall c,
         obeys (staysUnshared A) (staysUnshared A) (build H fuel c)).
Proof.
  apply engine_obeys with (mayDefault := fun _ => True).
  - apply staysUnshared_refl.
  - apply staysUnshared_trans.
  - auto.
  - apply staysUnshared_trans.
  - intros w c Hun. exact Hun.
  - apply hosted_obeys; [apply staysUnshared_refl | auto].
  - intros w o Hun. exact Hun.
  - intros w0 w abstract Hw Hun. apply Hw, Hun.
  - intros w0 w abstract object _ Hshared Hw Hun.
    destruct (Value_eq_dec abstract A) as [-> | Hne].
    + rewrite (Hw Hun) in Hshared. discriminate.
    + simpl. rewrite isShared_setInstance_other by exact Hne.
      apply Hw, Hun.
  - intros p w0 w Hw Hun. apply Hw, Hun.
  - intros p w0 w Hw Hun. apply Hw, Hun.
  - intros c w0 w Hw Hun. apply Hw, Hun.
  - intros c w0 w Hw Hun. apply Hw, Hun.
  - auto.
  - apply anyParameter.
Qed.

Lemma make_staysUnshared H fuel a p w A :
  isShared (container w) A = false ->
  isShared (container (fst (make H fuel a p w))) A = false.
Proof.
  intros Hun.
  pose proof (proj1 (engine_staysUnshared A H fuel) a p w) as Hm.
  unfold make. destruct (_resolve H fuel a p w) as [w' [x | e |]];
    simpl; auto.
Qed.

(** What the container knows stays known through a resolution, and
    what it does not know stays unknown. *)
Lemma make_has H fuel a p w id :
  has (container (fst (make H fuel a p w))) id = has (container w) id.
Proof.
  pose proof (make_evolves H fuel a p w) as ((_ & Hb & _ & Ha & _) & _).
  unfold has, bound, isAlias. rewrite Hb, Ha.
  destruct (JsMap.has (_bindings (container w)) id) eqn:Hbound; auto.
  destruct (JsMap.has (_aliases (container w)) id);
    [rewrite !orb_true_r; reflexivity |].
  rewrite !orb_false_r. simpl.
  destruct (JsMap.get (_instances (container w)) id) as [v |] eqn:Hinst.
  - unfold JsMap.has.
    rewrite (make_keepsInstance H fuel a p w id Hinst), Hinst. reflexivity.
  - assert (Hun : isShared (container w) id = false).
    { unfold isShared, JsMap.has in *. rewrite Hinst. simpl.
      destruct (JsMap.get (_bindings (container w)) id);
        [discriminate | reflexivity]. }
    apply (make_staysUnshared H fuel a p) in Hun.
    unfold isShared in Hun. apply orb_false_iff in Hun.
    destruct Hun as [Hun _]. rewrite Hun.
    unfold JsMap.has. rewrite Hinst. reflexivity.
Qed.

(** X1.  [get(id)] returns what [make(id)] returns.  When the
    resolution throws, [get] throws the same fault if the container
    knows [id] (a binding, a cached instance or an alias) and an
    [EntryNotFoundError] if it does not; the state is the one the failed
    resolution left. *)
Theorem get_fault (H : Host) (fuel : nat) (id : Value) (w : World) :
  get H fuel id w
  = match make H fuel id (PArr []) w with
    | (w', Throw e) =>
        (w', Throw (if has (container w) id then e
                    else EntryNotFoundError))
    | r => r
    end.
Proof.
  pose proof (make_has H fuel id (PArr []) w id) as Hhas.
  unfold get, tryCatch, make in *.
  destruct (_resolve H fuel id (PArr []) w) as [w' [v | e |]];
    try reflexivity.
  simpl in Hhas. rewrite mbind_gets, Hhas.
  destruct (has (container w) id); reflexivity.
Qed.

Lemma make_keeps_uncached H fuel a p w A :
  isShared (container w) A = false ->
  JsMap.get (_instances (container (fst (make H fuel a p w)))) A = None.
Proof.
  intros Hun. apply (make_staysUnshared H fuel a p) in Hun.
  unfold isShared in Hun. apply orb_false_iff in Hun.
  apply JsMap_has_false. exact (proj1 Hun).
Qed.

(** X2.  No resolution, whatever it resolves and however it ends, puts
    an instance in the cache for an identifier that is not shared (no
    cached instance, no singleton binding). *)
Theorem unshared_never_cached (H : Host) (fuel : nat) (a : Value)
    (p : Params) (w : World) (A : Value) :
  isShared (container w) A = false ->
  JsMap.get (_instances (container (fst (make H fuel a p w)))) A = None.
Proof.
  intros Hun. apply make_keeps_uncached. exact Hun.
Qed.

(** [bind], not shared: made once, nothing is cached. *)
Lemma unshared_never_cached_witness :
  let w := fst (bind strictHost 5 (VStr "repo") (VClass "Repository") false
                  emptyWorld) in
  isShared (container w) (VStr "repo") = false
  /\ snd (make strictHost 5 (VStr "repo") (PArr []) w)
     = Ok (VObj 0 (VClass "Repository"))
  /\ JsMap.get
       (_instances
          (container (fst (make strictHost 5 (VStr "repo") (PArr []) w))))
       (VStr "repo") = None.
Proof.
  cbv zeta. split; [reflexivity |]. split; [reflexivity |].
  apply (unshared_never_cached strictHost 5 (VStr "repo") (PArr [])).
  reflexivity.
Defined.

(** X3.  An abstract bound to a class C by [bind] without sharing is
    built anew by every [make]: the call returns an object of C that
    this very call allocated, so two calls never return the same
    object. *)
Theorem unshared_binding_builds_anew (H : Host) (fuel : nat) (A C : Value)
    (p : Params) (w w1 : World) (v1 : Value) :
  JsMap.get (_bindings (container w)) A
  = Some (mkBinding (_getClosure A C) false) ->
  JsMap.get (_instances (container w)) A = None ->
  isInstantiable C = true ->
  isAlias (container w) A = false ->
  noContextualFor (container w) A ->
  JsMap.get (_extenders (container w)) A = None ->
  C = A
  \/ (plainClass (container w) C
      /\ JsMap.get (_instances (container w)) C = None) ->
  make H fuel A p w = (w1, Ok v1) ->
  (exists r,
      v1 = VObj r C
      /\ List.length (heap w) <= r /\ r < List.length (heap w1))
  /\ (forall fuel' p' w2 v2,
         make H fuel' A p' w1 = (w2, Ok v2) ->
         (exists r, v2 = VObj r C /\ List.length (heap w1) <= r)
         /\ v2 <> v1).
Proof.
  intros Hbind HnoneA Hinst Halias Hno Hext Hplain Hmake.
  assert (Hplain' : C = A \/ plainClass (container w) C)
    by (destruct Hplain as [-> | [Hp _]]; auto).
  assert (HnoneC : JsMap.get (_instances (container w)) C = None)
    by (destruct Hplain as [-> | [_ Hn]]; assumption).
  assert (Hfirst : exists r,
             v1 = VObj r C
             /\ List.length (heap w) <= r /\ r < List.length (heap w1)).
  { eapply make_closure_builds; eauto. }
  split; [exact Hfirst |].
  intros fuel' p' w2 v2 Hmake2.
  pose proof (make_evolves H fuel A p w) as Hev.
  rewrite Hmake in Hev. simpl in Hev. destruct Hev as (Hreg & _).
  pose proof Hreg as (_ & Hb1 & _ & Ha1 & _ & He1 & _).
  assert (Hun : forall X,
             JsMap.get (_instances (container w)) X = None ->
             (forall b, JsMap.get (_bindings (container w)) X = Some b ->
                        shared b = false) ->
             JsMap.get (_instances (container w1)) X = None).
  { intros X HnoneX HbX.
    replace w1 with (fst (make H fuel A p w)) by (rewrite Hmake; auto).
    apply make_keeps_uncached.
    unfold isShared, JsMap.has. rewrite HnoneX. simpl.
    destruct (JsMap.get (_bindings (container w)) X) as [b |] eqn:Hb;
      [apply (HbX b eq_refl) | reflexivity]. }
  assert (Hsecond : exists r,
             v2 = VObj r C
             /\ List.length (heap w1) <= r /\ r < List.length (heap w2)).
  { eapply make_closure_builds with (w := w1) (A := A) (p := p');
      try eassumption.
    - rewrite Hb1. exact Hbind.
    - unfold isAlias in *. rewrite Ha1. exact Halias.
    - eapply noContextualFor_same; eauto.
    - rewrite He1. exact Hext.
    - destruct Hplain' as [-> | Hp]; [left; reflexivity | right].
      eapply plainClass_same; eauto.
    - right. split.
      + apply Hun; [exact HnoneA |].
        intros b Hb. rewrite Hbind in Hb. inversion Hb. reflexivity.
      + apply Hun; [exact HnoneC |].
        intros b Hb. destruct Hplain as [-> | [(_ & _ & HbC & _) _]].
        * rewrite Hbind in Hb. inversion Hb. reflexivity.
        * rewrite HbC in Hb. discriminate. }
  destruct Hsecond as (r2 & -> & Hr2 & _).
  split; [eauto |].
  destruct Hfirst as (r1 & -> & _ & Hr1). intros Heq.
  inversion Heq. lia.
Qed.

(** ["repo"] bound to [Repository] by [bind]: made twice. *)
Lemma unshared_binding_builds_anew_witness :
  let w := fst (bind strictHost 5 (VStr "repo") (VClass "Repository") false
                  emptyWorld) in
  let w1 := fst (make strictHost 5 (VStr "repo") (PArr []) w) in
  make strictHost 5 (VStr "repo") (PArr []) w
  = (w1, Ok (VObj 0 (VClass "Repository")))
  /\ snd (make strictHost 5 (VStr "repo") (PArr []) w1)
     = Ok (VObj 1 (VClass "Repository"))
  /\ VObj 1 (VClass "Repository") <> VObj 0 (VClass "Repository").
Proof.
  cbv zeta.
  set (w := fst (bind strictHost 5 (VStr "repo") (VClass "Repository")
                   false emptyWorld)).
  assert (Hmake :
            make strictHost 5 (VStr "repo") (PArr []) w
            = (fst (make strictHost 5 (VStr "repo") (PArr []) w),
               Ok (VObj 0 (VClass "Repository"))))
    by (vm_compute; reflexivity).
  assert (Hno : forall X, noContextualFor (container w) X)
    by (intros X; apply noContextualFor_empty; reflexivity).
  assert (Hplain :
            plainClass (container w) (VClass "Repository")
            /\ JsMap.get (_instances (container w)) (VClass "Repository")
               = None).
  { split; [| reflexivity]. repeat split; apply Hno. }
  destruct (@unshared_binding_builds_anew strictHost 5 (VStr "repo")
              (VClass "Repository") (PArr []) w _ _
              eq_refl eq_refl eq_refl eq_refl (Hno _) eq_refl
              (or_intror Hplain) Hmake) as [_ Hagain].
  split; [exact Hmake |]. split; [reflexivity |].
  apply (Hagain 5 (PArr [])
           (fst (make strictHost 5 (VStr "repo") (PArr [])
                   (fst (make strictHost 5 (VStr "repo") (PArr []) w))))).
  vm_compute. reflexivity.
Defined.

(** ** Aliases *)

Lemma alias_aliases abstract alias' w :
  _aliases (container (fst (alias abstract alias' w)))
  = JsMap.set (_aliases (container w)) alias' abstract.
Proof. reflexivity. Qed.

(** X4.  Resolving through an alias is resolving its canonical
    identifier: when [getAlias(B)] is A, [make(B, p)] is [make(A, p)],
    in outcome and in state. *)
Theorem make_through_alias (H : Host) (fuel : nat) (A B : Value)
    (p : Params) (w : World) :
  getAlias fuel (container w) B = Ok A ->
  make H fuel B p w = make H fuel A p w.
Proof.
  intros Hcanon. destruct fuel as [| n]; [discriminate |].
  unfold make. rewrite !_resolve_S. unfold _resolve_step.
  assert (HB : getAliasM (S n) B w = (w, Ok A))
    by (unfold getAliasM; rewrite Hcanon; reflexivity).
  assert (HA : getAliasM (S n) A w = (w, Ok A)).
  { unfold getAliasM. rewrite getAlias_fixed; [reflexivity | | lia].
    eapply getAlias_canonical; eauto. }
  erewrite mbind_run; [| exact HB]. symmetry.
  erewrite mbind_run; [| exact HA]. reflexivity.
Qed.

(** ["svc"] registered as an alias of [Service]. *)
Lemma make_through_alias_witness :
  let w := fst (alias (VClass "Service") (VStr "svc") emptyWorld) in
  getAlias 5 (container w) (VStr "svc") = Ok (VClass "Service")
  /\ make strictHost 5 (VStr "svc") (PArr []) w
     = make strictHost 5 (VClass "Service") (PArr []) w
  /\ snd (make strictHost 5 (VStr "svc") (PArr []) w)
     = Ok (VObj 1 (VClass "Service")).
Proof.
  cbv zeta. split; [reflexivity |]. split; [| reflexivity].
  apply make_through_alias. reflexivity.
Defined.

(** X5.  The guard of [getAlias] catches an identifier aliased to
    itself, not a longer cycle: once A is an alias of B and B of A
    ([alias(A, B)] then [alias(B, A)]), [getAlias] of either follows the
    cycle without end, and so does every [make] of them. *)
Theorem alias_cycle_never_resolves (A B : Value) (w : World) :
  A <> B ->
  let w' := fst ((alias A B ;; alias B A) w) in
  forall fuel,
    getAlias fuel (container w') A = OutOfFuel
    /\ getAlias fuel (container w') B = OutOfFuel
    /\ forall H p, snd (make H fuel A p w') = OutOfFuel.
Proof.
  intros Hne. cbv zeta.
  set (w' := fst ((alias A B ;; alias B A) w)).
  assert (HA : JsMap.get (_aliases (container w')) A = Some B)
    by (subst w'; simpl; apply JsMap_get_set_same).
  assert (HB : JsMap.get (_aliases (container w')) B = Some A).
  { subst w'. simpl. rewrite JsMap_get_set_other by exact Hne.
    apply JsMap_get_set_same. }
  clearbody w'.
  assert (Hloop : forall fuel,
             getAlias fuel (container w') A = OutOfFuel
             /\ getAlias fuel (container w') B = OutOfFuel).
  { induction fuel as [| n [IHA IHB]]; [split; reflexivity |].
    simpl. rewrite HA, HB.
    assert (HBA : equals B A = false) by (apply equals_false; congruence).
    assert (HAB : equals A B = false) by (apply equals_false; congruence).
    rewrite HBA, HAB. split; assumption. }
  intros fuel. destruct (Hloop fuel) as [HfA HfB].
  split; [exact HfA |]. split; [exact HfB |].
  intros H p. unfold make. destruct fuel as [| n]; [reflexivity |].
  rewrite _resolve_S. unfold _resolve_step, mbind, getAliasM.
  rewrite HfA. reflexivity.
Qed.

Lemma alias_cycle_never_resolves_witness :
  VStr "a" <> VStr "b"
  /\ getAlias 100
       (container
          (fst ((alias (VStr "a") (VStr "b") ;; alias (VStr "b") (VStr "a"))
                  emptyWorld)))
       (VStr "a") = OutOfFuel.
Proof.
  assert (Hne : VStr "a" <> VStr "b") by discriminate.
  split; [exact Hne |].
  apply (alias_cycle_never_resolves emptyWorld Hne 100).
Defined.

(** ** Registering an instance *)

Lemma JsMap_delete_absent (K V : Type) `{JsKey K} (m : JsMap K V) k :
  JsMap.get m k = None -> JsMap.delete m k = m.
Proof.
  induction m as [| [k' v'] rest IH]; simpl; auto.
  destruct (key_eq_dec k' k); [discriminate |].
  intros Hget. rewrite IH by exact Hget. reflexivity.
Qed.

Lemma set_aliases_same c : set_aliases (_aliases c) c = c.
Proof. destruct c; reflexivity. Qed.

Lemma instance_run H fuel A v w :
  instance H fuel A v w
  = ((if bound (_removeAbstractAlias A (container w)) A
      then _rebound H fuel A else ret tt) ;; ret v)
      (storeInstance A v w).
Proof. reflexivity. Qed.

Lemma storeInstance_unbound A v w :
  isAlias (container w) A = false -> storeInstance A v w = setInstance A v w.
Proof.
  intros Halias. unfold storeInstance, setInstance, _removeAbstractAlias.
  unfold isAlias in Halias. rewrite Halias. simpl.
  rewrite JsMap_delete_absent by (apply JsMap_has_false; exact Halias).
  rewrite set_aliases_same. reflexivity.
Qed.

(** X6.  [instance(A, v)] for an A the container does not know stores
    [v] as the shared instance of A and calls nothing; afterwards, when
    no contextual binding applies to A where the container stands,
    [make(A)] without parameters answers [v] from the cache, leaving
    the state as it is. *)
Theorem instance_registers (H : Host) (fuel : nat) (A v : Value)
    (w : World) :
  bound (container w) A = false ->
  instance H fuel A v w = (setInstance A v w, Ok v)
  /\ isShared (container (setInstance A v w)) A = true
  /\ (noContextualBuild (container w) A ->
      forall fuel', 0 < fuel' ->
        make H fuel' A (PArr []) (setInstance A v w)
        = (setInstance A v w, Ok v)).
Proof.
  intros Hbound. unfold bound in Hbound.
  apply orb_false_iff in Hbound. destruct Hbound as [Hbound Halias].
  split; [| split].
  - rewrite instance_run. unfold _removeAbstractAlias.
    unfold isAlias in Halias. rewrite Halias. simpl negb. cbv iota.
    unfold bound, isAlias. rewrite Hbound, Halias. simpl.
    rewrite storeInstance_unbound by exact Halias. reflexivity.
  - unfold isShared, JsMap.has. simpl.
    rewrite JsMap_get_set_same. reflexivity.
  - intros Hno fuel' Hfuel'. apply make_cached_direct; auto.
    + simpl. apply JsMap_get_set_same.
    + apply noContextualBuild_same with (c := container w);
        [same_registries | reflexivity | exact Hno].
Qed.

Lemma instance_registers_witness :
  bound (container emptyWorld) (VStr "clock") = false
  /\ instance strictHost 5 (VStr "clock") (VNum 7) emptyWorld
     = (setInstance (VStr "clock") (VNum 7) emptyWorld, Ok (VNum 7))
  /\ make strictHost 5 (VStr "clock") (PArr [])
       (setInstance (VStr "clock") (VNum 7) emptyWorld)
     = (setInstance (VStr "clock") (VNum 7) emptyWorld, Ok (VNum 7)).
Proof.
  split; [reflexivity |].
  destruct (@instance_registers strictHost 5 (VStr "clock") (VNum 7)
              emptyWorld eq_refl) as (Hrun & _ & Hmake).
  split; [exact Hrun |].
  apply Hmake; [| lia]. apply noContextualBuild_idle. reflexivity.
Defined.

(** X7.  [instance(A, v)] for an A the container already knows (a
    binding, an instance or an alias) stores [v] and then, when no
    contextual binding applies to A where the container stands and no
    callback throws, fires the rebound callbacks of A: each is called
    exactly once, in registration order, with [v]. *)
Theorem instance_fires_rebound (H : Host) (fuel : nat) (A v : Value)
    (w : World) :
  bound (container w) A = true ->
  0 < fuel ->
  noContextualBuild (container (storeInstance A v w)) A ->
  (forall cb, In cb (_getReboundCallbacks (container w) A) ->
     exists x, run H (CallRebound cb v) = Returns x) ->
  instance H fuel A v w
  = (logCalls
       (map (fun cb => CallRebound cb v)
          (_getReboundCallbacks (container w) A))
       (storeInstance A v w),
     Ok v).
Proof.
  intros Hbound Hfuel Hno Hret. rewrite instance_run.
  assert (Hbound' : bound (_removeAbstractAlias A (container w)) A = true).
  { unfold _removeAbstractAlias.
    destruct (negb (JsMap.has (_aliases (container w)) A)); exact Hbound. }
  rewrite Hbound'. unfold _rebound.
  assert (Hmake : make H fuel A (PArr []) (storeInstance A v w)
                  = (storeInstance A v w, Ok v)).
  { apply make_cached_direct; auto.
    - simpl. apply JsMap_get_set_same.
    - unfold isAlias. simpl. apply JsMap_has_delete_same. }
  unfold mbind at 1. erewrite mbind_run; [| exact Hmake].
  rewrite mbind_gets.
  assert (Hsame : _getReboundCallbacks (container (storeInstance A v w)) A
                  = _getReboundCallbacks (container w) A).
  { unfold storeInstance, _getReboundCallbacks, _removeAbstractAlias.
    destruct (negb (JsMap.has (_aliases (container w)) A)); reflexivity. }
  rewrite Hsame, forEach_rebound by exact Hret. reflexivity.
Qed.

(** ["logger"], a singleton with a rebinding callback, is given an
    instance. *)
Lemma instance_fires_rebound_witness :
  bound (container loggerWorld) (VStr "logger") = true
  /\ snd (instance strictHost 5 (VStr "logger") (VNum 1) loggerWorld)
     = Ok (VNum 1)
  /\ calls (fst (instance strictHost 5 (VStr "logger") (VNum 1)
                   loggerWorld))
     = [CallRebound "onRebound" (VNum 1)].
Proof.
  split; [reflexivity |].
  rewrite (@instance_fires_rebound strictHost 5 (VStr "logger") (VNum 1)
             loggerWorld eq_refl).
  - split; reflexivity.
  - lia.
  - apply noContextualBuild_idle. reflexivity.
  - intros cb _. exists VUndefined. reflexivity.
Defined.

(** ** Extenders *)

Lemma _rebound_keepsInstance H fuel abstract w A v :
  JsMap.get (_instances (container w)) A = Some v ->
  JsMap.get (_instances (container (fst (_rebound H fuel abstract w)))) A
  = Some v.
Proof.
  intros Hget.
  assert (Hr : obeys (keepsInstance A v) (keepsInstance A v)
                 (_rebound H fuel abstract)).
  { apply obeys__rebound with (mayDefault := fun _ => True).
    - apply keepsInstance_refl.
    - apply keepsInstance_trans.
    - auto.
    - apply keepsInstance_trans.
    - intros w0 c Hg. exact Hg.
    - apply hosted_obeys; [apply keepsInstance_refl | auto].
    - intros w0 o Hg. exact Hg.
    - intros w0 w1 a Hw Hg. apply Hw, Hg.
    - intros w0 w1 a object Hnone _ Hw Hg.
      destruct (Value_eq_dec a A) as [-> | Hne].
      + congruence.
      + simpl. rewrite JsMap_get_set_other by exact Hne. auto.
    - intros p w0 w1 Hw Hg. apply Hw, Hg.
    - intros p w0 w1 Hw Hg. apply Hw, Hg.
    - intros c w0 w1 Hw Hg. apply Hw, Hg.
    - intros c w0 w1 Hw Hg. apply Hw, Hg.
    - auto.
    - apply anyParameter. }
  specialize (Hr w).
  destruct (_rebound H fuel abstract w) as [w' [x | e |]]; simpl; auto.
Qed.

(** X8.  [extend(A, f)] for an A with a cached instance [v] calls [f]
    on [v] at once and caches what it returns; [f] is not added to the
    extenders of A, so an instance built later is not passed to it.
    This holds however the rebound callbacks fired afterwards end. *)
Theorem extend_decorates_cached (H : Host) (fuel : nat) (A0 A : Value)
    (f : Fn) (v v' : Value) (w : World) :
  getAlias fuel (container w) A0 = Ok A ->
  JsMap.get (_instances (container w)) A = Some v ->
  run H (CallExtender f v) = Returns v' ->
  let w' := fst (extend H fuel A0 f w) in
  JsMap.get (_instances (container w')) A = Some v'
  /\ _extenders (container w') = _extenders (container w)
  /\ exists cs, calls w' = calls w ++ CallExtender f v :: cs.
Proof.
  intros Hcanon Hcached Hrun. cbv zeta. unfold extend.
  assert (Hstep : getAliasM fuel A0 w = (w, Ok A))
    by (unfold getAliasM; rewrite Hcanon; reflexivity).
  erewrite mbind_run; [| exact Hstep].
  rewrite mbind_gets, Hcached.
  erewrite mbind_invoke; [| exact Hrun]. rewrite mbind_modify.
  set (w1 := mkWorld _ _ _).
  pose proof (_rebound_evolves H fuel A w1) as ((_ & _ & _ & _ & _ & Hext & _)
                                                 & _ & [cs Hcalls]).
  split; [| split].
  - apply _rebound_keepsInstance. subst w1. simpl.
    apply JsMap_get_set_same.
  - rewrite Hext. reflexivity.
  - exists cs. rewrite Hcalls. subst w1. simpl.
    rewrite <- app_assoc. reflexivity.
Qed.

(** The cached [Repository] of ["logger"] is decorated. *)
Lemma extend_decorates_cached_witness :
  getAlias 5 (container loggerWorld) (VStr "logger") = Ok (VStr "logger")
  /\ JsMap.get (_instances (container loggerWorld)) (VStr "logger")
     = Some (VObj 0 (VClass "Repository"))
  /\ JsMap.get
       (_instances
          (container
             (fst (extend strictHost 5 (VStr "logger") "decorate"
                     loggerWorld))))
       (VStr "logger") = Some VUndefined
  /\ _extenders
       (container
          (fst (extend strictHost 5 (VStr "logger") "decorate" loggerWorld)))
     = [].
Proof.
  split; [reflexivity |]. split; [reflexivity |].
  destruct (@extend_decorates_cached strictHost 5 (VStr "logger")
              (VStr "logger") "decorate" (VObj 0 (VClass "Repository"))
              VUndefined loggerWorld eq_refl eq_refl eq_refl)
    as (Hinst & Hext & _).
  split; [exact Hinst | exact Hext].
Defined.

Lemma resolved_not_alias fuel A w :
  isAlias (container w) A = false ->
  resolved fuel A w
  = (w, Ok (JsMap.has (_resolved (container w)) A
            || JsMap.has (_instances (container w)) A)).
Proof.
  intros Halias. unfold resolved, mbind, gets. rewrite Halias. reflexivity.
Qed.

(** The state [extend] leaves when there is no instance to decorate. *)
Lemma extend_unresolved H fuel A f w :
  isAlias (container w) A = false ->
  JsMap.get (_instances (container w)) A = None ->
  JsMap.has (_resolved (container w)) A = false ->
  0 < fuel ->
  extend H fuel A f w
  = (mkWorld
       (set_extenders
          (JsMap.set (_extenders (container w)) A
             (match JsMap.get (_extenders (container w)) A with
              | Some extenders => extenders
              | None => []
              end ++ [f])) (container w))
       (heap w) (calls w),
     Ok tt).
Proof.
  intros Halias Hnone Hres Hfuel. unfold extend.
  erewrite mbind_run; [| apply getAliasM_not_alias; assumption].
  rewrite mbind_gets, Hnone, mbind_modify.
  erewrite mbind_run; [| apply resolved_not_alias; exact Halias].
  simpl. rewrite Hres. unfold JsMap.has. rewrite Hnone. simpl.
  destruct (JsMap.get (_extenders (container w)) A); reflexivity.
Qed.

(** X9.  [extend(A, f)] for a class A that is neither bound nor
    resolved records [f] after the extenders A already has and calls
    nothing.  A [make(A)] that then builds A returns what the
    extenders, [f] last, return when applied one after the other to the
    newly built object. *)
Theorem extend_then_make (H : Host) (fuel : nat) (A : Value) (f : Fn)
    (w : World) :
  isInstantiable A = true ->
  isAlias (container w) A = false ->
  JsMap.get (_bindings (container w)) A = None ->
  noContextualFor (container w) A ->
  JsMap.get (_instances (container w)) A = None ->
  JsMap.has (_resolved (container w)) A = false ->
  0 < fuel ->
  let extenders :=
    match JsMap.get (_extenders (container w)) A with
    | Some extenders => extenders
    | None => []
    end ++ [f] in
  let w1 := fst (extend H fuel A f w) in
  snd (extend H fuel A f w) = Ok tt
  /\ calls w1 = calls w
  /\ JsMap.get (_extenders (container w1)) A = Some extenders
  /\ (forall fuel' p w2 v,
         make H fuel' A p w1 = (w2, Ok v) ->
         exists r,
           List.length (heap w) <= r
           /\ extended H extenders (VObj r A) = Some v).
Proof.
  intros Hinst Halias Hbind Hno Hnone Hres Hfuel. cbv zeta.
  rewrite extend_unresolved by assumption. simpl fst. simpl snd.
  split; [reflexivity |]. split; [reflexivity |].
  split; [simpl; apply JsMap_get_set_same |].
  intros fuel' p w2 v Hmake.
  eapply make_class_builds in Hmake; simpl; eauto.
  destruct Hmake as (r & wa & wb & Hr & _ & Happly).
  simpl in Happly, Hr. rewrite JsMap_get_set_same in Happly.
  exists r. split; [exact Hr |].
  eapply applyExtenders_extended. exact Happly.
Qed.

(** [Repository] extended by ["decorate"], then made. *)
Lemma extend_then_make_witness :
  let w1 := fst (extend strictHost 5 (VClass "Repository") "decorate"
                   emptyWorld) in
  JsMap.get (_extenders (container w1)) (VClass "Repository")
  = Some ["decorate"]
  /\ snd (make strictHost 5 (VClass "Repository") (PArr []) w1)
     = Ok VUndefined
  /\ exists r,
       extended strictHost ["decorate"] (VObj r (VClass "Repository"))
       = Some VUndefined.
Proof.
  cbv zeta.
  destruct (@extend_then_make strictHost 5 (VClass "Repository") "decorate"
              emptyWorld eq_refl eq_refl eq_refl
              (@noContextualFor_empty (container emptyWorld) _ eq_refl)
              eq_refl eq_refl)
    as (_ & _ & Hext & Hmake); [lia |].
  split; [exact Hext |]. split; [reflexivity |].
  destruct (Hmake 5 (PArr [])
              (fst (make strictHost 5 (VClass "Repository") (PArr [])
                      (fst (extend strictHost 5 (VClass "Repository")
                              "decorate" emptyWorld))))
              VUndefined) as (r & _ & Hr).
  - vm_compute. reflexivity.
  - exists r. exact Hr.
Defined.

(** ** Binding once, forgetting *)

Lemma bind_Ok_bound H fuel A concrete' shared' w w' :
  bind H fuel A concrete' shared' w = (w', Ok tt) ->
  JsMap.has (_bindings (container w')) A = true.
Proof.
  intros Hbind.
  assert (Hstored : forall concrete1,
             (if JsMap.has (_resolved (container w)) A
              then _rebound H fuel A else ret tt)
               (storeBinding A concrete1 shared' w) = (w', Ok tt) ->
             JsMap.has (_bindings (container w')) A = true).
  { intros concrete1 Hrun.
    assert (Hb : _bindings (container w')
                 = _bindings (container (storeBinding A concrete1 shared' w))).
    { destruct (JsMap.has (_resolved (container w)) A).
      - pose proof (_rebound_evolves H fuel A
                      (storeBinding A concrete1 shared' w))
          as ((_ & Hb & _) & _).
        rewrite Hrun in Hb. exact Hb.
      - inversion Hrun. reflexivity. }
    rewrite Hb. unfold JsMap.has. simpl.
    rewrite JsMap_get_set_same. reflexivity. }
  destruct (isNullOrUndefined concrete') eqn:Hgiven;
    [destruct (isInstantiable A) eqn:Hinst |].
  - rewrite (@bind_run H fuel A concrete' A shared' w) in Hbind
      by (right; auto).
    eapply Hstored; eauto.
  - unfold bind in Hbind. rewrite mbind_modify in Hbind.
    rewrite Hgiven, Hinst in Hbind. discriminate.
  - rewrite (@bind_run H fuel A concrete' concrete' shared' w) in Hbind
      by (left; auto).
    eapply Hstored; eauto.
Qed.

(** X10.  [bindIf] registers nothing for an identifier the container
    already knows, and calls nothing: after a [bind(A, ...)] that
    returned, every [bindIf(A, ...)] leaves the container as it is. *)
Theorem bindIf_keeps_existing (H : Host) (fuel : nat) (A : Value)
    (w : World) :
  (bound (container w) A = true ->
   forall concrete' shared', bindIf H fuel A concrete' shared' w = (w, Ok tt))
  /\ (forall concrete' shared' w',
         bind H fuel A concrete' shared' w = (w', Ok tt) ->
         forall H' fuel' concrete2 shared2,
           bindIf H' fuel' A concrete2 shared2 w' = (w', Ok tt)).
Proof.
  split.
  - intros Hbound concrete' shared'. unfold bindIf.
    rewrite mbind_gets, Hbound. reflexivity.
  - intros concrete' shared' w' Hbind H' fuel' concrete2 shared2.
    apply bind_Ok_bound in Hbind. unfold bindIf, bound.
    rewrite mbind_gets, Hbind. reflexivity.
Qed.

(** ["logger"] is bound already: [bindIf] to [Service] changes
    nothing. *)
Lemma bindIf_keeps_existing_witness :
  bound (container singletonWorld) (VStr "logger") = true
  /\ bindIf strictHost 5 (VStr "logger") (VClass "Service") false
       singletonWorld = (singletonWorld, Ok tt).
Proof.
  split; [reflexivity |].
  apply (proj1 (bindIf_keeps_existing strictHost 5 (VStr "logger")
                  singletonWorld)).
  reflexivity.
Defined.

(** X11.  After [flush] the container knows no identifier: nothing is
    bound, shared or resolved and every identifier is its own canonical
    form.  The extenders, tags, contextual bindings, method bindings and
    the callbacks of all kinds are not flushed. *)
Theorem flush_forgets (w : World) :
  let w' := fst (flush w) in
  snd (flush w) = Ok tt
  /\ (forall A fuel,
         bound (container w') A = false
         /\ isShared (container w') A = false
         /\ resolved fuel A w' = (w', Ok false)
         /\ getAlias (S fuel) (container w') A = Ok A)
  /\ _extenders (container w') = _extenders (container w)
  /\ _tags (container w') = _tags (container w)
  /\ _contextual (container w') = _contextual (container w)
  /\ _methodBindings (container w') = _methodBindings (container w)
  /\ _reboundCallbacks (container w') = _reboundCallbacks (container w)
  /\ _globalResolvingCallbacks (container w')
     = _globalResolvingCallbacks (container w)
  /\ _resolvingCallbacks (container w') = _resolvingCallbacks (container w)
  /\ _globalAfterResolvingCallbacks (container w')
     = _globalAfterResolvingCallbacks (container w)
  /\ _afterResolvingCallbacks (container w')
     = _afterResolvingCallbacks (container w).
Proof.
  cbv zeta. split; [reflexivity |]. split; [| repeat split].
  intros A fuel. repeat split.
Qed.

(** X12.  [forgetInstance(A)] on a singleton bound to a class C makes
    the next [make(A)] build C again: it returns an object that did not
    exist before and caches it as the instance of A. *)
Theorem forgetInstance_rebuilds (H : Host) (fuel : nat) (A C : Value)
    (w w1 : World) (v1 : Value) :
  JsMap.get (_bindings (container w)) A
  = Some (mkBinding (_getClosure A C) true) ->
  isInstantiable C = true ->
  isAlias (container w) A = false ->
  noContextualFor (container w) A ->
  JsMap.get (_extenders (container w)) A = None ->
  C = A
  \/ (plainClass (container w) C
      /\ JsMap.get (_instances (container w)) C = None) ->
  make H fuel A (PArr []) (fst (forgetInstance A w)) = (w1, Ok v1) ->
  (exists r, v1 = VObj r C /\ List.length (heap w) <= r)
  /\ JsMap.get (_instances (container w1)) A = Some v1.
Proof.
  intros Hbind Hinst Halias Hno Hext Hplain Hmake.
  set (w0 := fst (forgetInstance A w)) in *.
  assert (Hreg : sameRegistries (container w) (container w0))
    by same_registries.
  assert (HnoneA : JsMap.get (_instances (container w0)) A = None)
    by (subst w0; simpl; apply JsMap_get_delete_same).
  assert (Hno0 : noContextualFor (container w0) A)
    by (eapply noContextualFor_same; eauto).
  split.
  - assert (Hfresh : exists r,
               v1 = VObj r C
               /\ List.length (heap w0) <= r
               /\ r < List.length (heap w1)).
    { eapply make_closure_builds with (w := w0) (A := A) (p := PArr []);
        try eassumption.
      - destruct Hplain as [-> | [Hp _]]; [left; reflexivity | right].
        eapply plainClass_same; eauto.
      - right. split; [exact HnoneA |].
        destruct Hplain as [-> | [_ HnoneC]]; [exact HnoneA |].
        subst w0. simpl.
        destruct (Value_eq_dec A C) as [-> | Hne].
        + apply JsMap_get_delete_same.
        + rewrite JsMap_get_delete_other by exact Hne. exact HnoneC. }
    destruct Hfresh as (r & -> & Hr & _). eauto.
  - eapply make_shared_caches with (w := w0);
      [exact Hbind | exact Halias | exact Hno0 | exact Hmake].
Qed.

(** The singleton ["logger"], made, forgotten and made again. *)
Lemma forgetInstance_rebuilds_witness :
  JsMap.get (_instances (container loggerWorld)) (VStr "logger")
  = Some (VObj 0 (VClass "Repository"))
  /\ snd (make strictHost 5 (VStr "logger") (PArr [])
            (fst (forgetInstance (VStr "logger") loggerWorld)))
     = Ok (VObj 1 (VClass "Repository"))
  /\ JsMap.get
       (_instances
          (container
             (fst (make strictHost 5 (VStr "logger") (PArr [])
                     (fst (forgetInstance (VStr "logger") loggerWorld))))))
       (VStr "logger")
     = Some (VObj 1 (VClass "Repository")).
Proof.
  split; [reflexivity |]. split; [reflexivity |].
  assert (Hno : forall X, noContextualFor (container loggerWorld) X)
    by (intros X; apply noContextualFor_empty; reflexivity).
  assert (Hplain :
            plainClass (container loggerWorld) (VClass "Repository")
            /\ JsMap.get (_instances (container loggerWorld))
                 (VClass "Repository") = None).
  { split; [| reflexivity]. repeat split; apply Hno. }
  apply (@forgetInstance_rebuilds strictHost 5 (VStr "logger")
           (VClass "Repository") loggerWorld
           (fst (make strictHost 5 (VStr "logger") (PArr [])
                   (fst (forgetInstance (VStr "logger") loggerWorld))))
           (VObj 1 (VClass "Repository"))
           eq_refl eq_refl eq_refl (Hno _) eq_refl (or_intror Hplain)).
  vm_compute. reflexivity.
Defined.

(** ** Tags, in general *)

Lemma pushTags_others (g tag' : string) (abstracts : list Value) :
  tag' <> g ->
  forall c : Container,
    JsMap.get
      (_tags
         (fold_left
            (fun c' abstract =>
               set_tags
                 (JsMap.set (_tags c') tag' (membersOf c' tag' ++ [abstract]))
                 c')
            abstracts c)) g
    = JsMap.get (_tags c) g.
Proof.
  intros Hne. induction abstracts as [| a rest IH]; intros c; simpl; auto.
  rewrite IH. simpl. apply JsMap_get_set_other. exact Hne.
Qed.

Lemma tagOne_same abstracts c g :
  JsMap.get (_tags (tagOne abstracts c g)) g
  = Some (membersOf c g ++ abstracts).
Proof.
  unfold tagOne. apply pushTags_members. unfold membersOf, JsMap.has.
  destruct (JsMap.get (_tags c) g) as [members |] eqn:Hget.
  - exact Hget.
  - simpl. apply JsMap_get_set_same.
Qed.

Lemma tagOne_other abstracts c tag' g :
  tag' <> g ->
  JsMap.get (_tags (tagOne abstracts c tag')) g = JsMap.get (_tags c) g.
Proof.
  intros Hne. unfold tagOne. rewrite pushTags_others by exact Hne.
  destruct (JsMap.has (_tags c) tag'); [reflexivity |].
  simpl. apply JsMap_get_set_other. exact Hne.
Qed.

Lemma tags_fold abstracts g tags :
  forall c,
    membersOf (fold_left (tagOne abstracts) tags c) g
    = membersOf c g
        ++ List.concat (repeat abstracts (count_occ string_dec tags g))
    /\ JsMap.has (_tags (fold_left (tagOne abstracts) tags c)) g
       = JsMap.has (_tags c) g || negb (Nat.eqb (count_occ string_dec tags g) 0).
Proof.
  induction tags as [| t rest IH]; intros c; simpl.
  - rewrite app_nil_r, orb_false_r. auto.
  - destruct (IH (tagOne abstracts c t)) as [IHm IHh].
    rewrite IHm, IHh. unfold membersOf, JsMap.has.
    destruct (string_dec t g) as [-> | Hne].
    + rewrite tagOne_same. simpl. rewrite <- app_assoc.
      split; [reflexivity | rewrite orb_true_r; reflexivity].
    + rewrite tagOne_other by exact Hne. auto.
Qed.

(** X13.  [tag(abstracts, tags)] appends [abstracts], in order, to the
    members of every tag in [tags], once for each time the tag occurs
    there, registers the tags that were not known, also when
    [abstracts] is empty, and leaves every other tag as it was. *)
Theorem tag_appends_to_each (abstracts : list Value) (tags : list string)
    (g : string) (w : World) :
  let c' := container (fst (tag abstracts tags w)) in
  membersOf c' g
  = membersOf (container w) g
      ++ List.concat (repeat abstracts (count_occ string_dec tags g))
  /\ JsMap.has (_tags c') g
     = JsMap.has (_tags (container w)) g
       || negb (Nat.eqb (count_occ string_dec tags g) 0).
Proof. cbv zeta. unfold tag, modify. simpl. apply tags_fold. Qed.

(** ** The reverse index of aliases *)

Lemma JsMap_get_map_values (K V : Type) `{JsKey K} (F : V -> V)
    (m : JsMap K V) k :
  JsMap.get (map (fun entry => (fst entry, F (snd entry))) m) k
  = option_map F (JsMap.get m k).
Proof.
  induction m as [| [k' v'] rest IH]; simpl; auto.
  destruct (key_eq_dec k' k); auto.
Qed.

Lemma instance_registries H fuel B v w :
  _aliases (container (fst (instance H fuel B v w)))
  = _aliases (container (storeInstance B v w))
  /\ _abstractAliases (container (fst (instance H fuel B v w)))
     = _abstractAliases (container (storeInstance B v w)).
Proof.
  rewrite instance_run. unfold mbind.
  destruct (bound (_removeAbstractAlias B (container w)) B).
  - pose proof (_rebound_evolves H fuel B (storeInstance B v w))
      as ((_ & _ & _ & Ha & Hab & _) & _).
    destruct (_rebound H fuel B (storeInstance B v w)) as [w' [x | e |]];
      simpl in *; auto.
  - simpl. auto.
Qed.

(** X14.  [instance(B, v)] for a B that is an alias makes B an
    identifier of its own: B is no alias any more and is removed from
    every list of the reverse alias index, whose other entries and
    their order stay. *)
Theorem instance_drops_alias (H : Host) (fuel : nat) (B v : Value)
    (w : World) :
  isAlias (container w) B = true ->
  let c' := container (fst (instance H fuel B v w)) in
  isAlias c' B = false
  /\ (forall A,
         JsMap.get (_abstractAliases c') A
         = option_map (filter (fun alias' => negb (equals alias' B)))
             (JsMap.get (_abstractAliases (container w)) A))
  /\ (forall A aliases,
         JsMap.get (_abstractAliases c') A = Some aliases ->
         ~ In B aliases).
Proof.
  intros Halias. cbv zeta.
  destruct (instance_registries H fuel B v w) as [Ha Hab].
  assert (Hindex : forall A,
             JsMap.get
               (_abstractAliases (container (fst (instance H fuel B v w)))) A
             = option_map (filter (fun alias' => negb (equals alias' B)))
                 (JsMap.get (_abstractAliases (container w)) A)).
  { intros A. rewrite Hab. unfold storeInstance, _removeAbstractAlias.
    unfold isAlias in Halias. rewrite Halias. simpl.
    apply JsMap_get_map_values. }
  split; [| split].
  - unfold isAlias. rewrite Ha. simpl. apply JsMap_has_delete_same.
  - exact Hindex.
  - intros A aliases Hget Hin. rewrite Hindex in Hget.
    destruct (JsMap.get (_abstractAliases (container w)) A) as [old |];
      [| discriminate].
    simpl in Hget. inversion Hget; subst aliases.
    apply filter_In in Hin. destruct Hin as [_ Hneq].
    rewrite equals_refl in Hneq. discriminate.
Qed.

(** ["b"], an alias of ["a"], is given an instance. *)
Lemma instance_drops_alias_witness :
  let w := fst ((alias (VStr "a") (VStr "b") ;;
                 alias (VStr "a") (VStr "c")) emptyWorld) in
  isAlias (container w) (VStr "b") = true
  /\ isAlias (container (fst (instance strictHost 5 (VStr "b") (VNum 1) w)))
       (VStr "b") = false
  /\ JsMap.get
       (_abstractAliases
          (container (fst (instance strictHost 5 (VStr "b") (VNum 1) w))))
       (VStr "a") = Some [VStr "c"].
Proof.
  cbv zeta. split; [reflexivity |].
  destruct (@instance_drops_alias strictHost 5 (VStr "b") (VNum 1)
              (fst ((alias (VStr "a") (VStr "b") ;;
                     alias (VStr "a") (VStr "c")) emptyWorld))
              eq_refl) as (Hno & Hindex & _).
  split; [exact Hno |]. rewrite Hindex. reflexivity.
Defined.

(** ** Resolving callbacks *)

Lemma _fireCallbackArray_run H object callbacks :
  (forall cb, In cb callbacks ->
     exists x, run H (CallResolving cb object) = Returns x) ->
  forall w,
    _fireCallbackArray H object callbacks w
    = (logCalls (map (fun cb => CallResolving cb object) callbacks) w,
       Ok tt).
Proof.
  unfold _fireCallbackArray.
  induction callbacks as [| cb rest IH]; intros Hret w; simpl.
  - rewrite logCalls_nil. reflexivity.
  - destruct (Hret cb) as [x Hx]; [left; reflexivity |].
    unfold mbind at 1. erewrite mbind_invoke; [| exact Hx].
    unfold ret at 1.
    rewrite IH by (intros; apply Hret; right; assumption).
    rewrite logCalls_cons. reflexivity.
Qed.

Lemma logCalls_app cs1 cs2 w :
  logCalls cs2 (logCalls cs1 w) = logCalls (cs1 ++ cs2) w.
Proof. unfold logCalls; simpl. rewrite <- app_assoc. reflexivity. Qed.

Lemma logCalls_container cs w : container (logCalls cs w) = container w.
Proof. reflexivity. Qed.

(** One round over a registry of callbacks by type. *)
Lemma instanceof_callable (H : Program) object key :
  instanceof H object key <> None -> instanceofFunction key = true.
Proof. destruct key; simpl; congruence. Qed.

Lemma fireForType_run H abstract object registry :
  keysTestable H abstract object registry ->
  (forall cb, In cb (callbacksFor H abstract object registry) ->
     exists x, run H (CallResolving cb object) = Returns x) ->
  forall w,
    fireForType H abstract object registry w
    = (logCalls
         (map (fun cb => CallResolving cb object)
            (callbacksFor H abstract object registry)) w,
       Ok tt).
Proof.
  unfold fireForType.
  induction registry as [| [key callbacks] rest IH]; intros Hkeys Hret w.
  - simpl. rewrite logCalls_nil. reflexivity.
  - assert (Hrest : keysTestable H abstract object rest)
      by (intros k cbs Hin; apply (Hkeys k cbs); right; exact Hin).
    simpl in Hret. simpl forEach. simpl fst. simpl snd.
    unfold callbacksFor. simpl flat_map. fold (callbacksFor H abstract object rest).
    assert (Hmatch :
              (if equals key abstract then ret true
               else js_instanceof H object key) w
              = (w, Ok (equals key abstract
                        || match instanceof H object key with
                           | Some matches => matches
                           | None => false
                           end))).
    { destruct (equals key abstract) eqn:Heq; [reflexivity |].
      destruct (Hkeys key callbacks) as [-> | Htestable];
        [left; reflexivity | rewrite equals_refl in Heq; discriminate |].
      unfold js_instanceof.
      destruct (instanceof H object key); [reflexivity | congruence]. }
    unfold mbind at 1. erewrite mbind_run; [| exact Hmatch].
    destruct (equals key abstract
              || match instanceof H object key with
                 | Some matches => matches
                 | None => false
                 end).
    + rewrite _fireCallbackArray_run
        by (intros cb Hin; apply Hret, in_or_app; left; exact Hin).
      rewrite IH;
        [| exact Hrest
         | intros cb Hin; apply Hret, in_or_app; right; exact Hin].
      rewrite logCalls_app, map_app. reflexivity.
    + simpl. rewrite IH; [reflexivity | exact Hrest | exact Hret].
Qed.

(** A round that returns has met no key that [instanceof] refuses. *)
Lemma fireForType_Ok H abstract object registry :
  forall w w',
    fireForType H abstract object registry w = (w', Ok tt) ->
    keysTestable H abstract object registry.
Proof.
  unfold fireForType.
  induction registry as [| [key callbacks] rest IH]; intros w w' Hrun.
  - intros k cbs [].
  - simpl in Hrun. apply mbind_Ok in Hrun.
    destruct Hrun as (w1 & [] & Hentry & Hrest).
    apply mbind_Ok in Hentry.
    destruct Hentry as (w0 & matches & Hmatch & _).
    intros k cbs [Heq | Hin].
    + inversion Heq; subst k cbs.
      destruct (equals key abstract) eqn:Hk;
        [left; apply equals_true; exact Hk | right].
      unfold js_instanceof in Hmatch.
      destruct (instanceof H object key); [discriminate | discriminate].
    + exact (IH _ _ Hrest k cbs Hin).
Qed.

(** X15.  The callbacks of a resolution are called in this order: those
    registered for every type by [resolving], those registered by
    [resolving] for the types the object belongs to, then the same two
    groups of [afterResolving]; within a group in registration order,
    each callback once, with the resolved object.  This needs
    [object instanceof key] to have a value for every key other than
    the resolved identifier: a key that is not callable, and for an
    object on the left a key without [prototype] such as an arrow
    function, makes the test throw. *)
Theorem resolving_callbacks_order (H : Host) (A object : Value)
    (w : World) :
  let c := container w in
  let fired :=
    _globalResolvingCallbacks c
      ++ callbacksFor H A object (_resolvingCallbacks c)
      ++ _globalAfterResolvingCallbacks c
      ++ callbacksFor H A object (_afterResolvingCallbacks c) in
  keysTestable H A object (_resolvingCallbacks c) ->
  keysTestable H A object (_afterResolvingCallbacks c) ->
  (forall cb, In cb fired ->
     exists x, run H (CallResolving cb object) = Returns x) ->
  _fireResolvingCallbacks H A object w
  = (logCalls (map (fun cb => CallResolving cb object) fired) w, Ok tt).
Proof.
  cbv zeta. intros Hkeys Hafter Hret.
  assert (Hglobals : forall callbacks w0,
             (forall cb, In cb callbacks ->
                exists x, run H (CallResolving cb object) = Returns x) ->
             (if Nat.eqb (List.length callbacks) 0 then ret tt
              else _fireCallbackArray H object callbacks) w0
             = (logCalls (map (fun cb => CallResolving cb object) callbacks)
                  w0, Ok tt)).
  { intros callbacks w0 Hcb. destruct callbacks as [| cb rest].
    - simpl. rewrite logCalls_nil. reflexivity.
    - simpl Nat.eqb. cbv iota. apply _fireCallbackArray_run. exact Hcb. }
  unfold _fireResolvingCallbacks, _fireAfterResolvingCallbacks.
  rewrite mbind_gets.
  erewrite mbind_run;
    [| apply Hglobals; intros cb Hin; apply Hret, in_or_app; left;
       exact Hin].
  rewrite mbind_gets, logCalls_container.
  erewrite mbind_run;
    [| apply fireForType_run;
       [ exact Hkeys
       | intros cb Hin; apply Hret, in_or_app; right;
         apply in_or_app; left; exact Hin ]].
  rewrite mbind_gets, !logCalls_container.
  erewrite mbind_run;
    [| apply Hglobals; intros cb Hin; apply Hret, in_or_app; right;
       apply in_or_app; right; apply in_or_app; left; exact Hin].
  rewrite mbind_gets, !logCalls_container.
  rewrite fireForType_run;
    [ | exact Hafter
      | intros cb Hin; apply Hret, in_or_app; right;
        apply in_or_app; right; apply in_or_app; right; exact Hin ].
  rewrite !logCalls_app, !map_app, <- ?app_assoc. reflexivity.
Qed.

(** Four callbacks, one of each kind, for [Service]. *)
Lemma resolving_callbacks_order_witness :
  let w := fst ((afterResolving 5 (VClass "Service") "afterService" ;;
                 resolving 5 (VClass "Service") "onService" ;;
                 afterResolvingAny "afterAny" ;;
                 resolvingAny "onAny") emptyWorld) in
  keysTestable strictHost (VClass "Service") (VObj 0 (VClass "Service"))
    (_resolvingCallbacks (container w))
  /\ calls (fst (_fireResolvingCallbacks strictHost (VClass "Service")
                   (VObj 0 (VClass "Service")) w))
     = map (fun cb => CallResolving cb (VObj 0 (VClass "Service")))
         ["onAny"; "onService"; "afterAny"; "afterService"].
Proof.
  cbv zeta.
  set (w := fst ((afterResolving 5 (VClass "Service") "afterService" ;;
                  resolving 5 (VClass "Service") "onService" ;;
                  afterResolvingAny "afterAny" ;;
                  resolvingAny "onAny") emptyWorld)).
  assert (Hkeys : forall registry,
             registry = [(VClass "Service", ["onService"])]
             \/ registry = [(VClass "Service", ["afterService"])] ->
             keysTestable strictHost (VClass "Service")
               (VObj 0 (VClass "Service")) registry).
  { intros registry [-> | ->] key callbacks [Heq | []];
      inversion Heq; left; reflexivity. }
  split; [apply Hkeys; left; reflexivity |].
  rewrite (@resolving_callbacks_order strictHost (VClass "Service")
             (VObj 0 (VClass "Service")) w).
  - reflexivity.
  - apply Hkeys. left. reflexivity.
  - apply Hkeys. right. reflexivity.
  - intros cb _. exists VUndefined. reflexivity.
Defined.

Lemma _fireCallbackArray_onlyCalls H object callbacks :
  obeys onlyCalls onlyCalls (_fireCallbackArray H object callbacks).
Proof.
  apply obeys__fireCallbackArray;
    first [ apply onlyCalls_refl | apply onlyCalls_trans
          | apply hosted_obeys; [apply onlyCalls_refl | auto]
          | intros w c; split; reflexivity
          | auto ].
Qed.

Lemma fireForType_onlyCalls H abstract object registry :
  obeys onlyCalls onlyCalls (fireForType H abstract object registry).
Proof.
  apply obeys_fireForType;
    first [ apply onlyCalls_refl | apply onlyCalls_trans
          | apply hosted_obeys; [apply onlyCalls_refl | auto]
          | intros w c; split; reflexivity
          | auto ].
Qed.

Lemma onlyCalls_Ok (A : Type) (m : M A) w w' a :
  obeys onlyCalls onlyCalls m -> m w = (w', Ok a) ->
  container w' = container w.
Proof.
  intros Hm Hrun. specialize (Hm w). rewrite Hrun in Hm. exact (proj1 Hm).
Qed.

Lemma keysTestable_callable (H : Program) A object registry :
  keysTestable H A object registry -> keysCallable A registry.
Proof.
  intros Hkeys key callbacks Hin.
  destruct (Hkeys key callbacks Hin) as [-> | Htest]; [left; reflexivity |].
  right. eapply instanceof_callable. exact Htest.
Qed.

(** A firing of the callbacks that returns has met no key that
    [instanceof] refuses. *)
Lemma _fireResolvingCallbacks_Ok H A object w w' :
  _fireResolvingCallbacks H A object w = (w', Ok tt) ->
  keysTestable H A object (_resolvingCallbacks (container w))
  /\ keysTestable H A object (_afterResolvingCallbacks (container w)).
Proof.
  unfold _fireResolvingCallbacks, _fireAfterResolvingCallbacks.
  rewrite mbind_gets. intros Hrun.
  apply mbind_Ok in Hrun. destruct Hrun as (w1 & [] & Hglobal & Hrun).
  assert (Hc1 : container w1 = container w).
  { destruct (Nat.eqb (List.length (_globalResolvingCallbacks (container w)))
                0).
    - inversion Hglobal. reflexivity.
    - eapply onlyCalls_Ok; [apply _fireCallbackArray_onlyCalls |].
      exact Hglobal. }
  rewrite mbind_gets, Hc1 in Hrun.
  apply mbind_Ok in Hrun. destruct Hrun as (w2 & [] & Htyped & Hrun).
  assert (Hc2 : container w2 = container w).
  { rewrite <- Hc1.
    eapply onlyCalls_Ok; [apply fireForType_onlyCalls | exact Htyped]. }
  split; [eapply fireForType_Ok; exact Htyped |].
  rewrite mbind_gets, Hc2 in Hrun.
  apply mbind_Ok in Hrun. destruct Hrun as (w3 & [] & Hglobal2 & Hrun).
  assert (Hc3 : container w3 = container w).
  { rewrite <- Hc2.
    destruct (Nat.eqb
                (List.length (_globalAfterResolvingCallbacks (container w)))
                0).
    - inversion Hglobal2. reflexivity.
    - eapply onlyCalls_Ok; [apply _fireCallbackArray_onlyCalls |].
      exact Hglobal2. }
  rewrite mbind_gets, Hc3 in Hrun.
  eapply fireForType_Ok. exact Hrun.
Qed.

(** X16.  A resolving or after-resolving callback registered under a
    key that is not callable (a string, a symbol) breaks the resolution
    of every other identifier: a [make(A)] that is not answered from
    the instance cache never returns a value when such a key other than
    A is registered, since [object instanceof key] throws. *)
Theorem uncallable_key_breaks_make (H : Host) (fuel : nat) (A key : Value)
    (callbacks : list Fn) (p : Params) (w : World) :
  In (key, callbacks) (_resolvingCallbacks (container w))
  \/ In (key, callbacks) (_afterResolvingCallbacks (container w)) ->
  instanceofFunction key = false ->
  key <> A ->
  isAlias (container w) A = false ->
  JsMap.get (_instances (container w)) A = None ->
  forall v, snd (make H fuel A p w) <> Ok v.
Proof.
  intros Hin Hkey Hne Halias Hnone v Hok.
  destruct (make H fuel A p w) as [w' o] eqn:Hmake. simpl in Hok. subst o.
  apply make_uncached_Ok in Hmake; [| exact Halias | exact Hnone].
  destruct Hmake as (n & needs & -> & Hmake).
  apply resolveFresh_Ok in Hmake.
  destruct Hmake as (concrete1 & w2 & object & extenders & w3 & w5
                     & _ & Hbuild & _ & Happly & Hfire & _).
  apply _fireResolvingCallbacks_Ok in Hfire.
  destruct Hfire as [Hfire1 Hfire2].
  apply keysTestable_callable in Hfire1.
  apply keysTestable_callable in Hfire2.
  pose proof (conj Hfire1 Hfire2) as Hfire. clear Hfire1 Hfire2.
  assert (Hev : evolves (pushWith p w) w2)
    by (eapply inner_evolves; exact Hbuild).
  destruct Hev as ((_ & _ & _ & _ & _ & _ & _ & _ & _ & _ & Hr & Ha) & _).
  simpl in Hr, Ha.
  destruct (applyExtenders_container _ _ _ _ Happly) as [Hc3 _].
  assert (Hregs :
            keysCallable A (_resolvingCallbacks (container w))
            /\ keysCallable A (_afterResolvingCallbacks (container w))).
  { rewrite <- Hr, <- Ha, <- Hc3.
    destruct (isShared (container w3) A && negb _); exact Hfire. }
  destruct Hregs as [Hkeys Hafter].
  destruct Hin as [Hin | Hin];
    [ destruct (Hkeys _ _ Hin) as [Heq | Hcallable]
    | destruct (Hafter _ _ Hin) as [Heq | Hcallable] ];
    congruence.
Qed.

(** A callback for the string ["mailer"]; the class [Repository] can
    no longer be made. *)
Lemma uncallable_key_breaks_make_witness :
  let w := fst (resolving 5 (VStr "mailer") "onMailer" emptyWorld) in
  _resolvingCallbacks (container w) = [(VStr "mailer", ["onMailer"])]
  /\ snd (make strictHost 5 (VClass "Repository") (PArr []) w)
     = Throw TypeError
  /\ snd (make strictHost 5 (VClass "Repository") (PArr []) w)
     <> Ok (VObj 0 (VClass "Repository")).
Proof.
  cbv zeta. split; [reflexivity |]. split; [reflexivity |].
  apply (@uncallable_key_breaks_make strictHost 5 (VClass "Repository")
           (VStr "mailer") ["onMailer"] (PArr [])
           (fst (resolving 5 (VStr "mailer") "onMailer" emptyWorld))).
  - left. left. reflexivity.
  - reflexivity.
  - discriminate.
  - reflexivity.
  - reflexivity.
Defined.

(** ** Method bindings *)

(** X17.  After [bindMethod(method, callback)] the key of [method] is
    bound, [callMethodBinding] of that key calls [callback] with the
    instance, and the other method bindings are as before; a class and
    a method name given as a pair stand for the key [Class@method].
    [callMethodBinding] of a key that is not bound is a [TypeError]. *)
Theorem method_binding_roundtrip (call : Fn -> Value -> Completion)
    (method : MethodRef) (callback : Fn) (instance' : Value) (w : World) :
  let key := _parseBindMethod method in
  let w' := fst (bindMethod method callback w) in
  hasMethodBinding (container w') key = true
  /\ callMethodBinding call key instance' w'
     = (w', match call callback instance' with
            | Returns v => Ok v
            | Throws e => Throw e
            end)
  /\ (forall other,
         other <> key ->
         JsMap.get (_methodBindings (container w')) other
         = JsMap.get (_methodBindings (container w)) other)
  /\ (forall target name',
         method = MethodOf target name' ->
         key = _parseBindMethod (MethodKey (target ++ "@" ++ name')))
  /\ (forall other,
         hasMethodBinding (container w) other = false ->
         callMethodBinding call other instance' w = (w, Throw TypeError)).
Proof.
  cbv zeta. split; [| split; [| split; [| split]]].
  - unfold hasMethodBinding, JsMap.has. simpl.
    rewrite JsMap_get_set_same. reflexivity.
  - unfold callMethodBinding. rewrite mbind_gets. simpl.
    rewrite JsMap_get_set_same.
    destruct (call callback instance'); reflexivity.
  - intros other Hne. simpl. apply JsMap_get_set_other. congruence.
  - intros target name' ->. reflexivity.
  - intros other Hnone. unfold callMethodBinding.
    rewrite mbind_gets.
    unfold hasMethodBinding in Hnone. apply JsMap_has_false in Hnone.
    rewrite Hnone. reflexivity.
Qed.

(** ** Callbacks, registered and fired *)

Lemma invoke_Ok H c w w' v :
  invoke H c w = (w', Ok v) -> w' = logCall c w.
Proof.
  rewrite invoke_hosted. destruct (run H c); intros Hrun; inversion Hrun.
  reflexivity.
Qed.

Lemma _fireCallbackArray_Ok H object callbacks :
  forall w w',
    _fireCallbackArray H object callbacks w = (w', Ok tt) ->
    w' = logCalls (map (fun cb => CallResolving cb object) callbacks) w.
Proof.
  unfold _fireCallbackArray.
  induction callbacks as [| cb rest IH]; intros w w' Hrun; simpl in *.
  - inversion Hrun. rewrite logCalls_nil. reflexivity.
  - apply mbind_Ok in Hrun. destruct Hrun as (w1 & [] & Hcall & Hrest).
    apply mbind_Ok in Hcall. destruct Hcall as (w0 & x & Hinvoke & Hret).
    apply invoke_Ok in Hinvoke. inversion Hret; subst.
    rewrite (IH _ _ Hrest), logCalls_cons. reflexivity.
Qed.

Lemma fireForType_Ok_calls H abstract object registry :
  forall w w',
    fireForType H abstract object registry w = (w', Ok tt) ->
    w' = logCalls
           (map (fun cb => CallResolving cb object)
              (callbacksFor H abstract object registry)) w.
Proof.
  unfold fireForType.
  induction registry as [| [key callbacks] rest IH]; intros w w' Hrun.
  - inversion Hrun. rewrite logCalls_nil. reflexivity.
  - simpl in Hrun. apply mbind_Ok in Hrun.
    destruct Hrun as (w1 & [] & Hentry & Hrest).
    apply mbind_Ok in Hentry.
    destruct Hentry as (w0 & matches & Hmatch & Hfire).
    assert (Hm : w0 = w
                 /\ matches
                    = equals key abstract
                      || match instanceof H object key with
                         | Some matches' => matches'
                         | None => false
                         end).
    { destruct (equals key abstract); [inversion Hmatch; auto |].
      unfold js_instanceof in Hmatch.
      destruct (instanceof H object key); inversion Hmatch; auto. }
    destruct Hm as [-> ->].
    unfold callbacksFor. simpl flat_map.
    fold (callbacksFor H abstract object rest).
    rewrite (IH _ _ Hrest).
    destruct (equals key abstract
              || match instanceof H object key with
                 | Some matches' => matches'
                 | None => false
                 end).
    + apply _fireCallbackArray_Ok in Hfire. subst w1.
      rewrite logCalls_app, map_app. reflexivity.
    + inversion Hfire. reflexivity.
Qed.

(** What a firing of the callbacks that returns has called. *)
Lemma _fireResolvingCallbacks_Ok_calls H A object w w' :
  _fireResolvingCallbacks H A object w = (w', Ok tt) ->
  w' = logCalls
         (map (fun cb => CallResolving cb object)
            (_globalResolvingCallbacks (container w)
               ++ callbacksFor H A object (_resolvingCallbacks (container w))
               ++ _globalAfterResolvingCallbacks (container w)
               ++ callbacksFor H A object
                    (_afterResolvingCallbacks (container w)))) w.
Proof.
  assert (Hglobals : forall callbacks w0 w1,
             (if Nat.eqb (List.length callbacks) 0 then ret tt
              else _fireCallbackArray H object callbacks) w0 = (w1, Ok tt) ->
             w1 = logCalls (map (fun cb => CallResolving cb object) callbacks)
                    w0).
  { intros callbacks w0 w1. destruct callbacks as [| cb rest].
    - simpl. intros Hrun. inversion Hrun. rewrite logCalls_nil. reflexivity.
    - simpl Nat.eqb. cbv iota. apply _fireCallbackArray_Ok. }
  unfold _fireResolvingCallbacks, _fireAfterResolvingCallbacks.
  rewrite mbind_gets. intros Hrun.
  apply mbind_Ok in Hrun. destruct Hrun as (w1 & [] & Hglobal & Hrun).
  apply Hglobals in Hglobal. subst w1.
  rewrite mbind_gets, logCalls_container in Hrun.
  apply mbind_Ok in Hrun. destruct Hrun as (w2 & [] & Htyped & Hrun).
  apply fireForType_Ok_calls in Htyped. subst w2.
  rewrite mbind_gets, !logCalls_container in Hrun.
  apply mbind_Ok in Hrun. destruct Hrun as (w3 & [] & Hglobal2 & Hrun).
  apply Hglobals in Hglobal2. subst w3.
  rewrite mbind_gets, !logCalls_container in Hrun.
  apply fireForType_Ok_calls in Hrun. subst w'.
  rewrite !logCalls_app, !map_app, <- ?app_assoc. reflexivity.
Qed.

Lemma callbacksFor_own H A object registry callbacks :
  In (A, callbacks) registry ->
  incl callbacks (callbacksFor H A object registry).
Proof.
  intros Hin cb Hcb. unfold callbacksFor. apply in_flat_map.
  exists (A, callbacks). split; [exact Hin |].
  simpl. rewrite equals_refl. exact Hcb.
Qed.

Lemma JsMap_get_In (K V : Type) `{JsKey K} (m : JsMap K V) k v :
  JsMap.get m k = Some v -> In (k, v) m.
Proof.
  induction m as [| [k' v'] rest IH]; simpl; [discriminate |].
  destruct (key_eq_dec k' k) as [-> | Hne].
  - intros Hget. inversion Hget. left. reflexivity.
  - intros Hget. right. apply IH. exact Hget.
Qed.

(** X18.  A callback registered by [resolving(A, cb)] for a canonical A
    is called with the object whenever a [make(A)] resolves A anew and
    returns: the calls that this [make] adds to the log contain the
    call of [cb] with the object returned. *)
Theorem resolving_then_make (H : Host) (fuel : nat) (A : Value) (cb : Fn)
    (p : Params) (w w' : World) (v : Value) :
  isAlias (container w) A = false ->
  JsMap.get (_instances (container w)) A = None ->
  0 < fuel ->
  make H fuel A p (fst (resolving fuel A cb w)) = (w', Ok v) ->
  exists cs,
    calls w' = calls w ++ cs /\ In (CallResolving cb v) cs.
Proof.
  intros Halias Hnone Hfuel Hmake.
  assert (Hreg : resolving fuel A cb w
                 = (mkWorld
                      (set_resolvingCallbacks
                         (pushCallback (_resolvingCallbacks (container w))
                            A cb) (container w))
                      (heap w) (calls w), Ok tt)).
  { unfold resolving.
    erewrite mbind_run; [reflexivity |].
    destruct (isString A || isInstantiable A);
      [apply getAliasM_not_alias; assumption | reflexivity]. }
  rewrite Hreg in Hmake. simpl fst in Hmake.
  set (w0 := mkWorld _ _ _) in Hmake.
  apply make_uncached_Ok in Hmake; [| exact Halias | exact Hnone].
  destruct Hmake as (n & needs & _ & Hmake).
  apply resolveFresh_Ok in Hmake.
  destruct Hmake as (concrete1 & w2 & object & extenders & w3 & w5
                     & _ & Hbuild & _ & Happly & Hfire & ->).
  assert (Hev : evolves (pushWith p w0) w2)
    by (eapply inner_evolves; exact Hbuild).
  destruct Hev as ((_ & _ & _ & _ & _ & _ & _ & _ & _ & _ & Hr & _)
                   & _ & [cs1 Hcalls2]).
  simpl in Hr, Hcalls2.
  pose proof (applyExtenders_onlyCalls H extenders object w2) as Hext.
  pose proof (applyExtenders_evolves H extenders object w2) as Hev3.
  rewrite Happly in Hext, Hev3. destruct Hext as [Hc3 _].
  destruct Hev3 as (_ & _ & [cs2 Hcalls3]).
  apply _fireResolvingCallbacks_Ok_calls in Hfire.
  set (wx := if isShared (container w3) A && negb _ then _ else w3) in Hfire.
  assert (Hcx : _resolvingCallbacks (container wx)
                = pushCallback (_resolvingCallbacks (container w)) A cb
                /\ calls wx = calls w3).
  { subst wx. destruct (isShared (container w3) A && negb _); simpl;
      rewrite Hc3, Hr; auto. }
  destruct Hcx as [Hregistry Hcallsx].
  subst w5. simpl calls. rewrite Hcallsx, Hcalls3, Hcalls2.
  rewrite <- !app_assoc. eexists. split; [reflexivity |].
  apply in_or_app. right. apply in_or_app. right.
  apply in_map with (f := fun cb0 => CallResolving cb0 v).
  apply in_or_app. right. apply in_or_app. left.
  rewrite Hregistry.
  eapply callbacksFor_own.
  - eapply JsMap_get_In. unfold pushCallback. apply JsMap_get_set_same.
  - destruct (JsMap.get (_resolvingCallbacks (container w)) A);
      [apply in_or_app; right |]; left; reflexivity.
Qed.

(** [Repository] with a resolving callback, made. *)
Lemma resolving_then_make_witness :
  snd (make strictHost 5 (VClass "Repository") (PArr [])
         (fst (resolving 5 (VClass "Repository") "onRepository"
                 emptyWorld)))
  = Ok (VObj 0 (VClass "Repository"))
  /\ exists cs,
       calls (fst (make strictHost 5 (VClass "Repository") (PArr [])
                     (fst (resolving 5 (VClass "Repository") "onRepository"
                             emptyWorld))))
       = calls emptyWorld ++ cs
       /\ In (CallResolving "onRepository" (VObj 0 (VClass "Repository")))
            cs.
Proof.
  split; [reflexivity |].
  apply (@resolving_then_make strictHost 5 (VClass "Repository")
           "onRepository" (PArr []) emptyWorld).
  - reflexivity.
  - reflexivity.
  - lia.
  - vm_compute. reflexivity.
Defined.

(** ** Forgetting extenders *)

Lemma getAlias_aliases fuel c c' x :
  _aliases c' = _aliases c -> getAlias fuel c' x = getAlias fuel c x.
Proof.
  intros Hsame. revert x. induction fuel as [| n IH]; intros x; simpl; auto.
  rewrite Hsame. destruct (JsMap.get (_aliases c) x); auto.
  destruct (equals v x); auto.
Qed.

(** X19.  [forgetExtenders] follows aliases as [extend] does:
    [forgetExtenders(B)] for a B that canonicalises to A removes the
    extenders of A, so that none is left to apply for A or B.  The
    extenders of other identifiers and the cached instances, extended
    or not, stay. *)
Theorem forgetExtenders_through_alias (fuel : nat) (A0 A : Value)
    (w : World) :
  getAlias fuel (container w) A0 = Ok A ->
  let w' := fst (forgetExtenders fuel A0 w) in
  snd (forgetExtenders fuel A0 w) = Ok tt
  /\ _getExtenders fuel A0 w' = (w', Ok [])
  /\ _getExtenders fuel A w' = (w', Ok [])
  /\ (forall other,
         other <> A ->
         JsMap.get (_extenders (container w')) other
         = JsMap.get (_extenders (container w)) other)
  /\ _instances (container w') = _instances (container w).
Proof.
  intros Hcanon. cbv zeta. unfold forgetExtenders.
  assert (Hstep : getAliasM fuel A0 w = (w, Ok A))
    by (unfold getAliasM; rewrite Hcanon; reflexivity).
  erewrite mbind_run; [| exact Hstep]. simpl.
  assert (HA : getAlias fuel (container w) A = Ok A).
  { apply getAlias_fixed; [eapply getAlias_canonical; eauto |].
    destruct fuel; [discriminate | lia]. }
  split; [reflexivity |].
  set (w' := mkWorld _ _ _).
  assert (Hsame : forall x,
             getAlias fuel (container w') x = getAlias fuel (container w) x)
    by (intros x; apply getAlias_aliases; reflexivity).
  assert (Hnone : JsMap.get (_extenders (container w')) A = None)
    by (subst w'; simpl; apply JsMap_get_delete_same).
  unfold _getExtenders, mbind, getAliasM, gets.
  rewrite !Hsame, Hcanon, HA, Hnone.
  split; [reflexivity |]. split; [reflexivity |].
  split; [| reflexivity].
  intros other Hne. subst w'. simpl.
  apply JsMap_get_delete_other. congruence.
Qed.

(** [Service], extended through its alias ["svc"], forgets its
    extenders through the alias too. *)
Lemma forgetExtenders_through_alias_witness :
  let w := fst ((alias (VClass "Service") (VStr "svc") ;;
                 extend strictHost 5 (VStr "svc") "decorate") emptyWorld) in
  getAlias 5 (container w) (VStr "svc") = Ok (VClass "Service")
  /\ JsMap.get (_extenders (container w)) (VClass "Service")
     = Some ["decorate"]
  /\ _getExtenders 5 (VClass "Service")
       (fst (forgetExtenders 5 (VStr "svc") w))
     = (fst (forgetExtenders 5 (VStr "svc") w), Ok []).
Proof.
  cbv zeta. split; [reflexivity |]. split; [reflexivity |].
  apply (@forgetExtenders_through_alias 5 (VStr "svc") (VClass "Service")).
  reflexivity.
Defined.

(** ** The alias registry *)

Lemma JsMap_get_delete (K V : Type) `{JsKey K} (m : JsMap K V) k k' v :
  JsMap.get (JsMap.delete m k) k' = Some v -> JsMap.get m k' = Some v.
Proof.
  destruct (key_eq_dec k k') as [-> | Hne].
  - rewrite JsMap_get_delete_same. discriminate.
  - rewrite JsMap_get_delete_other by exact Hne. auto.
Qed.

Lemma aliaserStep_neverSelf a op :
  neverSelf a -> neverSelf (aliaserStep a op).
Proof.
  intros Hinv. destruct op as [abstract alias' | abstract | | | searched];
    simpl.
  - unfold Aliaser.alias.
    destruct (equals alias' abstract) eqn:Heq; [exact Hinv |].
    apply equals_false in Heq. intros k target. simpl.
    destruct (Value_eq_dec alias' k) as [-> | Hne].
    + rewrite JsMap_get_set_same. intros Hget. inversion Hget. congruence.
    + rewrite JsMap_get_set_other by exact Hne. apply Hinv.
  - intros k target Hget. simpl in Hget.
    apply JsMap_get_delete in Hget. exact (Hinv _ _ Hget).
  - intros k target Hget. discriminate.
  - exact Hinv.
  - unfold Aliaser.removeAbstractAlias.
    destruct (negb (JsMap.has (Aliaser._aliases a) searched)); exact Hinv.
Qed.

Lemma aliaserRun_neverSelf ops :
  forall a, neverSelf a -> neverSelf (fold_left aliaserStep ops a).
Proof.
  induction ops as [| op rest IH]; intros a Hinv; simpl; auto.
  apply IH, aliaserStep_neverSelf, Hinv.
Qed.

(** X20.  In the alias registry no identifier is ever its own alias,
    whatever sequence of [alias], [forgetAlias], [forgetAliases],
    [forgetAbstractAliases] and [removeAbstractAlias] calls built it:
    [alias] refuses the only call that could make one. *)
Theorem aliaser_never_self_aliased (ops : list AliaserOp) (k : Value) :
  match JsMap.get (Aliaser._aliases (aliaserRun ops)) k with
  | Some target => equals target k = false
  | None => True
  end.
Proof.
  assert (Hinv : neverSelf (aliaserRun ops)).
  { apply aliaserRun_neverSelf. intros k' target Hget. discriminate. }
  destruct (JsMap.get (Aliaser._aliases (aliaserRun ops)) k) as [target |]
    eqn:Hget; [| exact I].
  apply equals_false. exact (Hinv _ _ Hget).
Qed.

(** X21.  [forgetAlias] does not touch the reverse index, and
    [removeAbstractAlias(B)] acts only while B is an alias.  So
    removing B from the index and then forgetting the alias clears B
    from every list, while forgetting the alias first leaves the index
    with B in it, for good. *)
Theorem aliaser_forget_order (a : Aliaser.Aliaser) (B : Value) :
  Aliaser.isAlias a B = true ->
  (let a1 := Aliaser.forgetAlias B (Aliaser.removeAbstractAlias B a) in
   Aliaser.isAlias a1 B = false
   /\ forall A,
        Aliaser.getAbstractAlias a1 A
        = option_map (filter (fun alias' => negb (equals alias' B)))
            (Aliaser.getAbstractAlias a A))
  /\ (let a2 := Aliaser.removeAbstractAlias B (Aliaser.forgetAlias B a) in
      Aliaser.isAlias a2 B = false
      /\ Aliaser._abstractAliases a2 = Aliaser._abstractAliases a).
Proof.
  intros Halias. unfold Aliaser.isAlias in Halias. split; cbv zeta.
  - unfold Aliaser.removeAbstractAlias. rewrite Halias. simpl. split.
    + unfold Aliaser.isAlias. simpl. apply JsMap_has_delete_same.
    + intros A. unfold Aliaser.getAbstractAlias. simpl.
      apply JsMap_get_map_values.
  - unfold Aliaser.removeAbstractAlias, Aliaser.forgetAlias. simpl.
    rewrite JsMap_has_delete_same. simpl. split; [| reflexivity].
    unfold Aliaser.isAlias. simpl. apply JsMap_has_delete_same.
Qed.

(** ["b"] registered as an alias of ["a"]. *)
Lemma aliaser_forget_order_witness :
  let a := fst (Aliaser.alias (VStr "a") (VStr "b") Aliaser.empty) in
  Aliaser.isAlias a (VStr "b") = true
  /\ Aliaser.getAbstractAlias
       (Aliaser.forgetAlias (VStr "b")
          (Aliaser.removeAbstractAlias (VStr "b") a)) (VStr "a")
     = Some []
  /\ Aliaser.getAbstractAlias
       (Aliaser.removeAbstractAlias (VStr "b")
          (Aliaser.forgetAlias (VStr "b") a)) (VStr "a")
     = Some [VStr "b"].
Proof.
  cbv zeta. split; [reflexivity |].
  destruct (@aliaser_forget_order
              (fst (Aliaser.alias (VStr "a") (VStr "b") Aliaser.empty))
              (VStr "b") eq_refl) as [[_ Hfirst] [_ Hsecond]].
  split.
  - rewrite Hfirst. reflexivity.
  - unfold Aliaser.getAbstractAlias. rewrite Hsecond. reflexivity.
Defined.

(** ** Building with overrides, and what cannot be built *)

Lemma mbind_fails (A B : Type) (m : M A) (k : A -> M B) w w1 e :
  m w = (w1, Throw e) -> mbind m k w = (w1, Throw e).
Proof. intros Hm. unfold mbind. rewrite Hm. reflexivity. Qed.

Lemma popBuild_pushBuild C w : popBuild (pushBuild C w) = w.
Proof.
  unfold popBuild, pushBuild. simpl. rewrite removelast_last.
  destruct w as [c h cs]. destruct c. reflexivity.
Qed.

(** Dependencies that are all overridden are not resolved. *)
Lemma _resolveDependencies_overridden H make' build' props dependencies w :
  _getLastParameterOverride (container w) = PObj props ->
  (forall d, In d dependencies -> hasOwnProperty props (getName d) = true) ->
  _resolveDependencies H make' build' dependencies w
  = (w, Ok (map (fun d => getProperty props (getName d)) dependencies)).
Proof.
  intros Hframe. induction dependencies as [| d rest IH]; intros Hall.
  - reflexivity.
  - simpl. rewrite mbind_gets. unfold _hasParameterOverride.
    rewrite Hframe, (Hall d) by (left; reflexivity).
    rewrite mbind_gets. unfold _getParameterOverride. rewrite Hframe.
    erewrite mbind_run;
      [| apply IH; intros d' Hin; apply Hall; right; exact Hin].
    reflexivity.
Qed.



(** X26.  [make(A)] of an identifier that is neither an alias nor
    bound, to which no contextual binding applies where the container
    stands, and that cannot be instantiated (a string, a symbol, an
    abstract class) throws the not-instantiable fault, which carries
    the build stack of that moment; the frame of parameters that the
    call pushed is still on its stack. *)
Theorem make_not_instantiable (H : Host) (n : nat) (A : Value) (p : Params)
    (w : World) :
  isAlias (container w) A = false ->
  noContextualBuild (container w) A ->
  JsMap.get (_bindings (container w)) A = None ->
  Arr_empty p = false \/ JsMap.get (_instances (container w)) A = None ->
  negb (isInstantiable A) && instanceofFunction A = false ->
  rc_isInstantiable (reflectionClass H A) = false ->
  make H (S (S n)) A p w
  = (pushWith p w,
     Throw (BindingResolutionError
              (NotInstantiable A (_buildStack (container w))))).
Proof.
  intros Halias Hno Hbind Hp Hplain Hreflect.
  unfold make. rewrite _resolve_S, _resolve_step_direct by assumption.
  assert (Hfresh : forall needs,
             resolveFresh H (S (S n)) (_resolve H (S n)) (build H (S n)) A p
               needs w
             = (pushWith p w,
                Throw (BindingResolutionError
                         (NotInstantiable A (_buildStack (container w)))))).
  { intros needs. unfold resolveFresh.
    rewrite mbind_modify. fold (pushWith p w).
    assert (Hconcrete :
              _getConcrete (container (pushWith p w)) A = Ok A).
    { rewrite _getConcrete_direct.
      - simpl. rewrite Hbind. reflexivity.
      - eapply noContextualBuild_same;
          [apply sameRegistries_pushWith | reflexivity | exact Hno]. }
    erewrite mbind_reading; [| exact Hconcrete].
    unfold _isBuildable. rewrite equals_refl. simpl orb.
    cbv iota. apply mbind_fails.
    rewrite build_S. unfold build_step. rewrite Hplain, Hreflect.
    reflexivity. }
  destruct Hp as [Hp | Hnone].
  - rewrite Hp. destruct (JsMap.get (_instances (container w)) A);
      apply Hfresh.
  - rewrite Hnone. apply Hfresh.
Qed.

(** The string ["mailer"] is not bound. *)
Lemma make_not_instantiable_witness :
  rc_isInstantiable (reflectionClass strictHost (VStr "mailer")) = false
  /\ make strictHost 2 (VStr "mailer") (PArr []) emptyWorld
     = (pushWith (PArr []) emptyWorld,
        Throw (BindingResolutionError (NotInstantiable (VStr "mailer") []))).
Proof.
  split; [reflexivity |].
  apply (@make_not_instantiable strictHost 0 (VStr "mailer") (PArr [])
           emptyWorld eq_refl
           (@noContextualBuild_idle (container emptyWorld) _ eq_refl) eq_refl
           (or_intror eq_refl) eq_refl eq_refl).
Defined.

(** ** Contextual bindings *)

(** The steps of building a class with constructor parameters. *)
Lemma build_class_Ok H n C w w' v :
  isInstantiable C = true ->
  rc_parameters (reflectionClass H C) <> [] ->
  build H (S n) C w = (w', Ok v) ->
  exists wc instances,
    _resolveDependencies H (_resolve H n) (build H n)
      (rc_parameters (reflectionClass H C)) (pushBuild C w)
    = (wc, Ok instances)
    /\ v = VObj (List.length (heap wc)) C
    /\ heap w' = heap wc ++ [mkObj C instances].
Proof.
  intros Hinst Hdeps Hbuild.
  rewrite build_S, build_step_class in Hbuild by exact Hinst.
  apply mbind_Ok in Hbuild. destruct Hbuild as (wa & [] & Hcheck & Hbuild).
  assert (wa = w) as ->.
  { destruct (negb (rc_isInstantiable (reflectionClass H C))).
    - unfold _notInstantiable in Hcheck. rewrite mbind_gets in Hcheck.
      discriminate.
    - inversion Hcheck; reflexivity. }
  rewrite mbind_modify in Hbuild. fold (pushBuild C w) in Hbuild.
  destruct (rc_parameters (reflectionClass H C)) as [| d rest];
    [congruence |].
  change (Nat.eqb (List.length (d :: rest)) 0) with false in Hbuild.
  cbv iota in Hbuild.
  apply mbind_Ok in Hbuild.
  destruct Hbuild as (wc & instances & Hresolve & Hbuild).
  rewrite mbind_modify in Hbuild. unfold new in Hbuild. simpl in Hbuild.
  inversion Hbuild; subst. exists wc, instances. auto.
Qed.

(** A class-typed parameter without default is resolved by [make]. *)
Lemma _resolveDependencies_one_class H make' build' d A w w' instances :
  _hasParameterOverride (container w) d = false ->
  type (_descriptor d) = TClass A ->
  isDefaultValueAvailable d = false ->
  _resolveDependencies H make' build' [d] w = (w', Ok instances) ->
  exists x, make' A (PArr []) w = (w', Ok x) /\ instances = [x].
Proof.
  intros Hoverride Htype Hdefault Hrun. simpl in Hrun.
  rewrite mbind_gets, Hoverride in Hrun.
  unfold isBuiltin in Hrun. rewrite Htype in Hrun.
  apply mbind_Ok in Hrun. destruct Hrun as (w1 & x & Hclass & Hrest).
  rewrite mbind_ret in Hrest. inversion Hrest; subst.
  exists x. split; [| reflexivity].
  unfold _resolveClass, getClass, tryCatch in Hclass.
  rewrite Htype in Hclass. simpl in Hclass.
  destruct (make' A (PArr []) w) as [w2 [y | e |]];
    [exact Hclass | | discriminate].
  rewrite Hdefault, andb_false_r in Hclass. discriminate.
Qed.

(** X27.  A contextual binding is used where it was given: when the
    one constructor parameter of a class C has the class type A, another
    identifier than C, and the store holds the class I under the keys
    [[C, A]], [build(C)] creates C with a newly built I as its argument
    (A canonical and without extenders, I a class the container knows
    nothing else about). *)
Theorem contextual_binding_injects (H : Host) (fuel : nat)
    (C A I : Value) (d : ReflectionParameter) (w w' : World) (v : Value) :
  isInstantiable C = true ->
  rc_parameters (reflectionClass H C) = [d] ->
  type (_descriptor d) = TClass A ->
  isDefaultValueAvailable d = false ->
  _hasParameterOverride (container w) d = false ->
  isAlias (container w) A = false ->
  JsMap.get (_extenders (container w)) A = None ->
  ES5NestedMap.lookup (_contextual (container w)) C A
  = Some (ES5NestedMap.CVal I) ->
  C <> A ->
  I <> A ->
  plainClass (container w) I ->
  JsMap.get (_instances (container w)) I = None ->
  build H fuel C w = (w', Ok v) ->
  exists r r',
    v = VObj r C
    /\ nth_error (heap w') r = Some (mkObj C [VObj r' I])
    /\ List.length (heap w) <= r' /\ r' < r.
Proof.
  intros HinstC Hdeps Htype Hdefault Hoverride Halias Hext Hctx HCA HIA
    Hplain HnoneI Hbuild.
  destruct fuel as [| n]; [discriminate |].
  apply build_class_Ok in Hbuild; [| exact HinstC | rewrite Hdeps; discriminate].
  destruct Hbuild as (wc & instances & Hresolve & -> & Hheap).
  rewrite Hdeps in Hresolve.
  apply _resolveDependencies_one_class with (A := A) in Hresolve; auto.
  destruct Hresolve as (x & Hmake & ->).
  set (w1 := pushBuild C w) in *.
  assert (Hreg1 : sameRegistries (container w) (container w1))
    by (subst w1; same_registries).
  destruct n as [| m]; [discriminate |].
  rewrite _resolve_S in Hmake. unfold _resolve_step in Hmake.
  erewrite mbind_run in Hmake;
    [| apply getAliasM_not_alias; [exact Halias | lia]].
  assert (HinstI : isInstantiable I = true) by (destruct Hplain; assumption).
  assert (Hundef : isUndefined I = false)
    by (destruct I; try discriminate; reflexivity).
  assert (Hfound : forall c,
             _buildStack c = _buildStack (container w) ++ [C] ->
             _contextual c = _contextual (container w) ->
             _getContextualConcrete c A = Ok I).
  { intros c Hstack Hstore. unfold _getContextualConcrete.
    rewrite (@_findInContextualBindings_found c C A (ES5NestedMap.CVal I)).
    - simpl. rewrite Hundef. reflexivity.
    - unfold Arr_last. rewrite Hstack. apply last_push.
    - apply isInstantiable_simpleKey. exact HinstC.
    - exact HCA.
    - rewrite Hstore. exact Hctx. }
  erewrite mbind_reading in Hmake;
    [| apply Hfound; subst w1; reflexivity].
  assert (Htruthy : truthy I = true)
    by (destruct I; try discriminate; reflexivity).
  rewrite Htruthy, orb_true_r, mbind_gets in Hmake.
  assert (Hfresh :
            resolveFresh H (S m) (_resolve H m) (build H m) A (PArr []) true
              w1 = (wc, Ok x))
    by (destruct (JsMap.get (_instances (container w1)) A); exact Hmake).
  clear Hmake. apply resolveFresh_Ok in Hfresh.
  destruct Hfresh as (concrete1 & w2 & object & extenders & w3 & w5
                      & Hc1 & Hinner & Hextenders & Happly & Hfire & ->).
  rewrite (resolveFresh_heap _ _ _ _ _ Hfire) in Hheap.
  rewrite (resolveFresh_heap _ _ _ _ _ Hfire).
  assert (Hconcrete :
            _getConcrete (container (pushWith (PArr []) w1)) A = Ok I).
  { unfold _getConcrete. rewrite Hfound by (subst w1; reflexivity).
    simpl. rewrite Hundef. reflexivity. }
  rewrite Hconcrete in Hc1. inversion Hc1; subst concrete1; clear Hc1.
  unfold _isBuildable in Hinner.
  assert (HIA' : equals I A = false) by (apply equals_false; exact HIA).
  rewrite HIA', HinstI in Hinner. simpl in Hinner.
  assert (Hreg2 : sameRegistries (container w)
                    (container (pushWith (PArr []) w1)))
    by (subst w1; same_registries).
  assert (Hobject : exists r',
             object = VObj r' I
             /\ List.length (heap (pushWith (PArr []) w1)) <= r'
             /\ r' < List.length (heap w2)).
  { eapply make_plain_builds with (p := PArr []).
    - eapply plainClass_same; [exact Hreg2 | exact Hplain].
    - right. exact HnoneI.
    - exact Hinner. }
  destruct Hobject as (r' & -> & Hr1 & Hr2).
  assert (Hev2 : evolves (pushWith (PArr []) w1) w2).
  { pose proof (make_evolves H m I (PArr []) (pushWith (PArr []) w1)) as Hb.
    unfold make in Hb. rewrite Hinner in Hb. exact Hb. }
  destruct Hev2 as ((_ & _ & _ & Hal2 & _ & Hex2 & _) & _).
  simpl in Hal2, Hex2.
  rewrite _getExtenders_not_alias in Hextenders;
    [| unfold isAlias in *; rewrite Hal2; exact Halias | lia].
  rewrite Hex2, Hext in Hextenders.
  inversion Hextenders; subst extenders.
  rewrite applyExtenders_nil in Happly. inversion Happly; subst w3 x.
  exists (List.length (heap w2)), r'.
  split; [reflexivity |]. split; [| split; [exact Hr1 | exact Hr2]].
  rewrite Hheap, nth_error_app2, Nat.sub_diag by lia. reflexivity.
Qed.

(** [Service(repo: Repository)] with a [CachedRepository] given for
    [Repository] when [Service] needs it. *)
Lemma contextual_binding_injects_witness :
  let w := fst (addContextualBinding 5 (VClass "Service")
                  (VClass "Repository") (VClass "CachedRepository")
                  emptyWorld) in
  ES5NestedMap.lookup (_contextual (container w))
    (VClass "Service") (VClass "Repository")
  = Some (ES5NestedMap.CVal (VClass "CachedRepository"))
  /\ snd (build strictHost 5 (VClass "Service") w)
     = Ok (VObj 1 (VClass "Service"))
  /\ exists r r',
       VObj 1 (VClass "Service") = VObj r (VClass "Service")
       /\ nth_error (heap (fst (build strictHost 5 (VClass "Service") w))) r
          = Some (mkObj (VClass "Service")
                    [VObj r' (VClass "CachedRepository")])
       /\ 0 <= r' /\ r' < r.
Proof.
  cbv zeta. split; [reflexivity |]. split; [reflexivity |].
  set (w := fst (addContextualBinding 5 (VClass "Service")
                   (VClass "Repository") (VClass "CachedRepository")
                   emptyWorld)).
  assert (Hplain : plainClass (container w) (VClass "CachedRepository")).
  { repeat split. apply noContextualFor_anchored.
    - intros key cell. subst w. simpl.
      destruct (key_eq_dec (VClass "Service") key) as [<- | Hne];
        [| discriminate].
      intros Hcell. inversion Hcell. eauto.
    - intros x [-> | (aliases & Hal & _)]; [| discriminate].
      split; [reflexivity |]. intros top. subst w.
      unfold ES5NestedMap.lookup. simpl.
      destruct (key_eq_dec (VClass "Service") top); reflexivity. }
  apply (@contextual_binding_injects strictHost 5 (VClass "Service")
           (VClass "Repository") (VClass "CachedRepository")
           (parameterOf "Service" "repo" (TClass (VClass "Repository"))
              VUndefined)
           w (fst (build strictHost 5 (VClass "Service") w))
           (VObj 1 (VClass "Service"))
           eq_refl eq_refl eq_refl eq_refl eq_refl eq_refl eq_refl eq_refl).
  - discriminate.
  - discriminate.
  - exact Hplain.
  - reflexivity.
  - vm_compute. reflexivity.
Defined.

